(** * CortenMM simulator: page-table tree, range cursor and mapping operations

    A shallow embedding of [cortenmm/core.py], [cortenmm/cursor.py],
    [cortenmm/addrspace.py] and [cortenmm/syscalls.py], and of the VMA-based
    model of [benchmarks/linux_mock.py] that the benchmarks compare against.

    Python integers are unbounded, so addresses, frame numbers and counters
    are [Z]; [&], [|], [<<], [>>] and [~] are [Z.land], [Z.lor], [Z.shiftl],
    [Z.shiftr] and [Z.lnot], which agree with Python on negative numbers too.
    Page-table pages are mutable objects shared between the tree, the cursors
    and the reclaimer queue: they live in an object store and are referred to
    by their position in it.  Readings of [time.time()] are Python floats,
    that is IEEE 754 binary64 numbers: they are [float], and their
    subtraction and comparison are those of binary64. *)

From Stdlib Require Import Floats.PrimFloat.
From stdpp Require Import base list gmap.
From Stdlib Require Import ZArith Lia.

Local Open Scope Z_scope.

(* ===================================================================== *)
(** ** core.py *)
(* ===================================================================== *)

Definition PTES_PER_PAGE : Z := 512.
Definition PAGE_SIZE : Z := 4096.

Inductive Status := Invalid | Mapped | PrivateAnon | COW | FileMapped.

#[global] Instance Status_eq_dec : EqDecision Status.
Proof. solve_decision. Defined.

(** [class PTE]: the hardware entry.  [pfn] is [Optional[int]]. *)
Record PTE := mkPTE {
  pfn : option Z;
  present : bool;
  rw : bool;
  user : bool;
  accessed : bool;
  dirty : bool
}.

(** [PTE()] with the dataclass defaults; note [user = True]. *)
Definition PTE_new : PTE := mkPTE None false false true false false.

(** [PTE.clear]: assigns [pfn], [present], [rw], [accessed] and [dirty];
    there is no assignment to [user]. *)
Definition PTE_clear (e : PTE) : PTE :=
  mkPTE None false false (user e) false false.

(** [PTE.is_valid]: [self.present and self.pfn is not None]. *)
Definition PTE_is_valid (e : PTE) : bool :=
  present e && bool_decide (pfn e ≠ None).

Definition PTE_set_rw (b : bool) (e : PTE) : PTE :=
  mkPTE (pfn e) (present e) b (user e) (accessed e) (dirty e).

(** [class PTEMetadata]. *)
Record PTEMetadata := mkMeta {
  status : Status;
  soft_perm : Z;
  refcount : Z;
  file_offset : option Z
}.

Definition PTEMetadata_new : PTEMetadata := mkMeta Invalid 0 0 None.

(** [parse_vaddr]: the loop appends the low nine bits and shifts, [levels]
    times; the result is the reversed list. *)
Fixpoint parse_loop (n : nat) (vpn : Z) (indices : list Z) : list Z :=
  match n with
  | O => indices
  | S n' => parse_loop n' (Z.shiftr vpn 9) (indices ++ [Z.land vpn 0x1FF])
  end.

Definition parse_vaddr (vaddr : Z) (levels : nat) : list Z :=
  rev (parse_loop levels (Z.shiftr vaddr 12) []).

(** [make_vaddr]. *)
Definition make_vaddr (indices : list Z) (offset : Z) : Z :=
  let vaddr := fold_left (fun v idx => Z.lor (Z.shiftl v 9) idx) indices 0 in
  Z.lor (Z.shiftl vaddr 12) offset.

(** [indices[-1]] of [parse_vaddr(vaddr)] with the default [levels = 4]:
    the index into the leaf page. *)
Definition leaf_index (vaddr : Z) : Z :=
  List.last (parse_vaddr vaddr 4) 0.

(** [class PageDescriptor].  [lock] is the [threading.Lock]: [true] while
    some scope holds it. *)
Record PageDescriptor := mkDesc {
  lock : bool;
  per_pte_metadata : list PTEMetadata;
  is_stale : bool;
  version : Z
}.

(** [class PageTablePage].  [children] holds [Optional[PageTablePage]]
    references, here positions in the object store. *)
Record PageTablePage := mkPage {
  ptes : list PTE;
  descriptor : PageDescriptor;
  children : list (option nat);
  level : Z
}.

Definition PageDescriptor_new : PageDescriptor :=
  mkDesc false (replicate 512 PTEMetadata_new) false 0.

Definition PageTablePage_new (lvl : Z) : PageTablePage :=
  mkPage (replicate 512 PTE_new) PageDescriptor_new (replicate 512 None) lvl.

#[global] Instance PTE_inhabited : Inhabited PTE := populate PTE_new.
#[global] Instance PTEMetadata_inhabited : Inhabited PTEMetadata :=
  populate PTEMetadata_new.
#[global] Instance PageTablePage_inhabited : Inhabited PageTablePage :=
  populate (PageTablePage_new 0).

(** Field assignments on a descriptor and on a page. *)
Definition set_lock (b : bool) (d : PageDescriptor) : PageDescriptor :=
  mkDesc b (per_pte_metadata d) (is_stale d) (version d).
Definition set_metadata (ms : list PTEMetadata) (d : PageDescriptor) : PageDescriptor :=
  mkDesc (lock d) ms (is_stale d) (version d).
Definition mark_stale (d : PageDescriptor) : PageDescriptor :=
  mkDesc (lock d) (per_pte_metadata d) true (version d).
Definition increment_version (d : PageDescriptor) : PageDescriptor :=
  mkDesc (lock d) (per_pte_metadata d) (is_stale d) (version d + 1).

Definition set_descriptor (f : PageDescriptor -> PageDescriptor) (pg : PageTablePage)
  : PageTablePage :=
  mkPage (ptes pg) (f (descriptor pg)) (children pg) (level pg).
Definition set_ptes (es : list PTE) (pg : PageTablePage) : PageTablePage :=
  mkPage es (descriptor pg) (children pg) (level pg).

(** [PageTablePage.is_leaf], [get_pte], [get_metadata], [get_child],
    [set_child].  Every index that reaches them is a group of
    [parse_vaddr], hence in [0, 512) ([parse_vaddr_range] below), so their
    range assertions never fire. *)
Definition is_leaf (pg : PageTablePage) : bool := level pg =? 0.
Definition get_pte (pg : PageTablePage) (index : Z) : PTE :=
  ptes pg !!! Z.to_nat index.
Definition get_metadata (pg : PageTablePage) (index : Z) : PTEMetadata :=
  per_pte_metadata (descriptor pg) !!! Z.to_nat index.
Definition get_child (pg : PageTablePage) (index : Z) : option nat :=
  children pg !!! Z.to_nat index.
Definition set_child (index : Z) (child : option nat) (pg : PageTablePage)
  : PageTablePage :=
  mkPage (ptes pg) (descriptor pg) (<[Z.to_nat index := child]> (children pg)) (level pg).

(** Assignment to fields of the PTE or metadata object at one index. *)
Definition update_pte (index : Z) (f : PTE -> PTE) (pg : PageTablePage) : PageTablePage :=
  set_ptes (alter f (Z.to_nat index) (ptes pg)) pg.
Definition update_metadata (index : Z) (f : PTEMetadata -> PTEMetadata)
    (pg : PageTablePage) : PageTablePage :=
  set_descriptor
    (fun d => set_metadata (alter f (Z.to_nat index) (per_pte_metadata d)) d) pg.

(* ===================================================================== *)
(** ** Program state *)
(* ===================================================================== *)

(** One [CortenMMSystem] with its [AddrSpace] and [RCUReclaimer], together
    with the page objects they refer to.  [clock] is the reading of
    [time.time()], a float counting seconds; the reclaimer queue holds
    [(timestamp, page)] pairs.  The three mutexes other than the descriptor
    locks are [true] while held. *)
Record State := mkState {
  store : list PageTablePage;
  clock : float;
  root : nat;
  levels : nat;
  rcu_queue : list (float * nat);
  rcu_lock : bool;
  structure_lock : bool;
  next_pfn : Z;
  pfn_lock : bool;
  cow_refcounts : gmap Z Z
}.

Definition with_store (f : list PageTablePage -> list PageTablePage) (st : State) : State :=
  mkState (f (store st)) (clock st) (root st) (levels st) (rcu_queue st) (rcu_lock st)
    (structure_lock st) (next_pfn st) (pfn_lock st) (cow_refcounts st).
Definition with_rcu_queue (q : list (float * nat)) (st : State) : State :=
  mkState (store st) (clock st) (root st) (levels st) q (rcu_lock st)
    (structure_lock st) (next_pfn st) (pfn_lock st) (cow_refcounts st).
Definition with_rcu_lock (b : bool) (st : State) : State :=
  mkState (store st) (clock st) (root st) (levels st) (rcu_queue st) b
    (structure_lock st) (next_pfn st) (pfn_lock st) (cow_refcounts st).
Definition with_structure_lock (b : bool) (st : State) : State :=
  mkState (store st) (clock st) (root st) (levels st) (rcu_queue st) (rcu_lock st)
    b (next_pfn st) (pfn_lock st) (cow_refcounts st).
Definition with_next_pfn (n : Z) (st : State) : State :=
  mkState (store st) (clock st) (root st) (levels st) (rcu_queue st) (rcu_lock st)
    (structure_lock st) n (pfn_lock st) (cow_refcounts st).
Definition with_pfn_lock (b : bool) (st : State) : State :=
  mkState (store st) (clock st) (root st) (levels st) (rcu_queue st) (rcu_lock st)
    (structure_lock st) (next_pfn st) b (cow_refcounts st).
Definition with_cow_refcounts (m : gmap Z Z) (st : State) : State :=
  mkState (store st) (clock st) (root st) (levels st) (rcu_queue st) (rcu_lock st)
    (structure_lock st) (next_pfn st) (pfn_lock st) m.
Definition with_clock (t : float) (st : State) : State :=
  mkState (store st) t (root st) (levels st) (rcu_queue st) (rcu_lock st)
    (structure_lock st) (next_pfn st) (pfn_lock st) (cow_refcounts st).

(** Time passing between two calls. *)
Definition advance_clock (dt : float) (st : State) : State :=
  with_clock (clock st + dt)%float st.

(** Reading a page object.  References are only ever made by allocating
    a page, so they always point into the store; a position outside it
    reads as a blank page, which keeps the function total. *)
Definition deref (st : State) (p : nat) : PageTablePage := store st !!! p.

(** [AddrSpace(levels)] inside a fresh [CortenMMSystem]: the root page is
    the only page, nothing is queued, no frame has been handed out. *)
Definition AddrSpace_new (lv : nat) : State :=
  mkState [PageTablePage_new (Z.of_nat lv - 1)] 0%float 0%nat lv [] false false 0x1000 false ∅.

Definition CortenMMSystem_new : State := AddrSpace_new 4.

(* ===================================================================== *)
(** ** Control: state, exceptions, blocking *)
(* ===================================================================== *)

Inductive error := AssertionError | RuntimeError | IndexError.

(** A call returns, raises (the mutations made so far stay), or waits
    forever on a mutex that is never released. *)
Inductive result (A : Type) :=
  | Ok (a : A) (st : State)
  | Raise (e : error) (st : State)
  | Blocked.
Arguments Ok {A} a st.
Arguments Raise {A} e st.
Arguments Blocked {A}.

Definition M (A : Type) : Type := State -> result A.

Definition ret {A} (a : A) : M A := fun st => Ok a st.
Definition bind {A B} (m : M A) (k : A -> M B) : M B := fun st =>
  match m st with
  | Ok a st' => k a st'
  | Raise e st' => Raise e st'
  | Blocked => Blocked
  end.
Definition raise {A} (e : error) : M A := fun st => Raise e st.
Definition gets {A} (f : State -> A) : M A := fun st => Ok (f st) st.
Definition modify (f : State -> State) : M unit := fun st => Ok tt (f st).

Notation "'let*' x ':=' m 'in' k" := (bind m (fun x => k))
  (at level 10, x pattern, m at level 100, k at level 200).

(** [try: m finally: fin].  The exception of [m] is re-raised after [fin]
    unless [fin] raises itself. *)
Definition finally {A} (m : M A) (fin : M unit) : M A := fun st =>
  match m st with
  | Ok a st' =>
      match fin st' with
      | Ok _ st'' => Ok a st''
      | Raise e st'' => Raise e st''
      | Blocked => Blocked
      end
  | Raise e st' =>
      match fin st' with
      | Ok _ st'' => Raise e st''
      | Raise e' st'' => Raise e' st''
      | Blocked => Blocked
      end
  | Blocked => Blocked
  end.

(** [try: m except Exception: return a]. *)
Definition catch {A} (m : M A) (a : A) : M A := fun st =>
  match m st with
  | Ok r st' => Ok r st'
  | Raise _ st' => Ok a st'
  | Blocked => Blocked
  end.

(** [assert c]. *)
Definition assert (c : bool) : M unit :=
  if c then ret tt else raise AssertionError.

Definition update_page (p : nat) (f : PageTablePage -> PageTablePage) : M unit :=
  modify (with_store (alter f p)).

(** [threading.Lock.acquire] and [release] on a page's descriptor lock.
    Acquiring a held lock never returns; releasing a free one raises
    [RuntimeError]. *)
Definition lock_acquire (p : nat) : M unit := fun st =>
  if lock (descriptor (deref st p)) then Blocked
  else Ok tt (with_store (alter (set_descriptor (set_lock true)) p) st).
Definition lock_release (p : nat) : M unit := fun st =>
  if lock (descriptor (deref st p))
  then Ok tt (with_store (alter (set_descriptor (set_lock false)) p) st)
  else Raise RuntimeError st.

(** [with mutex: body] for the three address-space mutexes. *)
Definition with_mutex {A} (held : State -> bool) (set : bool -> State -> State)
    (body : M A) : M A := fun st =>
  if held st then Blocked
  else finally body (modify (set false)) (set true st).

(* ===================================================================== *)
(** ** addrspace.py: reclaimer *)
(* ===================================================================== *)

(** [RCUReclaimer.defer_free]: under the reclaimer mutex, mark the page
    stale and append it with the current time. *)
Definition defer_free (pt_page : nat) : M unit :=
  with_mutex rcu_lock with_rcu_lock
    (let* _ := update_page pt_page (set_descriptor mark_stale) in
     modify (fun st => with_rcu_queue (rcu_queue st ++ [(clock st, pt_page)]) st)).

(** The [while self.queue] loop of [try_reclaim]: pop from the left while
    [now - timestamp >= grace_period] holds of the head, stop at the first
    entry of which it does not.  The subtraction is rounded to binary64 and
    the comparison is false when a side is not a number, as in Python. *)
Fixpoint reclaim_loop (now grace : float) (q : list (float * nat)) : list (float * nat) :=
  match q with
  | [] => []
  | (timestamp, pt_page) :: rest =>
      if (grace <=? now - timestamp)%float then reclaim_loop now grace rest else q
  end.

(** The default of the parameter [grace_period]: the float that the literal
    [0.001] denotes, the binary64 number nearest to one thousandth. *)
Definition grace_period : float := 0x1.0624dd2f1a9fcp-10%float.

(** [RCUReclaimer.try_reclaim], called without argument. *)
Definition try_reclaim : M unit :=
  with_mutex rcu_lock with_rcu_lock
    (modify (fun st =>
       with_rcu_queue (reclaim_loop (clock st) grace_period (rcu_queue st)) st)).

(* ===================================================================== *)
(** ** cursor.py *)
(* ===================================================================== *)

(** [class RCursor].  [locked_pages] pairs each page with its own
    descriptor, so the page reference stands for both. *)
Record RCursor := mkCursor {
  vaddr_start : Z;
  vaddr_end : Z;
  locked_pages : list nat;
  _released : bool
}.

(** [RCursor.add_locked_page]. *)
Definition add_locked_page (pt_page : nat) (c : RCursor) : RCursor :=
  mkCursor (vaddr_start c) (vaddr_end c) (locked_pages c ++ [pt_page]) (_released c).

Definition in_cursor_range (c : RCursor) (vaddr : Z) : bool :=
  (vaddr_start c <=? vaddr) && (vaddr <? vaddr_end c).

(** [for pt_page, _ in self.locked_pages: if pt_page.is_leaf(): ... return]:
    the page the loop body runs on, if any. *)
Definition first_leaf (pages : list PageTablePage) (locked : list nat) : option nat :=
  List.find (fun p => is_leaf (pages !!! p)) locked.

(** [RCursor.query]. *)
Definition RCursor_query (c : RCursor) (vaddr : Z) : M Status :=
  let* _ := assert (in_cursor_range c vaddr) in
  gets (fun st =>
    match first_leaf (store st) (locked_pages c) with
    | Some pt_page => status (get_metadata (deref st pt_page) (leaf_index vaddr))
    | None => Invalid
    end).

(** The assignments of [RCursor.map] to the PTE and to the metadata. *)
Definition map_pte (pfn' : Z) (writable : bool) (e : PTE) : PTE :=
  mkPTE (Some pfn') true writable true (accessed e) (dirty e).
Definition map_metadata (writable : bool) (m : PTEMetadata) : PTEMetadata :=
  mkMeta Mapped (if writable then 7 else 5) (refcount m) (file_offset m).

(** [RCursor.map]. *)
Definition RCursor_map (c : RCursor) (vaddr pfn' : Z) (writable : bool) : M unit :=
  let* _ := assert (in_cursor_range c vaddr) in
  let* leaf := gets (fun st => first_leaf (store st) (locked_pages c)) in
  match leaf with
  | Some pt_page =>
      let pte_index := leaf_index vaddr in
      let* _ := update_page pt_page (update_pte pte_index (map_pte pfn' writable)) in
      let* _ := update_page pt_page (update_metadata pte_index (map_metadata writable)) in
      update_page pt_page (set_descriptor increment_version)
  | None => raise RuntimeError
  end.

(** [while vaddr < self.vaddr_end: body; vaddr += 4096].  The loop runs
    [page_count] times ([page_count_exact] below). *)
Definition page_count (vstart vend : Z) : nat :=
  Z.to_nat ((vend - vstart + 4095) / 4096).

Fixpoint while_pages (n : nat) (vaddr vend : Z) (body : Z -> M unit) : M unit :=
  match n with
  | O => ret tt
  | S n' =>
      if vaddr <? vend
      then let* _ := body vaddr in while_pages n' (vaddr + 4096) vend body
      else ret tt
  end.

Definition for_pages (vstart vend : Z) (body : Z -> M unit) : M unit :=
  while_pages (page_count vstart vend) vstart vend body.

Definition mark_metadata (s : Status) (perm : Z) (m : PTEMetadata) : PTEMetadata :=
  mkMeta s perm (refcount m) (file_offset m).

(** The inner [for] of [RCursor.mark]: every leaf among the locked pages
    is written, there is no [return] or [break]. *)
Fixpoint mark_pages (pages : list nat) (pte_index : Z) (s : Status) (perm : Z) : M unit :=
  match pages with
  | [] => ret tt
  | pt_page :: rest =>
      let* leaf := gets (fun st => is_leaf (deref st pt_page)) in
      let* _ :=
        if leaf
        then let* _ := update_page pt_page (update_metadata pte_index (mark_metadata s perm)) in
             update_page pt_page (set_descriptor increment_version)
        else ret tt in
      mark_pages rest pte_index s perm
  end.

(** [RCursor.mark]. *)
Definition RCursor_mark (c : RCursor) (s : Status) (perm : Z) : M unit :=
  for_pages (vaddr_start c) (vaddr_end c)
    (fun vaddr => mark_pages (locked_pages c) (leaf_index vaddr) s perm).

Definition unmap_metadata (m : PTEMetadata) : PTEMetadata :=
  mkMeta Invalid 0 0 (file_offset m).

(** [RCursor.unmap]. *)
Definition RCursor_unmap (c : RCursor) (vaddr : Z) : M unit :=
  let* _ := assert (in_cursor_range c vaddr) in
  let* leaf := gets (fun st => first_leaf (store st) (locked_pages c)) in
  match leaf with
  | Some pt_page =>
      let pte_index := leaf_index vaddr in
      let* _ := update_page pt_page (update_pte pte_index PTE_clear) in
      let* _ := update_page pt_page (update_metadata pte_index unmap_metadata) in
      update_page pt_page (set_descriptor increment_version)
  | None => raise RuntimeError
  end.

(** [RCursor.unmap_range]: the first leaf is examined and the inner loop
    breaks; nothing in the [try] block can raise. *)
Definition RCursor_unmap_range (c : RCursor) : M unit :=
  for_pages (vaddr_start c) (vaddr_end c) (fun vaddr =>
    let* leaf := gets (fun st => first_leaf (store st) (locked_pages c)) in
    match leaf with
    | Some pt_page =>
        let pte_index := leaf_index vaddr in
        let* s := gets (fun st => status (get_metadata (deref st pt_page) pte_index)) in
        if bool_decide (s ≠ Invalid)
        then let* _ := update_page pt_page (update_pte pte_index PTE_clear) in
             let* _ := update_page pt_page (update_metadata pte_index unmap_metadata) in
             update_page pt_page (set_descriptor increment_version)
        else ret tt
    | None => ret tt
    end).

(** [RCursor.get_pte_and_metadata]: the two returned objects are the ones
    stored in the page, so the caller's later reads and writes go to the
    page; the pair is represented by the page and the index. *)
Definition RCursor_get_pte_and_metadata (c : RCursor) (vaddr : Z)
  : M (option (nat * Z)) :=
  let* _ := assert (in_cursor_range c vaddr) in
  gets (fun st =>
    match first_leaf (store st) (locked_pages c) with
    | Some pt_page => Some (pt_page, leaf_index vaddr)
    | None => None
    end).

Fixpoint release_all (pages : list nat) : M unit :=
  match pages with
  | [] => ret tt
  | p :: rest => let* _ := lock_release p in release_all rest
  end.

(** [RCursor.release]: nothing on a cursor that has been released;
    otherwise the locks are released in reverse order of acquisition,
    [locked_pages] is emptied and the cursor is flagged as released.  The
    cursor object is changed in place: the result is the cursor as it is
    afterwards. *)
Definition RCursor_release (c : RCursor) : M RCursor :=
  if _released c then ret c
  else
    let* _ := release_all (rev (locked_pages c)) in
    ret (mkCursor (vaddr_start c) (vaddr_end c) [] true).

(* ===================================================================== *)
(** ** addrspace.py: address space *)
(* ===================================================================== *)

(** [AddrSpace.allocate_pfn]. *)
Definition allocate_pfn : M Z :=
  with_mutex pfn_lock with_pfn_lock
    (let* pfn' := gets next_pfn in
     let* _ := modify (fun st => with_next_pfn (next_pfn st + 1) st) in
     ret pfn').

(** The descent shared by [_traverse_rcu] and [_ensure_leaf_page]: follow
    the child references, [None] at the first absent one. *)
Fixpoint descend (pages : list PageTablePage) (current : nat) (indices : list Z)
  : option nat :=
  match indices with
  | [] => Some current
  | index :: rest =>
      match get_child (pages !!! current) index with
      | None => None
      | Some child => descend pages child rest
      end
  end.

(** The page reached for [vaddr] by the descent from the root over
    [indices[:-1]]. *)
Definition leaf_of (st : State) (vaddr : Z) : option nat :=
  descend (store st) (root st) (removelast (parse_vaddr vaddr (levels st))).

(** [AddrSpace._traverse_rcu]. *)
Definition _traverse_rcu (vaddr : Z) : M (option nat) :=
  gets (fun st => leaf_of st vaddr).

(** [AddrSpace._ensure_leaf_page]. *)
Definition _ensure_leaf_page (vaddr : Z) : M (option nat) :=
  gets (fun st => leaf_of st vaddr).

(** [AddrSpace._lock_and_validate]. *)
Definition _lock_and_validate (pt_page : nat) : M bool :=
  let* _ := lock_acquire pt_page in
  let* stale := gets (fun st => is_stale (descriptor (deref st pt_page))) in
  if stale
  then let* _ := lock_release pt_page in ret false
  else ret true.

(** [AddrSpace._dfs_lock_subtree].  The [RuntimeError] for a stale child
    is caught by the only caller, whose handler uses the pages appended so
    far: the function returns that list with [false] instead.  The nesting
    depth is bounded by the number of pages, because every page on the
    current path is locked and locking one twice blocks. *)
Fixpoint _dfs_lock_subtree (fuel : nat) (pt_page : nat) (locked : list nat)
  : M (list nat * bool) :=
  match fuel with
  | O => fun _ => Blocked
  | S fuel' =>
      let locked := locked ++ [pt_page] in
      let* pg := gets (fun st => deref st pt_page) in
      if is_leaf pg then ret (locked, true)
      else
        (fix each_child (cs : list (option nat)) (locked : list nat)
           : M (list nat * bool) :=
           match cs with
           | [] => ret (locked, true)
           | None :: cs' => each_child cs' locked
           | Some child :: cs' =>
               let* valid := _lock_and_validate child in
               if valid
               then let* r := _dfs_lock_subtree fuel' child locked in
                    if snd r then each_child cs' (fst r) else ret r
               else ret (locked, false)
           end) (children pg) locked
  end.

(** The body of the [for] loop of [_create_leaf_page]; [i] is the loop
    counter of [enumerate]. *)
Fixpoint create_path (i : Z) (current : nat) (indices : list Z) : M nat :=
  match indices with
  | [] => ret current
  | index :: rest =>
      let* child := gets (fun st => get_child (deref st current) index) in
      match child with
      | Some c => create_path (i + 1) c rest
      | None =>
          let* c := gets (fun st => length (store st)) in
          let* lv := gets levels in
          let* _ := modify (with_store
                      (fun s => s ++ [PageTablePage_new (Z.of_nat lv - 2 - i)])) in
          let* _ := update_page current (set_child index (Some c)) in
          create_path (i + 1) c rest
      end
  end.

(** [AddrSpace._create_leaf_page]. *)
Definition _create_leaf_page (vaddr : Z) : M nat :=
  with_mutex structure_lock with_structure_lock
    (let* lv := gets levels in
     let* r := gets root in
     create_path 0 r (removelast (parse_vaddr vaddr lv))).

(** One round of the retry loop of [AddrSpace.lock] and the rounds after
    it, up to the [yield]; [RuntimeError] once the rounds are used up. *)
Fixpoint lock_attempts (retries : nat) (vstart vend : Z) (deep : bool) : M RCursor :=
  match retries with
  | O => raise RuntimeError
  | S retries' =>
      let* found := _ensure_leaf_page vstart in
      let* pt_page :=
        match found with
        | Some p => ret p
        | None => _create_leaf_page vstart
        end in
      let* valid := _lock_and_validate pt_page in
      if negb valid then lock_attempts retries' vstart vend deep
      else
        let* r :=
          if deep
          then let* n := gets (fun st => length (store st)) in
               _dfs_lock_subtree (S n) pt_page []
          else ret ([pt_page], true) in
        if snd r
        then ret (fold_left (fun c p => add_locked_page p c) (fst r)
                    (mkCursor vstart vend [] false))
        else let* _ := release_all (fst r) in
             lock_attempts retries' vstart vend deep
  end.

(** [AddrSpace.lock] used as [with addr_space.lock(...) as cursor: body]. *)
Definition AddrSpace_lock {A} (vstart vend : Z) (deep : bool) (body : RCursor -> M A)
  : M A :=
  let vstart := Z.land vstart (Z.lnot 0xFFF) in
  let vend := Z.land (vend + 0xFFF) (Z.lnot 0xFFF) in
  let* cursor := lock_attempts 10 vstart vend deep in
  finally (body cursor)
    (let* _ := RCursor_release cursor in try_reclaim).

(** The statements of [AddrSpace.remove_page_table] inside the
    [with self.structure_lock] block, from the descent to
    [target.descriptor.lock.release()]; the result is the target that was
    unlinked, if there was one. *)
Definition unlink_target (vaddr : Z) : M (option nat) :=
  let* lv := gets levels in
  let indices := parse_vaddr vaddr lv in
  let* r := gets root in
  let* found := gets (fun st => descend (store st) r (removelast (removelast indices))) in
  match found with
  | None => ret None
  | Some parent =>
      match rev indices with
      | _ :: target_index :: _ =>
          let* target := gets (fun st => get_child (deref st parent) target_index) in
          match target with
          | Some t =>
              let* _ := lock_acquire t in
              let* _ := update_page parent (set_child target_index None) in
              let* _ := lock_release t in
              ret (Some t)
          | None => ret None
          end
      | _ => raise IndexError
      end
  end.

(** [AddrSpace.remove_page_table]: the block above, then
    [self.rcu_reclaimer.defer_free(target)], all under the structure mutex. *)
Definition remove_page_table (vaddr : Z) : M unit :=
  with_mutex structure_lock with_structure_lock
    (let* unlinked := unlink_target vaddr in
     match unlinked with
     | Some target => defer_free target
     | None => ret tt
     end).

(* ===================================================================== *)
(** ** syscalls.py *)
(* ===================================================================== *)

Definition page_align (vaddr : Z) : Z := Z.land vaddr (Z.lnot 0xFFF).
Definition page_align_up (vaddr : Z) : Z := Z.land (vaddr + 0xFFF) (Z.lnot 0xFFF).

(** [CortenMMSystem.do_syscall_mmap]. *)
Definition do_syscall_mmap (vaddr length prot : Z) : M Z :=
  let vaddr := page_align vaddr in
  let vaddr_end := page_align_up (vaddr + length) in
  catch
    (let* _ := AddrSpace_lock vaddr vaddr_end false
                 (fun cursor => RCursor_mark cursor PrivateAnon prot) in
     ret vaddr)
    (-1).

(** [CortenMMSystem.do_syscall_munmap]. *)
Definition do_syscall_munmap (vaddr length : Z) : M Z :=
  let vaddr := page_align vaddr in
  let vaddr_end := page_align_up (vaddr + length) in
  catch
    (let* _ := AddrSpace_lock vaddr vaddr_end false RCursor_unmap_range in
     ret 0)
    (-1).

Definition cow_refcount (st : State) (frame : Z) : Z :=
  default 1 (cow_refcounts st !! frame).

Definition cow_metadata (m : PTEMetadata) : PTEMetadata :=
  mkMeta PrivateAnon (soft_perm m) 1 (file_offset m).

(** [CortenMMSystem._handle_cow_write].  [pte] and [metadata] are the
    objects of the page, so the assignments after [cursor.map] write the
    entry that [map] has just written. *)
Definition _handle_cow_write (cursor : RCursor) (vaddr : Z) : M bool :=
  let* result := RCursor_get_pte_and_metadata cursor vaddr in
  match result with
  | None => ret false
  | Some (pt_page, idx) =>
      let* pte := gets (fun st => get_pte (deref st pt_page) idx) in
      if negb (PTE_is_valid pte) then ret false
      else
        match pfn pte with
        | None => ret false
        | Some old_pfn =>
            let* refcnt := gets (fun st => cow_refcount st old_pfn) in
            if refcnt >? 1
            then
              let* new_pfn := allocate_pfn in
              let* _ := RCursor_map cursor vaddr new_pfn true in
              let* _ := modify (fun st =>
                          with_cow_refcounts (<[old_pfn := refcnt - 1]> (cow_refcounts st)) st) in
              let* _ := modify (fun st =>
                          with_cow_refcounts (<[new_pfn := 1]> (cow_refcounts st)) st) in
              let* _ := update_page pt_page (update_metadata idx cow_metadata) in
              ret true
            else
              let* _ := update_page pt_page (update_pte idx (PTE_set_rw true)) in
              let* _ := update_page pt_page (update_metadata idx cow_metadata) in
              ret true
        end
  end.

(** [CortenMMSystem.handle_page_fault]. *)
Definition handle_page_fault (vaddr : Z) (is_write : bool) : M bool :=
  let vaddr_page := page_align vaddr in
  catch
    (AddrSpace_lock vaddr_page (vaddr_page + 0x1000) false (fun cursor =>
       let* s := RCursor_query cursor vaddr in
       match s with
       | PrivateAnon =>
           let* pfn' := allocate_pfn in
           let* _ := RCursor_map cursor vaddr pfn' true in
           ret true
       | COW =>
           if negb is_write
           then
             let* result := RCursor_get_pte_and_metadata cursor vaddr in
             match result with
             | None => ret false
             | Some (pt_page, idx) =>
                 let* pte := gets (fun st => get_pte (deref st pt_page) idx) in
                 if negb (PTE_is_valid pte) then ret false else ret true
             end
           else _handle_cow_write cursor vaddr
       | Mapped =>
           let* result := RCursor_get_pte_and_metadata cursor vaddr in
           match result with
           | None => ret false
           | Some (pt_page, idx) =>
               let* pte := gets (fun st => get_pte (deref st pt_page) idx) in
               let* metadata := gets (fun st => get_metadata (deref st pt_page) idx) in
               if is_write && negb (rw pte)
               then if negb (Z.land (soft_perm metadata) 2 =? 0) then ret false else ret false
               else ret true
           end
       | _ => ret false
       end))
    false.

Definition set_status (s : Status) (m : PTEMetadata) : PTEMetadata :=
  mkMeta s (soft_perm m) (refcount m) (file_offset m).
Definition set_refcount (n : Z) (m : PTEMetadata) : PTEMetadata :=
  mkMeta (status m) (soft_perm m) n (file_offset m).

(** [CortenMMSystem.do_fork_cow]. *)
Definition do_fork_cow (vaddr length : Z) : M bool :=
  let vaddr := page_align vaddr in
  let vaddr_end := page_align_up (vaddr + length) in
  catch
    (let* _ := AddrSpace_lock vaddr vaddr_end false (fun cursor =>
       for_pages vaddr vaddr_end (fun current_vaddr =>
         let* result := RCursor_get_pte_and_metadata cursor current_vaddr in
         match result with
         | None => ret tt
         | Some (pt_page, idx) =>
             let* pte := gets (fun st => get_pte (deref st pt_page) idx) in
             let* metadata := gets (fun st => get_metadata (deref st pt_page) idx) in
             if PTE_is_valid pte && bool_decide (status metadata = Mapped)
             then
               match pfn pte with
               | None => ret tt
               | Some frame =>
                   let* _ := update_page pt_page (update_metadata idx (set_status COW)) in
                   let* _ := update_page pt_page (update_pte idx (PTE_set_rw false)) in
                   let* _ := modify (fun st =>
                               with_cow_refcounts
                                 (<[frame := cow_refcount st frame + 1]> (cow_refcounts st)) st) in
                   let* cnt := gets (fun st => cow_refcount st frame) in
                   update_page pt_page (update_metadata idx (set_refcount cnt))
               end
             else ret tt
         end)) in
     ret true)
    false.

(* ===================================================================== *)
(** ** Scenarios *)
(* ===================================================================== *)

(** The state a call leaves behind, whether it returned or raised. *)
Definition state_after {A} (m : M A) (st : State) : State :=
  match m st with
  | Ok _ st' => st'
  | Raise _ st' => st'
  | Blocked => st
  end.

(** A system in which the leaf pages for [0x1FF000] (the last entry of one
    leaf) and [0x200000] (the first entry of the next) both exist. *)
Definition two_leaves : State :=
  state_after (do_syscall_mmap 0x200000 0x1000 3)
    (state_after (do_syscall_mmap 0x1FF000 0x1000 3) CortenMMSystem_new).

(** An entry marked COW through a cursor, with no frame behind it. *)
Definition cow_unbacked : State :=
  state_after (AddrSpace_lock 0x7000 0x8000 false (fun c => RCursor_mark c COW 3))
    CortenMMSystem_new.

(** One page at [0x30000], touched and then shared by [do_fork_cow]: its
    frame [0x1000] has refcount 2. *)
Definition shared_page : State :=
  state_after (do_fork_cow 0x30000 0x1000)
    (state_after (handle_page_fault 0x30000 true)
       (state_after (do_syscall_mmap 0x30000 0x1000 3) CortenMMSystem_new)).


(** A system with one mapped region at [0x400000]. *)
Definition one_region : State :=
  state_after (do_syscall_mmap 0x400000 0x1000 3) CortenMMSystem_new.

(** A new system whose reclaimer queue holds two pages, stamped with the
    readings [1699999999.0] and [1700000000.0000002], at the time
    [1700000000.0010002].  The literals are the floats these decimals
    denote. *)
Definition two_readings : State :=
  with_rcu_queue [(0x1.954fc3fcp+30%float, 7%nat); (0x1.954fc40000001p+30%float, 8%nat)]
    (with_clock 0x1.954fc40001063p+30%float CortenMMSystem_new).

(* ===================================================================== *)
(** ** Sequences of calls *)
(* ===================================================================== *)

(** What a caller can do with the cursor inside one scope. *)
Inductive cursor_op :=
  | CQuery (vaddr : Z)
  | CMap (vaddr pfn' : Z) (writable : bool)
  | CMark (s : Status) (perm : Z)
  | CUnmap (vaddr : Z)
  | CUnmapRange.

Definition run_cursor_op (c : RCursor) (o : cursor_op) : M unit :=
  match o with
  | CQuery vaddr => let* _ := RCursor_query c vaddr in ret tt
  | CMap vaddr pfn' writable => RCursor_map c vaddr pfn' writable
  | CMark s perm => RCursor_mark c s perm
  | CUnmap vaddr => RCursor_unmap c vaddr
  | CUnmapRange => RCursor_unmap_range c
  end.

Fixpoint run_cursor_ops (c : RCursor) (os : list cursor_op) : M unit :=
  match os with
  | [] => ret tt
  | o :: os' => let* _ := run_cursor_op c o in run_cursor_ops c os'
  end.

(** The public operations, and time passing between them. *)
Inductive operation :=
  | Mmap (vaddr length prot : Z)
  | Munmap (vaddr length : Z)
  | PageFault (vaddr : Z) (is_write : bool)
  | ForkCow (vaddr length : Z)
  | Scope (vstart vend : Z) (deep : bool) (body : list cursor_op)
  | Tick (dt : float).

Definition run_operation (o : operation) : M unit :=
  match o with
  | Mmap vaddr length prot => let* _ := do_syscall_mmap vaddr length prot in ret tt
  | Munmap vaddr length => let* _ := do_syscall_munmap vaddr length in ret tt
  | PageFault vaddr is_write => let* _ := handle_page_fault vaddr is_write in ret tt
  | ForkCow vaddr length => let* _ := do_fork_cow vaddr length in ret tt
  | Scope vstart vend deep body =>
      AddrSpace_lock vstart vend deep (fun c => run_cursor_ops c body)
  | Tick dt => modify (advance_clock dt)
  end.

(** Running the operations one after the other.  An exception that leaves
    a scope reaches the caller, who goes on with the next operation; [None]
    when a call never returns. *)
Fixpoint run_operations (os : list operation) (st : State) : option State :=
  match os with
  | [] => Some st
  | o :: os' =>
      match run_operation o st with
      | Ok _ st' => run_operations os' st'
      | Raise _ st' => run_operations os' st'
      | Blocked => None
      end
  end.

(** The statuses under which an entry may have a present PTE. *)
Definition live_status (s : Status) : Prop :=
  s = Mapped \/ s = COW \/ s = PrivateAnon.

Definition cursor_op_ok (o : cursor_op) : Prop :=
  match o with
  | CMark s _ => live_status s
  | _ => True
  end.

Definition operation_ok (o : operation) : Prop :=
  match o with
  | Scope _ _ _ body => Forall cursor_op_ok body
  | _ => True
  end.

(* ===================================================================== *)
(** ** Invariants of the page-table tree *)
(* ===================================================================== *)

Definition entry_ok (e : PTE) (m : PTEMetadata) : Prop :=
  present e = true -> live_status (status m).

Definition children_ok (pages : list PageTablePage) (pg : PageTablePage) : Prop :=
  forall j c, children pg !! j = Some (Some c) ->
    exists cpg, pages !! c = Some cpg /\ level cpg = level pg - 1.

(** A page has its 512 entries and child slots, is live, its entries are
    consistent, and each child is one level down. *)
Record page_inv (pages : list PageTablePage) (pg : PageTablePage) : Prop := mk_page_inv {
  pi_ptes : length (ptes pg) = 512%nat;
  pi_children : length (children pg) = 512%nat;
  pi_stale : is_stale (descriptor pg) = false;
  pi_entries : Forall2 entry_ok (ptes pg) (per_pte_metadata (descriptor pg));
  pi_links : children_ok pages pg
}.

(** The tree of a four-level address space; [held] is the leaf whose
    descriptor lock a cursor holds, if any, and no other lock is held. *)
Record tree_inv (held : option nat) (st : State) : Prop := mk_tree_inv {
  ti_levels : levels st = 4%nat;
  ti_root : exists rpg, store st !! root st = Some rpg /\ level rpg = 3;
  ti_pages : forall p pg, store st !! p = Some pg -> page_inv (store st) pg;
  ti_locks : forall p pg, store st !! p = Some pg ->
             lock (descriptor pg) = bool_decide (held = Some p);
  ti_held : forall lf, held = Some lf ->
            exists pg, store st !! lf = Some pg /\ level pg = 0
}.

Definition mutexes_free (st : State) : Prop :=
  rcu_lock st = false /\ structure_lock st = false /\ pfn_lock st = false.

Definition inv (held : option nat) (st : State) : Prop :=
  tree_inv held st /\ mutexes_free st.

(** Every frame number stored in a PTE is below [b]; with [b] the
    allocator's counter: every frame in use was handed out by it. *)
Definition frames_below (b : Z) (pg : PageTablePage) : Prop :=
  Forall (fun e => forall F, pfn e = Some F -> F < b) (ptes pg).

Definition frames_issued (st : State) : Prop :=
  Forall (frames_below (next_pfn st)) (store st).

Definition sys_inv (held : option nat) (st : State) : Prop :=
  inv held st /\ frames_issued st.

(** The operations that go through the system-call layer, where frames
    come from the allocator only. *)
Definition system_call (o : operation) : Prop :=
  match o with
  | Scope _ _ _ _ => False
  | _ => True
  end.

(** [m] returns or raises, and keeps [P]. *)
Definition preserves {A} (P : State -> Prop) (m : M A) : Prop :=
  forall st, P st ->
    match m st with
    | Ok _ st' => P st'
    | Raise _ st' => P st'
    | Blocked => False
    end.

(** The leaf of [vaddr] exists with its 512 entries, is live and unlocked,
    and the reclaimer and allocator mutexes are free: a fault or a system
    call on [vaddr] can take its cursor. *)
Record leaf_ready (st : State) (vaddr : Z) (lf : nat) (pg : PageTablePage) : Prop :=
  mk_leaf_ready {
    lr_leaf : leaf_of st vaddr = Some lf;
    lr_page : store st !! lf = Some pg;
    lr_level : level pg = 0;
    lr_ptes : length (ptes pg) = 512%nat;
    lr_meta : length (per_pte_metadata (descriptor pg)) = 512%nat;
    lr_lock : lock (descriptor pg) = false;
    lr_stale : is_stale (descriptor pg) = false;
    lr_rcu : rcu_lock st = false;
    lr_pfn : pfn_lock st = false
  }.

(** A change of one page that leaves its shape, lock and stale flag alone
    and keeps its entries consistent. *)
Record page_step (F : PageTablePage -> PageTablePage) : Prop := mk_page_step {
  ps_children : forall pg, children (F pg) = children pg;
  ps_level : forall pg, level (F pg) = level pg;
  ps_lock : forall pg, lock (descriptor (F pg)) = lock (descriptor pg);
  ps_stale : forall pg, is_stale (descriptor (F pg)) = is_stale (descriptor pg);
  ps_ptes : forall pg, length (ptes (F pg)) = length (ptes pg);
  ps_meta : forall pg, length (per_pte_metadata (descriptor (F pg)))
                       = length (per_pte_metadata (descriptor pg));
  ps_entries : forall pg,
    Forall2 entry_ok (ptes pg) (per_pte_metadata (descriptor pg)) ->
    Forall2 entry_ok (ptes (F pg)) (per_pte_metadata (descriptor (F pg)))
}.

(** Existing child references survive, and the other components of the
    state are untouched. *)
Definition links_kept (st st' : State) : Prop :=
  forall p pg j c, store st !! p = Some pg -> children pg !! j = Some (Some c) ->
    exists pg', store st' !! p = Some pg' /\ children pg' !! j = Some (Some c).

Definition same_frame (st st' : State) : Prop :=
  root st' = root st /\ levels st' = levels st /\ rcu_lock st' = rcu_lock st /\
  structure_lock st' = structure_lock st /\ pfn_lock st' = pfn_lock st.

(** The state in which [lf]'s descriptor lock has been taken, and the one
    a scope holding only [lf] leaves behind. *)
Definition locked_state (lf : nat) (st : State) : State :=
  with_store (alter (set_descriptor (set_lock true)) lf) st.

Definition exit_state (lf : nat) (st : State) : State :=
  with_rcu_lock false
    (with_rcu_queue (reclaim_loop (clock st) grace_period (rcu_queue st))
       (with_rcu_lock true
          (with_store (alter (set_descriptor (set_lock false)) lf) st))).

(** The page after [RCursor.map], and after [RCursor.unmap], has written
    entry [i]. *)
Definition mapped_page (i pfn' : Z) (writable : bool) (pg : PageTablePage)
  : PageTablePage :=
  set_descriptor increment_version
    (update_metadata i (map_metadata writable) (update_pte i (map_pte pfn' writable) pg)).

Definition unmapped_page (i : Z) (pg : PageTablePage) : PageTablePage :=
  set_descriptor increment_version
    (update_metadata i unmap_metadata (update_pte i PTE_clear pg)).

(** Split a conjunction into its parts without touching the parts. *)
Ltac split_all := repeat match goal with |- _ /\ _ => split end.

(** Unfold the entry accessors and read through the updates. *)
Ltac entry_simp :=
  unfold get_metadata, get_pte, mapped_page, unmapped_page, update_metadata, update_pte,
    set_descriptor, set_metadata, set_ptes, increment_version, set_lock in *;
  cbn [ptes descriptor per_pte_metadata children level lock is_stale version] in *;
  repeat rewrite list_lookup_total_alter_eq by (rewrite ?length_alter; lia);
  cbn [status soft_perm refcount file_offset pfn present rw user accessed dirty
       cow_metadata map_metadata map_pte PTE_set_rw unmap_metadata PTE_clear
       mark_metadata set_status set_refcount] in *.

(* ===================================================================== *)
(** ** Further notions used by the properties below *)
(* ===================================================================== *)

(** [m] never raises, in whatever state it is started. *)
Definition never_raises {A} (m : M A) : Prop :=
  forall st, match m st with Raise _ _ => False | _ => True end.

(** Whenever [m] comes back, by returning or by raising, the state it
    leaves is related to the one it started in. *)
Definition relates {A} (R : State -> State -> Prop) (m : M A) : Prop :=
  forall st,
    match m st with
    | Ok _ st' => R st st'
    | Raise _ st' => R st st'
    | Blocked => True
    end.

(** The allocator counter and the refcount map are as they were. *)
Definition same_counters (st st' : State) : Prop :=
  next_pfn st' = next_pfn st /\ cow_refcounts st' = cow_refcounts st.

(** Every page that existed has the PTEs it had, and every page created
    since has blank PTEs. *)
Definition ptes_kept (st st' : State) : Prop :=
  (forall p pg, store st !! p = Some pg ->
     exists pg', store st' !! p = Some pg' /\ ptes pg' = ptes pg) /\
  (forall p pg', store st' !! p = Some pg' -> store st !! p = None ->
     ptes pg' = replicate 512 PTE_new).

Definition lazily (st st' : State) : Prop :=
  same_counters st st' /\ ptes_kept st st'.

(** The page that the loop [while vaddr < vend: ...; vaddr += 4096] leaves
    behind when each round applies [G] at the leaf index of its address to
    one and the same page. *)
Fixpoint iter_pages (G : Z -> PageTablePage -> PageTablePage) (n : nat)
    (vaddr vend : Z) (pg : PageTablePage) : PageTablePage :=
  match n with
  | O => pg
  | S n' =>
      if vaddr <? vend
      then iter_pages G n' (vaddr + 4096) vend (G (leaf_index vaddr) pg)
      else pg
  end.

(** What one round of [RCursor.mark] and of [RCursor.unmap_range] does to
    the leaf. *)
Definition marked_page (s : Status) (perm : Z) (i : Z) (pg : PageTablePage)
  : PageTablePage :=
  set_descriptor increment_version (update_metadata i (mark_metadata s perm) pg).

Definition unmapped_if_valid (i : Z) (pg : PageTablePage) : PageTablePage :=
  if bool_decide (status (get_metadata pg i) <> Invalid) then unmapped_page i pg else pg.

(* ===================================================================== *)
(** ** benchmarks/linux_mock.py *)
(* ===================================================================== *)

(** The VMA-based model the benchmarks compare against: one global mutex,
    a list of areas kept sorted by start address, and a dictionary from
    page addresses to PTEs.  A call that finds [mmap_lock] or [pfn_lock]
    held waits for ever and has no result; no call raises. *)
Module LinuxMock.

(** [class VMA]; [end] is a keyword, so the field is [end_]. *)
Record VMA := mkVMA {
  start : Z;
  end_ : Z;
  prot : Z;
  flags : Z
}.

(** [VMA.contains]. *)
Definition contains (vma : VMA) (vaddr : Z) : bool :=
  (start vma <=? vaddr) && (vaddr <? end_ vma).

(** [class SimplePTE]. *)
Record SimplePTE := mkSimplePTE {
  pfn : option Z;
  present : bool;
  rw : bool
}.

Definition SimplePTE_clear (e : SimplePTE) : SimplePTE := mkSimplePTE None false false.

Definition SimplePTE_is_valid (e : SimplePTE) : bool :=
  present e && bool_decide (pfn e <> None).

(** [class LinuxMock]. *)
Record Mock := mkMock {
  mmap_lock : bool;
  vmas : list VMA;
  page_table : gmap Z SimplePTE;
  next_pfn : Z;
  pfn_lock : bool;
  cow_refcounts : gmap Z Z
}.

(** [LinuxMock()]. *)
Definition new : Mock := mkMock false [] ∅ 0x1000 false ∅.

Definition with_vmas (l : list VMA) (m : Mock) : Mock :=
  mkMock (mmap_lock m) l (page_table m) (next_pfn m) (pfn_lock m) (cow_refcounts m).
Definition with_page_table (t : gmap Z SimplePTE) (m : Mock) : Mock :=
  mkMock (mmap_lock m) (vmas m) t (next_pfn m) (pfn_lock m) (cow_refcounts m).
Definition with_next_pfn (n : Z) (m : Mock) : Mock :=
  mkMock (mmap_lock m) (vmas m) (page_table m) n (pfn_lock m) (cow_refcounts m).
Definition with_cow_refcounts (c : gmap Z Z) (m : Mock) : Mock :=
  mkMock (mmap_lock m) (vmas m) (page_table m) (next_pfn m) (pfn_lock m) c.

(** [LinuxMock.allocate_pfn]. *)
Definition allocate_pfn (m : Mock) : option (Z * Mock) :=
  if pfn_lock m then None
  else Some (next_pfn m, with_next_pfn (next_pfn m + 1) m).

(** The test of the overlap loop of [do_mmap] for one area. *)
Definition overlaps (vaddr vaddr_end : Z) (vma : VMA) : bool :=
  negb ((vaddr_end <=? start vma) || (vaddr >=? end_ vma)).

(** [self.vmas.sort(key=lambda v: v.start)].  Python's sort is stable, so
    the result is the one of any stable sort: here insertion, from the
    right, of each area in front of the first one that does not start
    before it. *)
Fixpoint insert_by_start (x : VMA) (l : list VMA) : list VMA :=
  match l with
  | [] => [x]
  | y :: l' => if start x <=? start y then x :: y :: l' else y :: insert_by_start x l'
  end.

Definition sort_by_start (l : list VMA) : list VMA := foldr insert_by_start [] l.

(** [LinuxMock.do_mmap]. *)
Definition do_mmap (vaddr length prot : Z) (m : Mock) : option (Z * Mock) :=
  let vaddr := Z.land vaddr (Z.lnot 0xFFF) in
  let vaddr_end := Z.land (vaddr + length + 0xFFF) (Z.lnot 0xFFF) in
  if mmap_lock m then None
  else if existsb (overlaps vaddr vaddr_end) (vmas m) then Some (-1, m)
  else Some (vaddr, with_vmas (sort_by_start (vmas m ++ [mkVMA vaddr vaddr_end prot 0])) m).

(** The page loop of [do_munmap]. *)
Fixpoint clear_pages (n : nat) (current vaddr_end : Z) (t : gmap Z SimplePTE)
  : gmap Z SimplePTE :=
  match n with
  | O => t
  | S n' =>
      if current <? vaddr_end
      then clear_pages n' (current + 0x1000) vaddr_end
             (match t !! current with
              | Some _ => delete current t
              | None => t
              end)
      else t
  end.

(** [LinuxMock.do_munmap]. *)
Definition do_munmap (vaddr length : Z) (m : Mock) : option (Z * Mock) :=
  let vaddr := Z.land vaddr (Z.lnot 0xFFF) in
  let vaddr_end := Z.land (vaddr + length + 0xFFF) (Z.lnot 0xFFF) in
  if mmap_lock m then None
  else
    let kept := List.filter
                  (fun vma => negb ((start vma >=? vaddr) && (end_ vma <=? vaddr_end)))
                  (vmas m) in
    Some (0, with_page_table
               (clear_pages (page_count vaddr vaddr_end) vaddr vaddr_end (page_table m))
               (with_vmas kept m)).

(** [LinuxMock.handle_page_fault]. *)
Definition handle_page_fault (vaddr : Z) (is_write : bool) (m : Mock)
  : option (bool * Mock) :=
  let vaddr_page := Z.land vaddr (Z.lnot 0xFFF) in
  if mmap_lock m then None
  else
    match List.find (fun v => contains v vaddr) (vmas m) with
    | None => Some (false, m)
    | Some vma =>
        match page_table m !! vaddr_page with
        | None =>
            match allocate_pfn m with
            | None => None
            | Some (pfn', m') =>
                let pte := mkSimplePTE (Some pfn') true (negb (Z.land (prot vma) 2 =? 0)) in
                Some (true, with_page_table (<[vaddr_page := pte]> (page_table m')) m')
            end
        | Some pte =>
            if is_write && negb (rw pte) then Some (false, m) else Some (true, m)
        end
    end.

(** The page loop of [do_fork_cow]. *)
Fixpoint fork_pages (n : nat) (current vaddr_end : Z) (m : Mock) : Mock :=
  match n with
  | O => m
  | S n' =>
      if current <? vaddr_end
      then fork_pages n' (current + 0x1000) vaddr_end
             (match page_table m !! current with
              | Some pte =>
                  if SimplePTE_is_valid pte
                  then
                    match pfn pte with
                    | Some frame =>
                        with_cow_refcounts
                          (<[frame := default 1 (cow_refcounts m !! frame) + 1]>
                             (cow_refcounts m))
                          (with_page_table
                             (<[current := mkSimplePTE (pfn pte) (present pte) false]>
                                (page_table m)) m)
                    | None => m
                    end
                  else m
              | None => m
              end)
      else m
  end.

(** [LinuxMock.do_fork_cow]. *)
Definition do_fork_cow (vaddr length : Z) (m : Mock) : option (bool * Mock) :=
  let vaddr := Z.land vaddr (Z.lnot 0xFFF) in
  let vaddr_end := Z.land (vaddr + length + 0xFFF) (Z.lnot 0xFFF) in
  if mmap_lock m then None
  else Some (true, fork_pages (page_count vaddr vaddr_end) vaddr vaddr_end m).

(** The calls of one benchmark run. *)
Inductive call :=
  | Mmap (vaddr length prot : Z)
  | Munmap (vaddr length : Z)
  | PageFault (vaddr : Z) (is_write : bool)
  | ForkCow (vaddr length : Z).

Definition run_call (c : call) (m : Mock) : option Mock :=
  match c with
  | Mmap vaddr length prot => snd <$> do_mmap vaddr length prot m
  | Munmap vaddr length => snd <$> do_munmap vaddr length m
  | PageFault vaddr is_write => snd <$> handle_page_fault vaddr is_write m
  | ForkCow vaddr length => snd <$> do_fork_cow vaddr length m
  end.

Fixpoint run_calls (cs : list call) (m : Mock) : option Mock :=
  match cs with
  | [] => Some m
  | c :: cs' =>
      match run_call c m with
      | Some m' => run_calls cs' m'
      | None => None
      end
  end.

End LinuxMock.

(** The areas are in order of their start addresses, and no two of them
    share an address. *)
Definition disjoint (x y : LinuxMock.VMA) : Prop :=
  LinuxMock.end_ x <= LinuxMock.start y \/ LinuxMock.end_ y <= LinuxMock.start x.

Fixpoint sorted_by_start (l : list LinuxMock.VMA) : Prop :=
  match l with
  | [] => True
  | x :: l' =>
      Forall (fun y => LinuxMock.start x <= LinuxMock.start y) l' /\ sorted_by_start l'
  end.

Fixpoint pairwise_disjoint (l : list LinuxMock.VMA) : Prop :=
  match l with
  | [] => True
  | x :: l' => Forall (disjoint x) l' /\ pairwise_disjoint l'
  end.

(** No frame is held by two PTEs, and a page change that adds no frame:
    every PTE of the new page has no frame or the frame it had. *)
Definition frames_distinct (st : State) : Prop :=
  forall p q pg pg' i j e e' F,
    store st !! p = Some pg -> store st !! q = Some pg' ->
    ptes pg !! i = Some e -> ptes pg' !! j = Some e' ->
    pfn e = Some F -> pfn e' = Some F ->
    p = q /\ i = j.

Definition frames_shrink (G : PageTablePage -> PageTablePage) : Prop :=
  forall pg i e', ptes (G pg) !! i = Some e' ->
    exists e, ptes pg !! i = Some e /\ (pfn e' = None \/ pfn e' = pfn e).

Definition frame_inv (held : option nat) (st : State) : Prop :=
  sys_inv held st /\ frames_distinct st.

(* ===================================================================== *)
(** ** Address arithmetic *)
(* ===================================================================== *)

Section AddressArithmetic.

Lemma lor_shiftl_low (a b : Z) (k : Z) :
  0 <= k -> 0 <= b < 2 ^ k -> Z.lor (Z.shiftl a k) b = a * 2 ^ k + b.
Proof.
  intros Hk Hb.
  rewrite Z.shiftl_mul_pow2 by lia.
  rewrite <- Z.lxor_lor.
  - symmetry. apply Z.add_nocarry_lxor.
    apply Z.bits_inj'. intros n Hn.
    rewrite Z.land_spec, Z.bits_0.
    destruct (Z.lt_ge_cases n k) as [Hlt | Hge].
    + rewrite Z.mul_pow2_bits_low by lia. reflexivity.
    + assert (Z.testbit b n = false) as ->; [| apply andb_false_r].
      destruct (Z.eq_dec b 0) as [-> | Hnz]; [apply Z.bits_0 |].
      apply Z.bits_above_log2; [lia |].
      apply Z.lt_le_trans with k; [| lia].
      apply Z.log2_lt_pow2; lia.
  - apply Z.bits_inj'. intros n Hn.
    rewrite Z.land_spec, Z.bits_0.
    destruct (Z.lt_ge_cases n k) as [Hlt | Hge].
    + rewrite Z.mul_pow2_bits_low by lia. reflexivity.
    + assert (Z.testbit b n = false) as ->; [| apply andb_false_r].
      destruct (Z.eq_dec b 0) as [-> | Hnz]; [apply Z.bits_0 |].
      apply Z.bits_above_log2; [lia |].
      apply Z.lt_le_trans with k; [| lia].
      apply Z.log2_lt_pow2; lia.
Qed.

Lemma land_0x1FF (x : Z) : Z.land x 0x1FF = x mod 512.
Proof. change 0x1FF with (Z.ones 9). rewrite Z.land_ones by lia. reflexivity. Qed.

Lemma shiftr_9 (x : Z) : Z.shiftr x 9 = x / 512.
Proof. rewrite Z.shiftr_div_pow2 by lia. reflexivity. Qed.

Lemma parse_loop_acc (n : nat) (vpn : Z) (acc : list Z) :
  parse_loop n vpn acc = acc ++ parse_loop n vpn [].
Proof.
  revert vpn acc. induction n as [| n IH]; intros vpn acc; simpl.
  - by rewrite app_nil_r.
  - rewrite (IH _ (acc ++ _)), (IH _ [_]). by rewrite <- app_assoc.
Qed.

Lemma parse_loop_length (n : nat) (vpn : Z) (acc : list Z) :
  length (parse_loop n vpn acc) = (length acc + n)%nat.
Proof.
  revert vpn acc. induction n as [| n IH]; intros vpn acc; simpl; [lia |].
  rewrite IH, length_app. simpl. lia.
Qed.

(** Folding the groups back, lowest group innermost, rebuilds the page
    number modulo [512 ^ n]. *)
Lemma join_parse_loop (n : nat) (vpn : Z) :
  fold_right (fun idx v => Z.lor (Z.shiftl v 9) idx) 0 (parse_loop n vpn [])
  = vpn mod 512 ^ Z.of_nat n.
Proof.
  revert vpn. induction n as [| n IH]; intros vpn.
  - simpl. by rewrite Z.mod_1_r.
  - cbn [parse_loop app]. rewrite parse_loop_acc. cbn [app fold_right].
    rewrite IH, land_0x1FF, shiftr_9.
    rewrite lor_shiftl_low by (try apply Z.mod_pos_bound; lia).
    rewrite Nat2Z.inj_succ, Z.pow_succ_r by lia.
    change (2 ^ 9) with 512.
    rewrite Z.rem_mul_r by lia. lia.
Qed.

End AddressArithmetic.

(** The groups produced by [parse_vaddr] are array indices. *)
Lemma parse_loop_range (n : nat) (vpn : Z) (acc : list Z) :
  Forall (fun i => 0 <= i < 512) acc ->
  Forall (fun i => 0 <= i < 512) (parse_loop n vpn acc).
Proof.
  revert vpn acc. induction n as [| n IH]; intros vpn acc Hacc; simpl; [done |].
  apply IH. apply Forall_app. split; [done |].
  constructor; [| constructor].
  rewrite land_0x1FF. apply Z.mod_pos_bound. lia.
Qed.

Lemma parse_vaddr_range (vaddr : Z) (levels : nat) :
  Forall (fun i => 0 <= i < 512) (parse_vaddr vaddr levels).
Proof.
  unfold parse_vaddr. apply Forall_rev.
  apply parse_loop_range. constructor.
Qed.

(** [parse_vaddr] ignores the offset within the page. *)
Lemma shiftr_12_page_align (vaddr : Z) :
  Z.shiftr (Z.land vaddr (Z.lnot 0xFFF)) 12 = Z.shiftr vaddr 12.
Proof.
  apply Z.bits_inj'. intros n Hn.
  rewrite !Z.shiftr_spec, Z.land_spec by lia.
  change 0xFFF with (Z.ones 12).
  rewrite Z.lnot_spec by lia.
  rewrite Z.ones_spec_high by lia. simpl. apply andb_true_r.
Qed.

Lemma parse_vaddr_page_align (vaddr : Z) (lv : nat) :
  parse_vaddr (Z.land vaddr (Z.lnot 0xFFF)) lv = parse_vaddr vaddr lv.
Proof. unfold parse_vaddr. by rewrite shiftr_12_page_align. Qed.

Lemma roundtrip_levels (vaddr : Z) (lv : nat) :
  0 <= vaddr < 512 ^ Z.of_nat lv * 4096 ->
  make_vaddr (parse_vaddr vaddr lv) (vaddr mod 4096) = vaddr.
Proof.
  intros Hv. unfold make_vaddr, parse_vaddr.
  rewrite <- (fold_left_rev_right (fun idx v => Z.lor (Z.shiftl v 9) idx)).
  rewrite rev_involutive, join_parse_loop.
  rewrite Z.shiftr_div_pow2 by lia. change (2 ^ 12) with 4096.
  assert (0 < 512 ^ Z.of_nat lv) by (apply Z.pow_pos_nonneg; lia).
  rewrite Z.mod_small.
  - rewrite lor_shiftl_low; [| lia | change (2 ^ 12) with 4096; apply Z.mod_pos_bound; lia].
    change (2 ^ 12) with 4096.
    pose proof (Z.div_mod vaddr 4096). lia.
  - split; [apply Z.div_pos; lia |].
    apply Z.div_lt_upper_bound; lia.
Qed.


Lemma div_mod_digit (q r m : Z) :
  0 <= r < m -> (q * m + r) / m = q /\ (q * m + r) mod m = r.
Proof.
  intros Hr. split.
  - rewrite Z.div_add_l by lia. rewrite Z.div_small by lia. lia.
  - rewrite Z.add_comm, Z.mod_add by lia. apply Z.mod_small. lia.
Qed.

(** The other direction: the groups and the offset are read back from the
    joined address. *)
Lemma parse_vaddr_make_vaddr (a b c d offset : Z) :
  0 <= a < 512 -> 0 <= b < 512 -> 0 <= c < 512 -> 0 <= d < 512 ->
  0 <= offset < 4096 ->
  parse_vaddr (make_vaddr [a; b; c; d] offset) 4 = [a; b; c; d] /\
  make_vaddr [a; b; c; d] offset mod 4096 = offset.
Proof.
  intros Ha Hb Hc Hd Hoff. unfold make_vaddr. cbn [fold_left].
  rewrite !lor_shiftl_low by (change (2 ^ 9) with 512; change (2 ^ 12) with 4096; lia).
  change (2 ^ 9) with 512. change (2 ^ 12) with 4096. rewrite Z.mul_0_l, Z.add_0_l.
  set (v3 := a). set (v2 := v3 * 512 + b). set (v1 := v2 * 512 + c).
  set (v0 := v1 * 512 + d).
  destruct (div_mod_digit v0 offset 4096 Hoff) as [Hdiv Hmod].
  split; [| exact Hmod].
  unfold parse_vaddr. cbn [parse_loop app rev].
  rewrite !land_0x1FF, !shiftr_9, Z.shiftr_div_pow2 by lia.
  change (2 ^ 12) with 4096. rewrite Hdiv.
  destruct (div_mod_digit v1 d 512 Hd) as [Hd1 Hd2].
  destruct (div_mod_digit v2 c 512 Hc) as [Hc1 Hc2].
  destruct (div_mod_digit v3 b 512 Hb) as [Hb1 Hb2].
  fold v0 in Hd1, Hd2. fold v1 in Hc1, Hc2. fold v2 in Hb1, Hb2.
  rewrite Hd2, Hd1, Hc2, Hc1, Hb2, Hb1.
  unfold v3. by rewrite Z.mod_small by lia.
Qed.

(* ===================================================================== *)
(** ** Claims about [core.py] *)
(* ===================================================================== *)

(** C5, as stated, fails: clearing a freshly constructed PTE leaves its
    user bit set, so not every field is zeroed. *)
Lemma PTE_clear_user_not_zeroed :
  PTE_clear PTE_new <> mkPTE None false false false false false.
Proof. discriminate. Qed.

(** C5, amended: after [clear()] the frame number is unset and the present,
    rw, accessed and dirty bits are false; the user bit keeps the value it
    had before the call. *)
Theorem PTE_clear_fields (e : PTE) :
  pfn (PTE_clear e) = None /\ present (PTE_clear e) = false /\
  rw (PTE_clear e) = false /\ accessed (PTE_clear e) = false /\
  dirty (PTE_clear e) = false /\ user (PTE_clear e) = user e /\
  PTE_is_valid (PTE_clear e) = false.
Proof. repeat split. Qed.

(** C8: for [0 <= vaddr < 512^4 * 4096], joining the four groups of
    [parse_vaddr] with the page offset gives [vaddr] back; the groups are
    the 9-bit fields above the low 12 bits, highest first. *)
Theorem make_vaddr_parse_vaddr (vaddr : Z) :
  0 <= vaddr < 512 ^ 4 * 4096 ->
  make_vaddr (parse_vaddr vaddr 4) (vaddr mod 4096) = vaddr /\
  parse_vaddr vaddr 4 =
    [Z.land (Z.shiftr vaddr 39) 0x1FF; Z.land (Z.shiftr vaddr 30) 0x1FF;
     Z.land (Z.shiftr vaddr 21) 0x1FF; Z.land (Z.shiftr vaddr 12) 0x1FF].
Proof.
  intros Hv. split.
  - apply (roundtrip_levels vaddr 4). exact Hv.
  - unfold parse_vaddr. cbn [parse_loop app rev].
    rewrite !Z.shiftr_shiftr by lia. reflexivity.
Qed.

Lemma make_vaddr_parse_vaddr_witness :
  0 <= 0xDEAD123 < 512 ^ 4 * 4096 /\
  make_vaddr (parse_vaddr 0xDEAD123 4) (0xDEAD123 mod 4096) = 0xDEAD123.
Proof.
  split; [lia |].
  apply (make_vaddr_parse_vaddr 0xDEAD123). lia.
Defined.

(* ===================================================================== *)
(** ** Basic facts about the state and the control operators *)
(* ===================================================================== *)

Lemma structure_lock_restore (st : State) :
  structure_lock st = false ->
  with_structure_lock false (with_structure_lock true st) = st.
Proof. destruct st; simpl; intros ->; reflexivity. Qed.

Lemma rcu_lock_restore (st : State) :
  rcu_lock st = false -> with_rcu_lock false (with_rcu_lock true st) = st.
Proof. destruct st; simpl; intros ->; reflexivity. Qed.

Lemma pfn_lock_restore (st : State) :
  pfn_lock st = false -> with_pfn_lock false (with_pfn_lock true st) = st.
Proof. destruct st; simpl; intros ->; reflexivity. Qed.

Lemma descend_app (pages : list PageTablePage) (p : nat) (l1 l2 : list Z) :
  descend pages p (l1 ++ l2) =
  match descend pages p l1 with
  | Some q => descend pages q l2
  | None => None
  end.
Proof.
  revert p. induction l1 as [| x l1 IH]; intros p; simpl; [done |].
  destruct (get_child (pages !!! p) x); [apply IH | done].
Qed.

(** The descent fails exactly when one child reference on the path is
    absent. *)
Lemma descend_None (pages : list PageTablePage) (p : nat) (l : list Z) :
  descend pages p l = None <->
  exists l1 x l2 q, l = l1 ++ x :: l2 /\ descend pages p l1 = Some q /\
                    get_child (pages !!! q) x = None.
Proof.
  revert p. induction l as [| x l IH]; intros p; simpl.
  - split; [done |]. intros (l1 & y & l2 & q & Hl & _). by destruct l1.
  - destruct (get_child (pages !!! p) x) as [c |] eqn:Hc.
    + rewrite IH. split.
      * intros (l1 & y & l2 & q & -> & Hd & Hq).
        exists (x :: l1), y, l2, q. simpl. by rewrite Hc.
      * intros (l1 & y & l2 & q & Hl & Hd & Hq).
        destruct l1 as [| z l1]; simpl in *.
        -- injection Hl as -> ->. injection Hd as ->. congruence.
        -- injection Hl as -> ->. rewrite Hc in Hd. eauto 10.
    + split; [| done]. intros _. exists [], x, l, p. eauto.
Qed.

(* ===================================================================== *)
(** ** Detaching a page-table page *)
(* ===================================================================== *)

(** C10: when the descent from the root towards the page covering [vaddr]
    meets an absent child reference, [remove_page_table] returns and the
    whole state (every page with its child references, PTEs, metadata and
    stale flag, and the reclaimer queue) is as before. *)
Theorem remove_page_table_absent_link (st : State) (vaddr : Z) :
  structure_lock st = false ->
  leaf_of st vaddr = None ->
  remove_page_table vaddr st = Ok tt st.
Proof.
  intros Hfree Habs. unfold leaf_of in Habs.
  unfold remove_page_table, with_mutex. rewrite Hfree.
  assert (unlink_target vaddr (with_structure_lock true st)
          = Ok None (with_structure_lock true st)) as Hunlink.
  { unfold unlink_target, bind, gets. cbn [levels root store with_structure_lock].
    destruct (rev (parse_vaddr vaddr (levels st))) as [| z [| t r]] eqn:Hrev.
    - apply (f_equal (@rev Z)) in Hrev. rewrite rev_involutive in Hrev.
      rewrite Hrev in Habs. discriminate.
    - apply (f_equal (@rev Z)) in Hrev. rewrite rev_involutive in Hrev.
      rewrite Hrev in Habs. discriminate.
    - apply (f_equal (@rev Z)) in Hrev. rewrite rev_involutive in Hrev.
      simpl in Hrev. rewrite Hrev in Habs |- *.
      rewrite removelast_last in Habs |- *. rewrite removelast_last.
      rewrite descend_app in Habs.
      destruct (descend (store st) (root st) (rev r)) as [parent |]; [| done].
      simpl in Habs. unfold deref. cbn [store with_structure_lock].
      destruct (get_child (store st !!! parent) t); [discriminate | done]. }
  unfold finally, bind. rewrite Hunlink. unfold ret, modify.
  by rewrite structure_lock_restore.
Qed.

Lemma remove_page_table_absent_link_witness :
  remove_page_table 0x400000 CortenMMSystem_new = Ok tt CortenMMSystem_new.
Proof. apply remove_page_table_absent_link; reflexivity. Defined.

(** [defer_free] sets the stale flag whatever the state of the page's
    descriptor lock, which it neither takes nor looks at. *)
Lemma defer_free_keeps_lock (st : State) (t : nat) (pg : PageTablePage) :
  rcu_lock st = false ->
  store st !! t = Some pg ->
  exists st',
    defer_free t st = Ok tt st' /\
    store st' !! t = Some (set_descriptor mark_stale pg) /\
    lock (descriptor (set_descriptor mark_stale pg)) = lock (descriptor pg).
Proof.
  intros Hrcu Hpg. unfold defer_free, with_mutex. rewrite Hrcu.
  unfold finally, bind, update_page, modify.
  eexists. split; [reflexivity |]. split; [| reflexivity].
  cbn [store with_store with_rcu_lock with_rcu_queue].
  by rewrite list_lookup_alter_eq, Hpg.
Qed.

(** C6, evaluated on the detach of the leaf of [0x400000]: the block of
    [remove_page_table] that holds the target's descriptor lock ends with
    the lock released and the stale flag still clear; the flag is then set
    by [defer_free], which runs on that state and never takes the lock. *)
Theorem detach_marks_stale_after_release :
  let st0 := with_structure_lock true one_region in
  exists st1 st2,
    unlink_target 0x400000 st0 = Ok (Some 3%nat) st1 /\
    lock (descriptor (deref st1 3)) = false /\
    is_stale (descriptor (deref st1 3)) = false /\
    defer_free 3 st1 = Ok tt st2 /\
    lock (descriptor (deref st2 3)) = false /\
    is_stale (descriptor (deref st2 3)) = true /\
    remove_page_table 0x400000 one_region = Ok tt (with_structure_lock false st2).
Proof.
  eexists (state_after (unlink_target 0x400000) (with_structure_lock true one_region)).
  eexists (state_after (defer_free 3)
             (state_after (unlink_target 0x400000) (with_structure_lock true one_region))).
  split_all; vm_compute; reflexivity.
Qed.

(* ===================================================================== *)
(** ** Locking a range *)
(* ===================================================================== *)

(** C1, evaluated on the range [[0x1FF000, 0x201000)], which spans two
    existing leaves: for either value of [deep] the cursor holds page 3
    only, the leaf of the start address; the leaf of [0x200000] is page 4
    and its descriptor lock is free. *)
Theorem lock_takes_first_leaf_only (deep : bool) :
  exists c st',
    lock_attempts 10 0x1FF000 0x201000 deep two_leaves = Ok c st' /\
    locked_pages c = [3%nat] /\
    leaf_of st' 0x1FF000 = Some 3%nat /\
    leaf_of st' 0x200000 = Some 4%nat /\
    lock (descriptor (deref st' 3)) = true /\
    lock (descriptor (deref st' 4)) = false.
Proof.
  exists (mkCursor 0x1FF000 0x201000 [3%nat] false).
  exists (state_after (lock_attempts 10 0x1FF000 0x201000 deep) two_leaves).
  destruct deep; split_all; vm_compute; reflexivity.
Qed.

(* ===================================================================== *)
(** ** Faults on unmapped addresses *)
(* ===================================================================== *)

(** C4, as stated, fails: after the fault at [0xDEAD000] on a fresh system
    the tree has a leaf for that address, and it had none before. *)
Lemma invalid_access_creates_leaf :
  ~ (exists st',
       handle_page_fault 0xDEAD000 false CortenMMSystem_new = Ok false st' /\
       forall vaddr leaf, leaf_of st' vaddr = Some leaf ->
                          leaf_of CortenMMSystem_new vaddr = Some leaf).
Proof.
  intros (st' & Hrun & Hleaves).
  assert (handle_page_fault 0xDEAD000 false CortenMMSystem_new
          = Ok false (state_after (handle_page_fault 0xDEAD000 false) CortenMMSystem_new))
    as Heval by (vm_compute; reflexivity).
  rewrite Heval in Hrun. injection Hrun as <-.
  specialize (Hleaves 0xDEAD000 3%nat).
  assert (leaf_of CortenMMSystem_new 0xDEAD000 = Some 3%nat) as Hbefore
    by (apply Hleaves; vm_compute; reflexivity).
  vm_compute in Hbefore. discriminate.
Qed.

(** C4, amended: on a fresh system [handle_page_fault(0xDEAD000, false)]
    returns false, hands out no frame and leaves every entry Invalid with a
    cleared PTE; taking the cursor does create the page-table pages on the
    path to the address, one per level below the root, the last being a
    blank leaf. *)
Theorem invalid_access_fresh :
  exists st',
    handle_page_fault 0xDEAD000 false CortenMMSystem_new = Ok false st' /\
    leaf_of CortenMMSystem_new 0xDEAD000 = None /\
    leaf_of st' 0xDEAD000 = Some 3%nat /\
    store st' =
      [set_child 0 (Some 1%nat) (PageTablePage_new 3);
       set_child 0 (Some 2%nat) (PageTablePage_new 2);
       set_child 111 (Some 3%nat) (PageTablePage_new 1);
       PageTablePage_new 0] /\
    next_pfn st' = next_pfn CortenMMSystem_new /\
    cow_refcounts st' = cow_refcounts CortenMMSystem_new.
Proof.
  exists (state_after (handle_page_fault 0xDEAD000 false) CortenMMSystem_new).
  split_all; vm_compute; reflexivity.
Qed.

(* ===================================================================== *)
(** ** Entering and leaving a cursor scope *)
(* ===================================================================== *)

Lemma alter_alter {A} (f g : A -> A) (i : nat) (l : list A) :
  alter f i (alter g i l) = alter (fun x => f (g x)) i l.
Proof.
  revert i. induction l as [| x l IH]; intros [| i]; simpl; try done.
  f_equal. apply IH.
Qed.

Lemma alter_fixed {A} (f : A -> A) (i : nat) (l : list A) (x : A) :
  l !! i = Some x -> f x = x -> alter f i l = l.
Proof.
  revert i. induction l as [| y l IH]; intros [| i] Hl Hf; simpl in *; try done.
  - injection Hl as ->. by rewrite Hf.
  - f_equal. by apply IH.
Qed.

Lemma deref_lookup (st : State) (p : nat) (pg : PageTablePage) :
  store st !! p = Some pg -> deref st p = pg.
Proof. intros H. unfold deref. by apply list_lookup_total_correct. Qed.

Lemma lookup_total_lookup (pages : list PageTablePage) (p : nat) (pg : PageTablePage) :
  pages !! p = Some pg -> pages !!! p = pg.
Proof. apply list_lookup_total_correct. Qed.

Lemma bind_ok {A B} (m : M A) (k : A -> M B) (st st' : State) (a : A) :
  m st = Ok a st' -> bind m k st = k a st'.
Proof. unfold bind. by intros ->. Qed.

Lemma lock_acquire_free (st : State) (lf : nat) (pg : PageTablePage) :
  store st !! lf = Some pg ->
  lock (descriptor pg) = false ->
  lock_acquire lf st = Ok tt (locked_state lf st).
Proof.
  intros Hpg Hlock. unfold lock_acquire.
  by rewrite (deref_lookup _ _ _ Hpg), Hlock.
Qed.

Lemma lock_release_held (st : State) (lf : nat) (pg : PageTablePage) :
  store st !! lf = Some pg ->
  lock (descriptor pg) = true ->
  lock_release lf st
  = Ok tt (with_store (alter (set_descriptor (set_lock false)) lf) st).
Proof.
  intros Hpg Hlock. unfold lock_release.
  by rewrite (deref_lookup _ _ _ Hpg), Hlock.
Qed.

Lemma store_alter_lookup (st : State) (f : PageTablePage -> PageTablePage)
    (p : nat) (pg : PageTablePage) :
  store st !! p = Some pg ->
  store (with_store (alter f p) st) !! p = Some (f pg).
Proof.
  intros Hpg. cbn [store with_store].
  by rewrite list_lookup_alter_eq, Hpg.
Qed.

Lemma store_alter_lookup_ne (st : State) (f : PageTablePage -> PageTablePage)
    (p q : nat) :
  p <> q ->
  store (with_store (alter f p) st) !! q = store st !! q.
Proof. intros Hne. cbn [store with_store]. by apply list_lookup_alter_ne. Qed.

Lemma locked_state_lookup (st : State) (lf : nat) (pg : PageTablePage) :
  store st !! lf = Some pg ->
  store (locked_state lf st) !! lf = Some (set_descriptor (set_lock true) pg).
Proof. apply store_alter_lookup. Qed.

Lemma locked_state_lookup_ne (st : State) (lf q : nat) :
  lf <> q -> store (locked_state lf st) !! q = store st !! q.
Proof. apply store_alter_lookup_ne. Qed.

Lemma set_lock_undo (pg : PageTablePage) :
  lock (descriptor pg) = false ->
  set_descriptor (set_lock false) (set_descriptor (set_lock true) pg) = pg.
Proof. destruct pg as [? [] ? ?]; simpl; intros ->; reflexivity. Qed.

Lemma unlock_locked_state (st : State) (lf : nat) (pg : PageTablePage) :
  store st !! lf = Some pg ->
  lock (descriptor pg) = false ->
  with_store (alter (set_descriptor (set_lock false)) lf) (locked_state lf st) = st.
Proof.
  intros Hpg Hlock. destruct st as [s ? ? ? ? ? ? ? ? ?].
  unfold locked_state, with_store. simpl in *. f_equal.
  rewrite alter_alter.
  apply (alter_fixed _ _ _ pg Hpg). by apply set_lock_undo.
Qed.

Lemma lock_and_validate_live (st : State) (lf : nat) (pg : PageTablePage) :
  store st !! lf = Some pg ->
  lock (descriptor pg) = false ->
  is_stale (descriptor pg) = false ->
  _lock_and_validate lf st = Ok true (locked_state lf st).
Proof.
  intros Hpg Hlock Hstale. unfold _lock_and_validate.
  rewrite (bind_ok _ _ _ _ _ (lock_acquire_free _ _ _ Hpg Hlock)).
  unfold bind, gets.
  rewrite (deref_lookup _ _ _ (locked_state_lookup _ _ _ Hpg)).
  simpl. by rewrite Hstale.
Qed.

Lemma lock_and_validate_stale (st : State) (lf : nat) (pg : PageTablePage) :
  store st !! lf = Some pg ->
  lock (descriptor pg) = false ->
  is_stale (descriptor pg) = true ->
  _lock_and_validate lf st = Ok false st.
Proof.
  intros Hpg Hlock Hstale. unfold _lock_and_validate.
  rewrite (bind_ok _ _ _ _ _ (lock_acquire_free _ _ _ Hpg Hlock)).
  unfold bind at 1. unfold gets.
  rewrite (deref_lookup _ _ _ (locked_state_lookup _ _ _ Hpg)).
  cbn [is_stale descriptor set_descriptor set_lock]. rewrite Hstale.
  erewrite bind_ok;
    [| apply (lock_release_held _ _ _ (locked_state_lookup _ _ _ Hpg)); reflexivity].
  unfold ret. by rewrite (unlock_locked_state _ _ _ Hpg Hlock).
Qed.

(** A stale leaf makes every round fail, and the last one raises. *)
Lemma lock_attempts_stale (n : nat) (st : State) (vstart vend : Z) (deep : bool)
    (lf : nat) (pg : PageTablePage) :
  leaf_of st vstart = Some lf ->
  store st !! lf = Some pg ->
  lock (descriptor pg) = false ->
  is_stale (descriptor pg) = true ->
  lock_attempts n vstart vend deep st = Raise RuntimeError st.
Proof.
  intros Hleaf Hpg Hlock Hstale. induction n as [| n IH]; [done |].
  cbn [lock_attempts]. unfold bind at 1. unfold _ensure_leaf_page, gets.
  rewrite Hleaf. unfold bind at 1. unfold ret at 1. unfold bind at 1.
  rewrite (lock_and_validate_stale _ _ _ Hpg Hlock Hstale). simpl. exact IH.
Qed.

Lemma lock_attempts_live (n : nat) (st : State) (vstart vend : Z)
    (lf : nat) (pg : PageTablePage) :
  leaf_of st vstart = Some lf ->
  store st !! lf = Some pg ->
  lock (descriptor pg) = false ->
  is_stale (descriptor pg) = false ->
  lock_attempts (S n) vstart vend false st
  = Ok (mkCursor vstart vend [lf] false) (locked_state lf st).
Proof.
  intros Hleaf Hpg Hlock Hstale.
  cbn [lock_attempts]. unfold bind at 1. unfold _ensure_leaf_page, gets.
  rewrite Hleaf. unfold bind at 1. unfold ret at 1. unfold bind at 1.
  rewrite (lock_and_validate_live _ _ _ Hpg Hlock Hstale). simpl. reflexivity.
Qed.

Lemma release_one_page (st : State) (c : RCursor) (lf : nat) (pg : PageTablePage) :
  locked_pages c = [lf] ->
  _released c = false ->
  store st !! lf = Some pg ->
  lock (descriptor pg) = true ->
  RCursor_release c st
  = Ok (mkCursor (vaddr_start c) (vaddr_end c) [] true)
       (with_store (alter (set_descriptor (set_lock false)) lf) st).
Proof.
  intros Hc Hrel Hpg Hlock.
  unfold RCursor_release. rewrite Hc, Hrel. cbn [rev app release_all].
  unfold bind. by rewrite (lock_release_held _ _ _ Hpg Hlock).
Qed.

(** Releasing the cursor a second time does nothing: no lock is released
    twice and nothing is raised. *)
Lemma release_again (st st' : State) (c c' : RCursor) :
  RCursor_release c st = Ok c' st' ->
  RCursor_release c' st' = Ok c' st'.
Proof.
  unfold RCursor_release. destruct (_released c) eqn:Hrel.
  - intros [= <- <-]. by rewrite Hrel.
  - unfold bind. destruct (release_all (rev (locked_pages c)) st); [| done | done].
    by intros [= <- <-].
Qed.

Lemma scope_exit (st : State) (c : RCursor) (lf : nat) (pg : PageTablePage) :
  locked_pages c = [lf] ->
  _released c = false ->
  store st !! lf = Some pg ->
  lock (descriptor pg) = true ->
  rcu_lock st = false ->
  (let* _ := RCursor_release c in try_reclaim) st = Ok tt (exit_state lf st).
Proof.
  intros Hc Hrel Hpg Hlock Hrcu.
  rewrite (bind_ok _ _ _ _ _ (release_one_page _ _ _ _ Hc Hrel Hpg Hlock)).
  unfold try_reclaim, with_mutex. cbn [rcu_lock with_store]. rewrite Hrcu.
  reflexivity.
Qed.

Lemma page_align_div (vaddr : Z) : page_align vaddr = 4096 * (vaddr / 4096).
Proof.
  unfold page_align. rewrite <- Z.ldiff_land.
  change 0xFFF with (Z.ones 12). rewrite Z.ldiff_ones_r by lia.
  rewrite Z.shiftl_mul_pow2, Z.shiftr_div_pow2 by lia.
  change (2 ^ 12) with 4096. lia.
Qed.

Lemma page_align_up_div (vaddr : Z) :
  page_align_up vaddr = 4096 * ((vaddr + 4095) / 4096).
Proof. unfold page_align_up. change 0xFFF with 4095. apply page_align_div. Qed.

Lemma page_align_bounds (vaddr : Z) :
  page_align vaddr <= vaddr < page_align vaddr + 4096.
Proof.
  rewrite page_align_div.
  pose proof (Z.div_mod vaddr 4096). pose proof (Z.mod_pos_bound vaddr 4096). lia.
Qed.

Lemma page_align_idem (vaddr : Z) : page_align (page_align vaddr) = page_align vaddr.
Proof.
  rewrite (page_align_div (page_align vaddr)), !page_align_div.
  assert (4096 * (vaddr / 4096) / 4096 = vaddr / 4096) as ->; [| done].
  rewrite Z.mul_comm. apply Z.div_mul. lia.
Qed.

Lemma page_align_up_next (vaddr : Z) :
  page_align_up (page_align vaddr + 4096) = page_align vaddr + 4096.
Proof.
  rewrite page_align_up_div, page_align_div.
  replace (4096 * (vaddr / 4096) + 4096 + 4095)
    with ((vaddr / 4096 + 1) * 4096 + 4095) by lia.
  rewrite Z.div_add_l by lia. change (4095 / 4096) with 0. lia.
Qed.

Lemma leaf_of_page_align (st : State) (vaddr : Z) :
  leaf_of st (page_align vaddr) = leaf_of st vaddr.
Proof. unfold leaf_of, page_align. by rewrite parse_vaddr_page_align. Qed.

Lemma leaf_index_page_align (vaddr : Z) :
  leaf_index (page_align vaddr) = leaf_index vaddr.
Proof. unfold leaf_index, page_align. by rewrite parse_vaddr_page_align. Qed.

(** Taking the cursor when the leaf exists, is unlocked and is live. *)
Lemma AddrSpace_lock_live {A} (st : State) (vstart vend : Z) (body : RCursor -> M A)
    (lf : nat) (pg : PageTablePage) :
  leaf_of st vstart = Some lf ->
  store st !! lf = Some pg ->
  lock (descriptor pg) = false ->
  is_stale (descriptor pg) = false ->
  AddrSpace_lock vstart vend false body st =
  let cursor := mkCursor (page_align vstart) (page_align_up vend) [lf] false in
  finally (body cursor) (let* _ := RCursor_release cursor in try_reclaim)
    (locked_state lf st).
Proof.
  intros Hleaf Hpg Hlock Hstale. unfold AddrSpace_lock.
  rewrite <- leaf_of_page_align in Hleaf.
  erewrite bind_ok; [| by eapply lock_attempts_live]. reflexivity.
Qed.

Lemma AddrSpace_lock_stale {A} (st : State) (vstart vend : Z) (body : RCursor -> M A)
    (lf : nat) (pg : PageTablePage) :
  leaf_of st vstart = Some lf ->
  store st !! lf = Some pg ->
  lock (descriptor pg) = false ->
  is_stale (descriptor pg) = true ->
  AddrSpace_lock vstart vend false body st = Raise RuntimeError st.
Proof.
  intros Hleaf Hpg Hlock Hstale. unfold AddrSpace_lock.
  rewrite <- leaf_of_page_align in Hleaf.
  unfold bind. fold (page_align vstart).
  by rewrite (lock_attempts_stale _ _ _ _ _ _ _ Hleaf Hpg Hlock Hstale).
Qed.

Lemma first_leaf_single (pages : list PageTablePage) (lf : nat) :
  first_leaf pages [lf] = if is_leaf (pages !!! lf) then Some lf else None.
Proof. reflexivity. Qed.

Lemma fault_cursor_range (vaddr : Z) :
  in_cursor_range
    (mkCursor (page_align (page_align vaddr))
       (page_align_up (page_align vaddr + 0x1000)) [] false) vaddr = true.
Proof.
  unfold in_cursor_range. simpl.
  rewrite page_align_idem. change 0x1000 with 4096. rewrite page_align_up_next.
  pose proof (page_align_bounds vaddr).
  apply andb_true_iff. split; [apply Z.leb_le | apply Z.ltb_lt]; lia.
Qed.

(* ===================================================================== *)
(** ** Reading entries after an update *)
(* ===================================================================== *)

Lemma leaf_index_range (vaddr : Z) : 0 <= leaf_index vaddr < 512.
Proof.
  unfold leaf_index.
  pose proof (parse_vaddr_range vaddr 4) as Hall.
  assert (parse_vaddr vaddr 4 <> []) as Hne.
  { unfold parse_vaddr. intros Hnil. apply (f_equal (@length Z)) in Hnil.
    rewrite length_rev, parse_loop_length in Hnil. simpl in Hnil. lia. }
  destruct (exists_last Hne) as (l & x & Hl). rewrite Hl in Hall |- *.
  rewrite last_last. apply Forall_app in Hall as [_ Hx]. by inversion Hx.
Qed.

Lemma leaf_index_nat (vaddr : Z) : (Z.to_nat (leaf_index vaddr) < 512)%nat.
Proof. pose proof (leaf_index_range vaddr). lia. Qed.

Section EntryReads.
Variables (pg : PageTablePage) (i : Z).

Lemma get_pte_update_pte (f : PTE -> PTE) :
  (Z.to_nat i < length (ptes pg))%nat ->
  get_pte (update_pte i f pg) i = f (get_pte pg i).
Proof. intros H. unfold get_pte, update_pte. simpl. by apply list_lookup_total_alter_eq. Qed.

Lemma get_pte_update_pte_ne (f : PTE -> PTE) (j : Z) :
  Z.to_nat i <> Z.to_nat j ->
  get_pte (update_pte i f pg) j = get_pte pg j.
Proof. intros H. unfold get_pte, update_pte. simpl. by apply list_lookup_total_alter_ne. Qed.

Lemma get_pte_update_metadata (f : PTEMetadata -> PTEMetadata) (j : Z) :
  get_pte (update_metadata i f pg) j = get_pte pg j.
Proof. reflexivity. Qed.

Lemma get_pte_set_descriptor (f : PageDescriptor -> PageDescriptor) (j : Z) :
  get_pte (set_descriptor f pg) j = get_pte pg j.
Proof. reflexivity. Qed.

Lemma get_metadata_update_metadata (f : PTEMetadata -> PTEMetadata) :
  (Z.to_nat i < length (per_pte_metadata (descriptor pg)))%nat ->
  get_metadata (update_metadata i f pg) i = f (get_metadata pg i).
Proof.
  intros H. unfold get_metadata, update_metadata. simpl.
  by apply list_lookup_total_alter_eq.
Qed.

Lemma get_metadata_update_metadata_ne (f : PTEMetadata -> PTEMetadata) (j : Z) :
  Z.to_nat i <> Z.to_nat j ->
  get_metadata (update_metadata i f pg) j = get_metadata pg j.
Proof.
  intros H. unfold get_metadata, update_metadata. simpl.
  by apply list_lookup_total_alter_ne.
Qed.

Lemma get_metadata_update_pte (f : PTE -> PTE) (j : Z) :
  get_metadata (update_pte i f pg) j = get_metadata pg j.
Proof. reflexivity. Qed.

Lemma get_metadata_set_lock (b : bool) (j : Z) :
  get_metadata (set_descriptor (set_lock b) pg) j = get_metadata pg j.
Proof. reflexivity. Qed.

Lemma get_metadata_increment_version (j : Z) :
  get_metadata (set_descriptor increment_version pg) j = get_metadata pg j.
Proof. reflexivity. Qed.

Lemma length_ptes_update_pte (f : PTE -> PTE) :
  length (ptes (update_pte i f pg)) = length (ptes pg).
Proof. unfold update_pte. simpl. apply length_alter. Qed.

Lemma length_metadata_update_metadata (f : PTEMetadata -> PTEMetadata) :
  length (per_pte_metadata (descriptor (update_metadata i f pg)))
  = length (per_pte_metadata (descriptor pg)).
Proof. unfold update_metadata. simpl. apply length_alter. Qed.
End EntryReads.

Lemma with_store_alter_alter (f g : PageTablePage -> PageTablePage) (p : nat)
    (st : State) :
  with_store (alter f p) (with_store (alter g p) st)
  = with_store (alter (fun x => f (g x)) p) st.
Proof. unfold with_store. simpl. by rewrite alter_alter. Qed.

Lemma RCursor_map_leaf (st : State) (c : RCursor) (vaddr pfn' : Z) (writable : bool)
    (lf : nat) (pg : PageTablePage) :
  in_cursor_range c vaddr = true ->
  locked_pages c = [lf] ->
  store st !! lf = Some pg ->
  level pg = 0 ->
  RCursor_map c vaddr pfn' writable st
  = Ok tt (with_store (alter (mapped_page (leaf_index vaddr) pfn' writable) lf) st).
Proof.
  intros Hrange Hc Hpg Hlevel. unfold RCursor_map.
  rewrite Hrange, Hc. unfold assert, bind at 1, ret at 1.
  unfold bind at 1, gets at 1.
  rewrite first_leaf_single, (lookup_total_lookup _ _ _ Hpg).
  unfold is_leaf. rewrite Hlevel. cbn [Z.eqb].
  unfold bind, update_page, modify.
  by rewrite !with_store_alter_alter.
Qed.

(* ===================================================================== *)
(** ** Page faults *)
(* ===================================================================== *)

(** C9: a write fault on an entry whose status is COW and whose PTE is
    not valid returns false; no page changes (so no PTE and no metadata
    slot does), no frame is handed out and the refcount map is as before. *)
Theorem cow_write_fault_invalid_pte (st : State) (vaddr : Z) (lf : nat)
    (pg : PageTablePage) :
  leaf_of st vaddr = Some lf ->
  store st !! lf = Some pg ->
  lock (descriptor pg) = false ->
  rcu_lock st = false ->
  status (get_metadata pg (leaf_index vaddr)) = COW ->
  PTE_is_valid (get_pte pg (leaf_index vaddr)) = false ->
  exists st',
    handle_page_fault vaddr true st = Ok false st' /\
    store st' = store st /\
    next_pfn st' = next_pfn st /\
    cow_refcounts st' = cow_refcounts st.
Proof.
  intros Hleaf Hpg Hlock Hrcu Hstatus Hpte.
  rewrite <- leaf_of_page_align in Hleaf.
  unfold handle_page_fault, catch.
  destruct (is_stale (descriptor pg)) eqn:Hstale.
  { rewrite (AddrSpace_lock_stale _ _ _ _ _ _ Hleaf Hpg Hlock Hstale). eauto. }
  rewrite (AddrSpace_lock_live _ _ _ _ _ _ Hleaf Hpg Hlock Hstale).
  cbv beta zeta.
  pose proof (locked_state_lookup _ _ _ Hpg) as Hlocked.
  set (cursor := mkCursor _ _ _ _).
  assert (in_cursor_range cursor vaddr = true) as Hrange by apply fault_cursor_range.
  match goal with
  | |- context [finally ?b _ ?s] => assert (b s = Ok false s) as Hbody
  end.
  { unfold RCursor_query, bind at 1. unfold bind at 1. rewrite Hrange.
    unfold assert, ret at 1, gets at 1. cbn [locked_pages cursor].
    rewrite first_leaf_single, (lookup_total_lookup _ _ _ Hlocked).
    unfold is_leaf. cbn [level set_descriptor].
    destruct (level pg =? 0) eqn:Hlevel; [| reflexivity].
    unfold deref. rewrite (lookup_total_lookup _ _ _ Hlocked).
    unfold get_metadata in *. cbn [descriptor set_descriptor per_pte_metadata set_lock].
    rewrite Hstatus. cbn [negb].
    unfold _handle_cow_write, RCursor_get_pte_and_metadata.
    unfold bind at 1. unfold bind at 1. rewrite Hrange.
    unfold assert, ret at 1, gets at 1. cbn [locked_pages cursor].
    rewrite first_leaf_single, (lookup_total_lookup _ _ _ Hlocked).
    unfold is_leaf. cbn [level set_descriptor]. rewrite Hlevel.
    unfold bind at 1. unfold gets at 1.
    rewrite (deref_lookup _ _ _ Hlocked).
    unfold get_pte in *. cbn [ptes set_descriptor]. rewrite Hpte.
    reflexivity. }
  unfold finally. rewrite Hbody.
  rewrite (scope_exit _ cursor _ _ eq_refl eq_refl Hlocked eq_refl Hrcu).
  eexists. split; [reflexivity |].
  unfold exit_state. cbn [store next_pfn cow_refcounts with_rcu_lock with_rcu_queue].
  fold (with_store (alter (set_descriptor (set_lock false)) lf) (locked_state lf st)).
  rewrite (unlock_locked_state _ _ _ Hpg Hlock). done.
Qed.

Lemma cow_write_fault_invalid_pte_witness :
  exists st',
    handle_page_fault 0x7000 true cow_unbacked = Ok false st' /\
    store st' = store cow_unbacked /\
    next_pfn st' = next_pfn cow_unbacked /\
    cow_refcounts st' = cow_refcounts cow_unbacked.
Proof.
  apply (cow_write_fault_invalid_pte cow_unbacked 0x7000 3 (deref cow_unbacked 3));
    vm_compute; reflexivity.
Defined.

Lemma allocate_pfn_free (st : State) :
  pfn_lock st = false ->
  allocate_pfn st = Ok (next_pfn st) (with_next_pfn (next_pfn st + 1) st).
Proof.
  intros Hfree. unfold allocate_pfn, with_mutex. rewrite Hfree.
  unfold finally, bind, gets, modify, ret. simpl.
  f_equal. destruct st. simpl in *. by subst.
Qed.




(* ===================================================================== *)
(** ** Keeping the invariant *)
(* ===================================================================== *)

Section Preserves.
Context (P : State -> Prop).

Lemma preserves_ret {A} (a : A) : preserves P (ret a).
Proof. by intros st H. Qed.

Lemma preserves_raise {A} (e : error) : preserves P (@raise A e).
Proof. by intros st H. Qed.

Lemma preserves_gets {A} (f : State -> A) : preserves P (gets f).
Proof. by intros st H. Qed.

Lemma preserves_assert (c : bool) : preserves P (assert c).
Proof. destruct c; [apply preserves_ret | apply preserves_raise]. Qed.

Lemma preserves_bind {A B} (m : M A) (k : A -> M B) :
  preserves P m -> (forall a, preserves P (k a)) -> preserves P (bind m k).
Proof.
  intros Hm Hk st H. unfold bind. specialize (Hm st H).
  destruct (m st) as [a st' | e st' |]; [by apply Hk | done | done].
Qed.

Lemma preserves_modify (f : State -> State) :
  (forall st, P st -> P (f st)) -> preserves P (modify f).
Proof. intros Hf st H. by apply Hf. Qed.

Lemma preserves_finally {A} (m : M A) (fin : M unit) :
  preserves P m -> preserves P fin -> preserves P (finally m fin).
Proof.
  intros Hm Hfin st H. unfold finally. specialize (Hm st H).
  destruct (m st) as [a st' | e st' |]; [| | done].
  - specialize (Hfin st' Hm). by destruct (fin st').
  - specialize (Hfin st' Hm). by destruct (fin st').
Qed.

Lemma preserves_catch {A} (m : M A) (a : A) : preserves P m -> preserves P (catch m a).
Proof.
  intros Hm st H. unfold catch. specialize (Hm st H). by destruct (m st).
Qed.

Lemma preserves_while_pages (n : nat) (vaddr vend : Z) (body : Z -> M unit) :
  (forall v, preserves P (body v)) -> preserves P (while_pages n vaddr vend body).
Proof.
  intros Hbody. revert vaddr. induction n as [| n IH]; intros vaddr; simpl.
  - apply preserves_ret.
  - destruct (vaddr <? vend); [| apply preserves_ret].
    apply preserves_bind; [apply Hbody | intros _; apply IH].
Qed.

Lemma preserves_for_pages (vstart vend : Z) (body : Z -> M unit) :
  (forall v, preserves P (body v)) -> preserves P (for_pages vstart vend body).
Proof. apply preserves_while_pages. Qed.

End Preserves.

(** *** Page steps *)

Lemma page_step_compose (F G : PageTablePage -> PageTablePage) :
  page_step F -> page_step G -> page_step (fun pg => F (G pg)).
Proof.
  intros [] []. constructor; intros pg; try congruence; auto.
Qed.

Lemma page_step_increment_version : page_step (set_descriptor increment_version).
Proof. by constructor. Qed.

Lemma page_step_update_metadata (i : Z) (g : PTEMetadata -> PTEMetadata) :
  (forall e m, entry_ok e m -> entry_ok e (g m)) ->
  page_step (update_metadata i g).
Proof.
  intros Hg. constructor; try done.
  - intros pg. unfold update_metadata. simpl. apply length_alter.
  - intros pg H. unfold update_metadata. simpl.
    apply Forall2_alter_r; [done |]. intros e m _ _. apply Hg.
Qed.

Lemma page_step_update_pte (i : Z) (f : PTE -> PTE) :
  (forall e m, entry_ok e m -> entry_ok (f e) m) ->
  page_step (update_pte i f).
Proof.
  intros Hf. constructor; try done.
  - intros pg. unfold update_pte. simpl. apply length_alter.
  - intros pg H. unfold update_pte. simpl.
    apply Forall2_alter_l; [done |]. intros e m _ _. apply Hf.
Qed.

Lemma page_step_mark (i perm : Z) (s : Status) :
  live_status s -> page_step (update_metadata i (mark_metadata s perm)).
Proof. intros Hs. apply page_step_update_metadata. by intros e m _ _. Qed.

Lemma page_step_cow_metadata (i : Z) : page_step (update_metadata i cow_metadata).
Proof.
  apply page_step_update_metadata. intros e m _ _. right; right. reflexivity.
Qed.

Lemma page_step_set_status_COW (i : Z) : page_step (update_metadata i (set_status COW)).
Proof.
  apply page_step_update_metadata. intros e m _ _. right; left. reflexivity.
Qed.

Lemma page_step_set_refcount (i n : Z) : page_step (update_metadata i (set_refcount n)).
Proof. apply page_step_update_metadata. by intros e m H. Qed.

Lemma page_step_set_rw (i : Z) (b : bool) : page_step (update_pte i (PTE_set_rw b)).
Proof. apply page_step_update_pte. by intros e m H. Qed.

Lemma page_step_mapped_page (i pfn' : Z) (writable : bool) :
  page_step (mapped_page i pfn' writable).
Proof.
  constructor; try done.
  - intros pg. unfold mapped_page, update_pte. simpl. apply length_alter.
  - intros pg. unfold mapped_page, update_metadata. simpl. apply length_alter.
  - intros pg H. unfold mapped_page, update_metadata, update_pte. simpl.
    apply Forall2_alter; [done |]. intros e m _ _ _ _. by left.
Qed.

Lemma page_step_unmapped_page (i : Z) : page_step (unmapped_page i).
Proof.
  constructor; try done.
  - intros pg. unfold unmapped_page, update_pte. simpl. apply length_alter.
  - intros pg. unfold unmapped_page, update_metadata. simpl. apply length_alter.
  - intros pg H. unfold unmapped_page, update_metadata, update_pte. simpl.
    apply Forall2_alter; [done |]. by intros e m _ _ _ Hp.
Qed.

(** *** The tree invariant under a page step *)

Lemma children_ok_alter (F : PageTablePage -> PageTablePage) (p : nat)
    (pages : list PageTablePage) (pg : PageTablePage) :
  (forall x, level (F x) = level x) ->
  children_ok pages pg -> children_ok (alter F p pages) pg.
Proof.
  intros HF Hok j c Hc. destruct (Hok j c Hc) as (cpg & Hcpg & Hlv).
  destruct (decide (p = c)) as [-> | Hne].
  - exists (F cpg). rewrite list_lookup_alter_eq, Hcpg. split; [done |]. by rewrite HF.
  - exists cpg. by rewrite list_lookup_alter_ne.
Qed.

Lemma tree_inv_alter_gen (held held' : option nat) (F : PageTablePage -> PageTablePage)
    (p : nat) (st : State) :
  (forall pg, children (F pg) = children pg) ->
  (forall pg, level (F pg) = level pg) ->
  (forall pg, is_stale (descriptor (F pg)) = is_stale (descriptor pg)) ->
  (forall pg, length (ptes (F pg)) = length (ptes pg)) ->
  (forall pg, Forall2 entry_ok (ptes pg) (per_pte_metadata (descriptor pg)) ->
              Forall2 entry_ok (ptes (F pg)) (per_pte_metadata (descriptor (F pg)))) ->
  (forall q pg, store st !! q = Some pg ->
     lock (descriptor (if decide (p = q) then F pg else pg))
     = bool_decide (held' = Some q)) ->
  (forall lf, held' = Some lf -> exists pg, store st !! lf = Some pg /\ level pg = 0) ->
  tree_inv held st -> tree_inv held' (with_store (alter F p) st).
Proof.
  intros Fchildren Flevel Fstale Fptes Fentries Hlocks' Hheld'
    [Hlv Hroot Hpages Hlocks Hheld].
  constructor; cbn [levels root store with_store].
  - done.
  - destruct Hroot as (rpg & Hr & Hl).
    destruct (decide (p = root st)) as [-> | Hne].
    + exists (F rpg). rewrite list_lookup_alter_eq, Hr. split; [done |].
      by rewrite Flevel.
    + exists rpg. by rewrite list_lookup_alter_ne.
  - intros q pg Hq.
    destruct (decide (p = q)) as [-> | Hne].
    + rewrite list_lookup_alter_eq in Hq.
      destruct (store st !! q) as [pg0 |] eqn:Hq0; [| done].
      injection Hq as <-. destruct (Hpages q pg0 Hq0) as [H1 H2 H3 H4 H5].
      constructor.
      * by rewrite Fptes.
      * by rewrite Fchildren.
      * by rewrite Fstale.
      * by apply Fentries.
      * apply children_ok_alter; [apply Flevel |].
        intros j c Hc. rewrite Fchildren in Hc. rewrite Flevel.
        exact (H5 j c Hc).
    + rewrite list_lookup_alter_ne in Hq by done.
      destruct (Hpages q pg Hq) as [H1 H2 H3 H4 H5].
      constructor; try done.
      apply children_ok_alter; [apply Flevel | done].
  - intros q pg Hq. specialize (Hlocks' q).
    destruct (decide (p = q)) as [-> | Hne].
    + rewrite list_lookup_alter_eq in Hq.
      destruct (store st !! q) as [pg0 |] eqn:Hq0; [| done].
      injection Hq as <-. by apply Hlocks'.
    + rewrite list_lookup_alter_ne in Hq by done. by apply Hlocks'.
  - intros lf Hlf. destruct (Hheld' lf Hlf) as (pg & Hpg & Hl).
    destruct (decide (p = lf)) as [-> | Hne].
    + exists (F pg). rewrite list_lookup_alter_eq, Hpg. split; [done |].
      by rewrite Flevel.
    + exists pg. by rewrite list_lookup_alter_ne.
Qed.

Lemma tree_inv_alter (held : option nat) (F : PageTablePage -> PageTablePage)
    (p : nat) (st : State) :
  page_step F -> tree_inv held st -> tree_inv held (with_store (alter F p) st).
Proof.
  intros [] Hinv. apply (tree_inv_alter_gen held); try done.
  - intros q pg Hq. rewrite <- (ti_locks _ _ Hinv q pg Hq). by destruct (decide (p = q)).
  - apply (ti_held _ _ Hinv).
Qed.

Lemma tree_inv_lock (st : State) (lf : nat) (pg : PageTablePage) :
  tree_inv None st -> store st !! lf = Some pg -> level pg = 0 ->
  tree_inv (Some lf) (locked_state lf st).
Proof.
  intros Hinv Hpg Hlevel. apply (tree_inv_alter_gen None); try done.
  - intros q pg' Hq. destruct (decide (lf = q)) as [-> | Hne]; simpl.
    + by rewrite bool_decide_true.
    + rewrite (ti_locks _ _ Hinv q pg' Hq). rewrite !bool_decide_false; congruence.
  - intros ? [= <-]. eauto.
Qed.

Lemma tree_inv_unlock (st : State) (lf : nat) :
  tree_inv (Some lf) st ->
  tree_inv None (with_store (alter (set_descriptor (set_lock false)) lf) st).
Proof.
  intros Hinv. apply (tree_inv_alter_gen (Some lf)); try done.
  intros q pg' Hq. destruct (decide (lf = q)) as [-> | Hne]; simpl.
  - done.
  - rewrite (ti_locks _ _ Hinv q pg' Hq). rewrite !bool_decide_false; congruence.
Qed.

Lemma inv_alter (held : option nat) (F : PageTablePage -> PageTablePage)
    (p : nat) (st : State) :
  page_step F -> inv held st -> inv held (with_store (alter F p) st).
Proof. intros HF [Ht Hm]. split; [by apply tree_inv_alter | done]. Qed.

Lemma preserves_update_page (held : option nat) (p : nat)
    (F : PageTablePage -> PageTablePage) :
  page_step F -> preserves (inv held) (update_page p F).
Proof. intros HF st H. by apply inv_alter. Qed.

(** The tree invariant reads only the pages, the root and the level count. *)
Lemma tree_inv_ext (held : option nat) (st st' : State) :
  store st' = store st -> root st' = root st -> levels st' = levels st ->
  tree_inv held st -> tree_inv held st'.
Proof.
  intros Hs Hr Hl [H1 H2 H3 H4 H5].
  constructor; rewrite ?Hs, ?Hr, ?Hl; done.
Qed.

Lemma page_inv_new (pages : list PageTablePage) (lvl : Z) :
  page_inv pages (PageTablePage_new lvl).
Proof.
  constructor; unfold PageTablePage_new, PageDescriptor_new;
    cbn [ptes children descriptor per_pte_metadata is_stale level].
  - apply length_replicate.
  - apply length_replicate.
  - done.
  - apply Forall2_replicate. by intros Hp.
  - intros j c Hc. apply lookup_replicate_1 in Hc as [Hc _]. done.
Qed.

Lemma children_ok_app (pages extra : list PageTablePage) (pg : PageTablePage) :
  children_ok pages pg -> children_ok (pages ++ extra) pg.
Proof.
  intros Hok j c Hc. destruct (Hok j c Hc) as (cpg & Hcpg & Hl).
  exists cpg. split; [by apply lookup_app_l_Some | done].
Qed.

Lemma get_child_Some (pg : PageTablePage) (index : Z) (c : nat) :
  get_child pg index = Some c ->
  children pg !! Z.to_nat index = Some (Some c).
Proof.
  unfold get_child. intros H.
  destruct (children pg !! Z.to_nat index) as [o |] eqn:Hl.
  - rewrite (list_lookup_total_correct _ _ _ Hl) in H. by subst.
  - rewrite list_lookup_total_alt, Hl in H. done.
Qed.

Lemma get_child_lookup (pg : PageTablePage) (index : Z) (o : option nat) :
  children pg !! Z.to_nat index = Some o -> get_child pg index = o.
Proof. unfold get_child. apply list_lookup_total_correct. Qed.

(** Growing the tree by one blank page hung below [current]. *)
Lemma tree_inv_grow (st : State) (current : nat) (cpg : PageTablePage)
    (index lvl : Z) :
  tree_inv None st ->
  store st !! current = Some cpg ->
  get_child cpg index = None ->
  0 <= index < 512 ->
  lvl = level cpg - 1 ->
  tree_inv None
    (with_store (alter (set_child index (Some (length (store st)))) current)
       (with_store (fun s => s ++ [PageTablePage_new lvl]) st)).
Proof.
  intros [Hlv Hroot Hpages Hlocks Hheld] Hcur Habsent Hindex ->.
  assert (current < length (store st))%nat as Hcur_lt by (by eapply lookup_lt_Some).
  assert (forall q pg, store st !! q = Some pg ->
            children_ok
              (alter (set_child index (Some (length (store st)))) current
                 (store st ++ [PageTablePage_new (level cpg - 1)])) pg) as Hkids.
  { intros q pg Hq. apply children_ok_alter; [done |].
    apply children_ok_app. by apply (pi_links _ _ (Hpages q pg Hq)). }
  constructor; cbn [levels root store with_store].
  - done.
  - destruct Hroot as (rpg & Hr & Hl).
    destruct (decide (current = root st)) as [-> | Hne].
    + eexists. rewrite list_lookup_alter_eq, (lookup_app_l_Some _ _ _ _ Hr).
      split; [reflexivity | done].
    + exists rpg. rewrite list_lookup_alter_ne by done.
      split; [by apply lookup_app_l_Some | done].
  - intros q pg Hq.
    destruct (decide (current = q)) as [<- | Hne].
    + rewrite list_lookup_alter_eq, (lookup_app_l_Some _ _ _ _ Hcur) in Hq.
      injection Hq as <-. destruct (Hpages current cpg Hcur) as [H1 H2 H3 H4 H5].
      constructor; simpl; try done.
      * by rewrite length_insert.
      * intros j c Hc. simpl in Hc.
        destruct (decide (Z.to_nat index = j)) as [<- | Hj].
        -- rewrite list_lookup_insert_eq in Hc by lia. injection Hc as <-.
           exists (PageTablePage_new (level cpg - 1)).
           rewrite list_lookup_alter_ne by lia.
           rewrite lookup_app_r by lia. rewrite Nat.sub_diag. done.
        -- rewrite list_lookup_insert_ne in Hc by done.
           exact (Hkids current cpg Hcur j c Hc).
    + rewrite list_lookup_alter_ne in Hq by done.
      apply lookup_app_Some in Hq as [Hq | [Hge Hq]].
      * destruct (Hpages q pg Hq) as [H1 H2 H3 H4 H5].
        constructor; try done. by apply (Hkids q).
      * destruct (q - length (store st))%nat; [| by destruct n].
        injection Hq as <-. apply page_inv_new.
  - intros q pg Hq.
    destruct (decide (current = q)) as [<- | Hne].
    + rewrite list_lookup_alter_eq, (lookup_app_l_Some _ _ _ _ Hcur) in Hq.
      injection Hq as <-. simpl. by apply (Hlocks current).
    + rewrite list_lookup_alter_ne in Hq by done.
      apply lookup_app_Some in Hq as [Hq | [Hge Hq]].
      * by apply (Hlocks q).
      * destruct (q - length (store st))%nat; [| by destruct n].
        by injection Hq as <-.
  - done.
Qed.

Lemma create_path_spec (indices : list Z) :
  forall (i : Z) (current : nat) (st : State) (cpg : PageTablePage),
    tree_inv None st ->
    store st !! current = Some cpg ->
    level cpg = 3 - i ->
    Forall (fun x => 0 <= x < 512) indices ->
    exists lf st',
      create_path i current indices st = Ok lf st' /\
      tree_inv None st' /\
      descend (store st') current indices = Some lf /\
      links_kept st st' /\ same_frame st st'.
Proof.
  induction indices as [| index rest IH]; intros i current st cpg Hinv Hcur Hlevel Hrange.
  - exists current, st. split_all; try done.
    intros p pg j c Hp Hc. eauto.
  - apply Forall_cons in Hrange as [Hindex Hrest].
    cbn [create_path]. unfold bind at 1. unfold gets at 1.
    rewrite (deref_lookup _ _ _ Hcur).
    pose proof (pi_children _ _ (ti_pages _ _ Hinv _ _ Hcur)) as Hlen.
    destruct (get_child cpg index) as [c |] eqn:Hchild.
    + apply get_child_Some in Hchild.
      destruct (pi_links _ _ (ti_pages _ _ Hinv _ _ Hcur) _ _ Hchild) as (ccpg & Hc & Hcl).
      destruct (IH (i + 1) c st ccpg Hinv Hc ltac:(lia) Hrest)
        as (lf & st' & Hrun & Hinv' & Hdesc & Hkept & Hframe).
      exists lf, st'. split_all; try done.
      cbn [descend]. destruct (Hkept _ _ _ _ Hcur Hchild) as (cpg' & Hcur' & Hchild').
      rewrite (lookup_total_lookup _ _ _ Hcur'), (get_child_lookup _ _ _ Hchild').
      exact Hdesc.
    + unfold bind at 1. unfold gets at 1. unfold bind at 1. unfold gets at 1.
      unfold bind at 1. unfold modify at 1. unfold bind at 1.
      unfold update_page at 1. unfold modify at 1.
      rewrite (ti_levels _ _ Hinv).
      set (st_b := with_store _ (with_store _ st)).
      assert (tree_inv None st_b) as Hinv_b.
      { apply (tree_inv_grow st current cpg index); try done.
        rewrite Hlevel. lia. }
      assert (store st_b !! length (store st)
              = Some (PageTablePage_new (Z.of_nat 4 - 2 - i))) as Hnew.
      { unfold st_b. cbn [store with_store].
        apply lookup_lt_Some in Hcur as Hlt.
        rewrite list_lookup_alter_ne by lia.
        rewrite lookup_app_r by lia. by rewrite Nat.sub_diag. }
      destruct (IH (i + 1) (length (store st)) st_b _ Hinv_b Hnew ltac:(simpl; lia) Hrest)
        as (lf & st' & Hrun & Hinv' & Hdesc & Hkept & Hframe).
      exists lf, st'. split_all; try done.
      * assert (store st_b !! current
                = Some (set_child index (Some (length (store st))) cpg)) as Hcur_b.
        { unfold st_b. cbn [store with_store].
          by rewrite list_lookup_alter_eq, (lookup_app_l_Some _ _ _ _ Hcur). }
        assert (children (set_child index (Some (length (store st))) cpg)
                !! Z.to_nat index = Some (Some (length (store st)))) as Hlink.
        { simpl. apply list_lookup_insert_eq. lia. }
        cbn [descend]. destruct (Hkept _ _ _ _ Hcur_b Hlink) as (cpg' & Hcur' & Hchild').
        rewrite (lookup_total_lookup _ _ _ Hcur'), (get_child_lookup _ _ _ Hchild').
        exact Hdesc.
      * intros p pg j c Hp Hc.
        assert (exists pg_b, store st_b !! p = Some pg_b /\
                             children pg_b !! j = Some (Some c)) as (pg_b & Hp_b & Hc_b).
        { unfold st_b. cbn [store with_store].
          destruct (decide (current = p)) as [<- | Hne].
          - rewrite list_lookup_alter_eq, (lookup_app_l_Some _ _ _ _ Hcur).
            eexists. split; [reflexivity |]. simpl.
            rewrite Hcur in Hp. injection Hp as <-.
            destruct (decide (Z.to_nat index = j)) as [<- | Hj].
            + rewrite (get_child_lookup _ _ _ Hc) in Hchild. done.
            + by rewrite list_lookup_insert_ne.
          - exists pg. rewrite list_lookup_alter_ne by done.
            split; [by apply lookup_app_l_Some | done]. }
        exact (Hkept _ _ _ _ Hp_b Hc_b).
Qed.

Lemma descend_level (held : option nat) (st : State) (l : list Z) :
  tree_inv held st ->
  forall p pg q,
    store st !! p = Some pg ->
    descend (store st) p l = Some q ->
    exists qpg, store st !! q = Some qpg /\ level qpg = level pg - Z.of_nat (length l).
Proof.
  intros Hinv. induction l as [| x l IH]; intros p pg q Hp Hd; simpl in Hd.
  - injection Hd as <-. exists pg. split; [done | simpl; lia].
  - rewrite (lookup_total_lookup _ _ _ Hp) in Hd.
    destruct (get_child pg x) as [c |] eqn:Hc; [| done].
    apply get_child_Some in Hc.
    destruct (pi_links _ _ (ti_pages _ _ Hinv _ _ Hp) _ _ Hc) as (cpg & Hcpg & Hl).
    destruct (IH c cpg q Hcpg Hd) as (qpg & Hq & Hlq).
    exists qpg. split; [done |]. rewrite Hlq, Hl. simpl length. lia.
Qed.

Lemma leaf_path_4 (vaddr : Z) :
  exists a b c, removelast (parse_vaddr vaddr 4) = [a; b; c] /\
                Forall (fun x => 0 <= x < 512) [a; b; c].
Proof.
  pose proof (parse_vaddr_range vaddr 4) as Hall.
  unfold parse_vaddr in *. cbn [parse_loop app rev] in *.
  do 3 eexists. split; [reflexivity |].
  rewrite !Forall_cons in Hall |- *.
  destruct Hall as (Ha & Hb & Hc & _).
  split; [exact Ha |]. split; [exact Hb |]. split; [exact Hc | constructor].
Qed.

Lemma leaf_of_level (held : option nat) (st : State) (vaddr : Z) (lf : nat) :
  tree_inv held st ->
  leaf_of st vaddr = Some lf ->
  exists pg, store st !! lf = Some pg /\ level pg = 0.
Proof.
  intros Hinv Hleaf. unfold leaf_of in Hleaf. rewrite (ti_levels _ _ Hinv) in Hleaf.
  destruct (leaf_path_4 vaddr) as (a & b & c & Hpath & _). rewrite Hpath in Hleaf.
  destruct (ti_root _ _ Hinv) as (rpg & Hr & Hl).
  destruct (descend_level _ _ _ Hinv _ _ _ Hr Hleaf) as (pg & Hpg & Hlv).
  exists pg. split; [done |]. rewrite Hlv, Hl. simpl. lia.
Qed.

Lemma create_leaf_page_inv (st : State) (vaddr : Z) :
  inv None st ->
  exists lf st0,
    _create_leaf_page vaddr st = Ok lf st0 /\ inv None st0 /\
    leaf_of st0 vaddr = Some lf.
Proof.
  intros [Hinv (Hrcu & Hstruct & Hpfn)].
  unfold _create_leaf_page, with_mutex. rewrite Hstruct.
  unfold finally, bind at 1. unfold gets at 1. unfold bind at 1. unfold gets at 1.
  cbn [levels root with_structure_lock].
  destruct (ti_root _ _ Hinv) as (rpg & Hr & Hl).
  destruct (leaf_path_4 vaddr) as (a & b & c & Hpath & Hrange).
  rewrite (ti_levels _ _ Hinv), Hpath.
  destruct (create_path_spec [a; b; c] 0 (root st) (with_structure_lock true st) rpg)
    as (lf & st' & Hrun & Hinv' & Hdesc & _ & (Hroot & Hlevels & Hrcu' & Hstruct' & Hpfn'));
    try done.
  { by apply (tree_inv_ext None st). }
  rewrite Hrun. unfold modify.
  exists lf, (with_structure_lock false st'). split; [done |]. split.
  - split; [by apply (tree_inv_ext None st') |].
    cbn [rcu_lock structure_lock pfn_lock with_structure_lock] in *.
    unfold mutexes_free. cbn [rcu_lock structure_lock pfn_lock with_structure_lock].
    split_all; congruence.
  - unfold leaf_of. cbn [store root levels with_structure_lock] in *.
    by rewrite Hroot, Hlevels, (ti_levels _ _ Hinv), Hpath.
Qed.

Lemma dfs_lock_leaf (fuel : nat) (st : State) (lf : nat) (pg : PageTablePage)
    (locked : list nat) :
  store st !! lf = Some pg -> level pg = 0 ->
  _dfs_lock_subtree (S fuel) lf locked st = Ok (locked ++ [lf], true) st.
Proof.
  intros Hpg Hlevel. cbn [_dfs_lock_subtree]. unfold bind, gets.
  rewrite (deref_lookup _ _ _ Hpg). unfold is_leaf. by rewrite Hlevel.
Qed.

(** Taking the cursor in a quiescent well-formed state: the leaf of the
    start address exists afterwards, possibly just created, and is the one
    page the cursor holds. *)
Lemma lock_attempts_inv (n : nat) (vstart vend : Z) (deep : bool) (st : State) :
  inv None st ->
  exists lf st0 pg,
    lock_attempts (S n) vstart vend deep st
    = Ok (mkCursor vstart vend [lf] false) (locked_state lf st0) /\
    inv None st0 /\ leaf_of st0 vstart = Some lf /\
    store st0 !! lf = Some pg /\ level pg = 0 /\
    (st0 = st \/ _create_leaf_page vstart st = Ok lf st0).
Proof.
  intros Hinv.
  assert (exists lf st0,
            (let* found := _ensure_leaf_page vstart in
             match found with
             | Some p => ret p
             | None => _create_leaf_page vstart
             end) st = Ok lf st0 /\ inv None st0 /\ leaf_of st0 vstart = Some lf /\
            (st0 = st \/ _create_leaf_page vstart st = Ok lf st0))
    as (lf & st0 & Hfind & Hinv0 & Hleaf & Hsame).
  { unfold bind, _ensure_leaf_page, gets.
    destruct (leaf_of st vstart) as [lf |] eqn:Hleaf.
    - exists lf, st. split_all; try done. by left.
    - destruct (create_leaf_page_inv st vstart Hinv) as (lf & st0 & Hrun & Hinv0 & Hleaf0).
      exists lf, st0. split_all; try done. by right. }
  destruct (leaf_of_level _ _ _ _ (proj1 Hinv0) Hleaf) as (pg & Hpg & Hlevel).
  exists lf, st0, pg. split_all; try done.
  cbn [lock_attempts].
  unfold bind at 1. unfold bind at 1.
  unfold bind in Hfind.
  destruct (_ensure_leaf_page vstart st) as [found st_f | |]; [| done | done].
  rewrite Hfind.
  pose proof (ti_locks _ _ (proj1 Hinv0) _ _ Hpg) as Hlock.
  rewrite bool_decide_false in Hlock by done.
  pose proof (pi_stale _ _ (ti_pages _ _ (proj1 Hinv0) _ _ Hpg)) as Hstale.
  unfold bind at 1.
  rewrite (lock_and_validate_live _ _ _ Hpg Hlock Hstale). cbn [negb].
  destruct deep.
  - unfold bind at 1. unfold bind at 1. unfold gets at 1.
    rewrite (dfs_lock_leaf _ _ _ _ _ (locked_state_lookup _ _ _ Hpg) Hlevel).
    reflexivity.
  - reflexivity.
Qed.

Lemma scope_exit_inv (st : State) (c : RCursor) (lf : nat) :
  locked_pages c = [lf] -> _released c = false ->
  inv (Some lf) st ->
  (let* _ := RCursor_release c in try_reclaim) st = Ok tt (exit_state lf st) /\
  inv None (exit_state lf st).
Proof.
  intros Hc Hrel [Hinv (Hrcu & Hstruct & Hpfn)].
  destruct (ti_held _ _ Hinv lf eq_refl) as (pg & Hpg & Hlevel).
  pose proof (ti_locks _ _ Hinv _ _ Hpg) as Hlock.
  rewrite bool_decide_true in Hlock by done.
  split; [by apply (scope_exit _ _ _ pg) |].
  split.
  - apply (tree_inv_ext None (with_store (alter (set_descriptor (set_lock false)) lf) st));
      try done.
    by apply tree_inv_unlock.
  - done.
Qed.

Lemma preserves_AddrSpace_lock {A} (vstart vend : Z) (deep : bool)
    (body : RCursor -> M A) :
  (forall c lf, preserves (inv (Some lf)) (body c)) ->
  preserves (inv None) (AddrSpace_lock vstart vend deep body).
Proof.
  intros Hbody st Hinv. unfold AddrSpace_lock.
  destruct (lock_attempts_inv 9 (Z.land vstart (Z.lnot 0xFFF))
              (Z.land (vend + 0xFFF) (Z.lnot 0xFFF)) deep st Hinv)
    as (lf & st0 & pg & Hrun & Hinv0 & Hleaf & Hpg & Hlevel & _).
  unfold bind at 1. rewrite Hrun.
  assert (inv (Some lf) (locked_state lf st0)) as Hlocked.
  { destruct Hinv0 as [Ht Hm]. split; [by apply (tree_inv_lock _ _ pg) | done]. }
  unfold finally.
  set (c := mkCursor _ _ [lf] false).
  specialize (Hbody c lf _ Hlocked).
  destruct (body c (locked_state lf st0)) as [a st2 | e st2 |]; [| | done].
  - destruct (scope_exit_inv st2 c lf eq_refl eq_refl Hbody) as [-> Hexit]. done.
  - destruct (scope_exit_inv st2 c lf eq_refl eq_refl Hbody) as [-> Hexit]. done.
Qed.

(** *** Cursor operations and system calls keep the invariant *)

Lemma inv_ext (held : option nat) (st st' : State) :
  store st' = store st -> root st' = root st -> levels st' = levels st ->
  rcu_lock st' = rcu_lock st -> structure_lock st' = structure_lock st ->
  pfn_lock st' = pfn_lock st ->
  inv held st -> inv held st'.
Proof.
  intros Hs Hr Hl H1 H2 H3 [Ht (Ha & Hb & Hc)].
  split; [by apply (tree_inv_ext held st) |].
  unfold mutexes_free. split_all; congruence.
Qed.

Lemma preserves_update_three (held : option nat) (p : nat)
    (f g h : PageTablePage -> PageTablePage) :
  page_step (fun pg => h (g (f pg))) ->
  preserves (inv held)
    (let* _ := update_page p f in
     let* _ := update_page p g in
     update_page p h).
Proof.
  intros HF st H. unfold bind, update_page, modify.
  rewrite !with_store_alter_alter. by apply inv_alter.
Qed.

Section CursorOps.
Context (held : option nat) (c : RCursor).

Lemma preserves_query (vaddr : Z) : preserves (inv held) (RCursor_query c vaddr).
Proof.
  apply preserves_bind; [apply preserves_assert | intros _; apply preserves_gets].
Qed.

Lemma preserves_get_pte_and_metadata (vaddr : Z) :
  preserves (inv held) (RCursor_get_pte_and_metadata c vaddr).
Proof.
  apply preserves_bind; [apply preserves_assert | intros _; apply preserves_gets].
Qed.

Lemma preserves_map (vaddr pfn' : Z) (writable : bool) :
  preserves (inv held) (RCursor_map c vaddr pfn' writable).
Proof.
  apply preserves_bind; [apply preserves_assert | intros _].
  apply preserves_bind; [apply preserves_gets | intros [leaf |]].
  - apply preserves_update_three.
    apply (page_step_mapped_page (leaf_index vaddr) pfn' writable).
  - apply preserves_raise.
Qed.

Lemma preserves_unmap (vaddr : Z) : preserves (inv held) (RCursor_unmap c vaddr).
Proof.
  apply preserves_bind; [apply preserves_assert | intros _].
  apply preserves_bind; [apply preserves_gets | intros [leaf |]].
  - apply preserves_update_three.
    apply (page_step_unmapped_page (leaf_index vaddr)).
  - apply preserves_raise.
Qed.

Lemma preserves_unmap_range : preserves (inv held) (RCursor_unmap_range c).
Proof.
  apply preserves_for_pages. intros vaddr.
  apply preserves_bind; [apply preserves_gets | intros [leaf |]].
  - apply preserves_bind; [apply preserves_gets | intros s].
    destruct (bool_decide (s <> Invalid)); [| apply preserves_ret].
    apply preserves_update_three.
    apply (page_step_unmapped_page (leaf_index vaddr)).
  - apply preserves_ret.
Qed.

Lemma preserves_mark_pages (pages : list nat) (i perm : Z) (s : Status) :
  live_status s -> preserves (inv held) (mark_pages pages i s perm).
Proof.
  intros Hs. induction pages as [| p pages IH]; simpl; [apply preserves_ret |].
  apply preserves_bind; [apply preserves_gets | intros leaf].
  apply preserves_bind; [| intros _; apply IH].
  destruct leaf; [| apply preserves_ret].
  apply preserves_bind; [| intros _].
  - apply preserves_update_page. by apply page_step_mark.
  - apply preserves_update_page. apply page_step_increment_version.
Qed.

Lemma preserves_mark (s : Status) (perm : Z) :
  live_status s -> preserves (inv held) (RCursor_mark c s perm).
Proof.
  intros Hs. apply preserves_for_pages. intros vaddr. by apply preserves_mark_pages.
Qed.

Lemma preserves_run_cursor_ops (os : list cursor_op) :
  Forall cursor_op_ok os -> preserves (inv held) (run_cursor_ops c os).
Proof.
  induction 1 as [| o os Ho _ IH]; simpl; [apply preserves_ret |].
  apply preserves_bind; [| intros _; apply IH].
  destruct o; simpl.
  - apply preserves_bind; [apply preserves_query | intros _; apply preserves_ret].
  - apply preserves_map.
  - by apply preserves_mark.
  - apply preserves_unmap.
  - apply preserves_unmap_range.
Qed.

Lemma preserves_allocate_pfn : preserves (inv held) allocate_pfn.
Proof.
  intros st H. rewrite allocate_pfn_free by apply H.
  by apply (inv_ext held st).
Qed.

Lemma preserves_set_cow_refcounts (f : State -> gmap Z Z) :
  preserves (inv held) (modify (fun st => with_cow_refcounts (f st) st)).
Proof. intros st H. by apply (inv_ext held st). Qed.

Lemma preserves_handle_cow_write (vaddr : Z) :
  preserves (inv held) (_handle_cow_write c vaddr).
Proof.
  apply preserves_bind; [apply preserves_get_pte_and_metadata | intros [[pt_page idx] |]];
    [| apply preserves_ret].
  apply preserves_bind; [apply preserves_gets | intros pte].
  destruct (negb (PTE_is_valid pte)); [apply preserves_ret |].
  destruct (pfn pte) as [old_pfn |]; [| apply preserves_ret].
  apply preserves_bind; [apply preserves_gets | intros refcnt].
  destruct (refcnt >? 1).
  - apply preserves_bind; [apply preserves_allocate_pfn | intros new_pfn].
    apply preserves_bind; [apply preserves_map | intros _].
    apply preserves_bind; [apply preserves_set_cow_refcounts | intros _].
    apply preserves_bind; [apply preserves_set_cow_refcounts | intros _].
    apply preserves_bind; [| intros _; apply preserves_ret].
    apply preserves_update_page. apply page_step_cow_metadata.
  - apply preserves_bind; [| intros _].
    { apply preserves_update_page. apply page_step_set_rw. }
    apply preserves_bind; [| intros _; apply preserves_ret].
    apply preserves_update_page. apply page_step_cow_metadata.
Qed.

End CursorOps.

Lemma preserves_mmap (vaddr length prot : Z) :
  preserves (inv None) (do_syscall_mmap vaddr length prot).
Proof.
  apply preserves_catch.
  apply preserves_bind; [| intros _; apply preserves_ret].
  apply preserves_AddrSpace_lock. intros c lf.
  apply preserves_mark. right; right; reflexivity.
Qed.

Lemma preserves_munmap (vaddr length : Z) :
  preserves (inv None) (do_syscall_munmap vaddr length).
Proof.
  apply preserves_catch.
  apply preserves_bind; [| intros _; apply preserves_ret].
  apply preserves_AddrSpace_lock. intros c lf. apply preserves_unmap_range.
Qed.

Lemma preserves_page_fault (vaddr : Z) (is_write : bool) :
  preserves (inv None) (handle_page_fault vaddr is_write).
Proof.
  apply preserves_catch. apply preserves_AddrSpace_lock. intros c lf.
  apply preserves_bind; [apply preserves_query | intros s].
  destruct s; try apply preserves_ret.
  - apply preserves_bind; [apply preserves_get_pte_and_metadata | intros [[pt_page idx] |]];
      [| apply preserves_ret].
    apply preserves_bind; [apply preserves_gets | intros pte].
    apply preserves_bind; [apply preserves_gets | intros metadata].
    destruct (is_write && negb (rw pte)); [| apply preserves_ret].
    destruct (negb (Z.land (soft_perm metadata) 2 =? 0)); apply preserves_ret.
  - apply preserves_bind; [apply preserves_allocate_pfn | intros pfn'].
    apply preserves_bind; [apply preserves_map | intros _; apply preserves_ret].
  - destruct (negb is_write); [| apply preserves_handle_cow_write].
    apply preserves_bind; [apply preserves_get_pte_and_metadata | intros [[pt_page idx] |]];
      [| apply preserves_ret].
    apply preserves_bind; [apply preserves_gets | intros pte].
    destruct (negb (PTE_is_valid pte)); apply preserves_ret.
Qed.

Lemma preserves_fork_cow (vaddr length : Z) :
  preserves (inv None) (do_fork_cow vaddr length).
Proof.
  apply preserves_catch.
  apply preserves_bind; [| intros _; apply preserves_ret].
  apply preserves_AddrSpace_lock. intros c lf.
  apply preserves_for_pages. intros current_vaddr.
  apply preserves_bind; [apply preserves_get_pte_and_metadata | intros [[pt_page idx] |]];
    [| apply preserves_ret].
  apply preserves_bind; [apply preserves_gets | intros pte].
  apply preserves_bind; [apply preserves_gets | intros metadata].
  destruct (PTE_is_valid pte && bool_decide (status metadata = Mapped));
    [| apply preserves_ret].
  destruct (pfn pte) as [frame |]; [| apply preserves_ret].
  apply preserves_bind; [| intros _].
  { apply preserves_update_page. apply page_step_set_status_COW. }
  apply preserves_bind; [| intros _].
  { apply preserves_update_page. apply page_step_set_rw. }
  apply preserves_bind; [apply preserves_set_cow_refcounts | intros _].
  apply preserves_bind; [apply preserves_gets | intros cnt].
  apply preserves_update_page. apply page_step_set_refcount.
Qed.

Lemma preserves_run_operation (o : operation) :
  operation_ok o -> preserves (inv None) (run_operation o).
Proof.
  destruct o; simpl; intros Hok.
  - apply preserves_bind; [apply preserves_mmap | intros _; apply preserves_ret].
  - apply preserves_bind; [apply preserves_munmap | intros _; apply preserves_ret].
  - apply preserves_bind; [apply preserves_page_fault | intros _; apply preserves_ret].
  - apply preserves_bind; [apply preserves_fork_cow | intros _; apply preserves_ret].
  - apply preserves_AddrSpace_lock. intros c lf. by apply preserves_run_cursor_ops.
  - intros st H. by apply (inv_ext None st).
Qed.

Lemma inv_fresh : inv None CortenMMSystem_new.
Proof.
  split; [| done]. constructor; try done.
  - by eexists.
  - intros [| p] pg Hp; [| done]. injection Hp as <-. apply page_inv_new.
  - intros [| p] pg Hp; [| done]. by injection Hp as <-.
Qed.

Lemma run_operations_inv (os : list operation) :
  Forall operation_ok os ->
  forall st, inv None st -> exists st', run_operations os st = Some st' /\ inv None st'.
Proof.
  induction 1 as [| o os Ho _ IH]; intros st Hinv; simpl; [eauto |].
  pose proof (preserves_run_operation o Ho st Hinv) as Hstep.
  destruct (run_operation o st) as [[] st' | e st' |]; [by apply IH | by apply IH | done].
Qed.

(** C2, as stated, fails: mapping a page, touching it and mapping the same
    address again leaves its entry with a present PTE and status
    PrivateAnon. *)
Lemma remap_breaks_private_anon_absent :
  exists st pg,
    run_operations
      [Mmap 0x10000 0x1000 3; PageFault 0x10000 true; Mmap 0x10000 0x1000 3]
      CortenMMSystem_new = Some st /\
    store st !! 3%nat = Some pg /\
    present (get_pte pg (leaf_index 0x10000)) = true /\
    status (get_metadata pg (leaf_index 0x10000)) = PrivateAnon.
Proof.
  eexists. exists (deref (state_after (do_syscall_mmap 0x10000 0x1000 3)
                     (state_after (handle_page_fault 0x10000 true)
                        (state_after (do_syscall_mmap 0x10000 0x1000 3)
                           CortenMMSystem_new))) 3).
  split_all; vm_compute; reflexivity.
Qed.

(** C2, amended: after any sequence of mmap, munmap, handle_page_fault,
    fork_cow and cursor scopes running query, map, mark, unmap and
    unmap_range, with mark given one of the statuses Mapped, COW and
    PrivateAnon, started on a fresh system, every call has returned and
    every entry with a present PTE has status Mapped, COW or PrivateAnon.
    An entry with status PrivateAnon may have a present PTE. *)
Theorem present_entries_live (os : list operation) :
  Forall operation_ok os ->
  exists st,
    run_operations os CortenMMSystem_new = Some st /\
    forall p pg i,
      store st !! p = Some pg -> 0 <= i < 512 ->
      present (get_pte pg i) = true ->
      live_status (status (get_metadata pg i)).
Proof.
  intros Hok.
  destruct (run_operations_inv os Hok _ inv_fresh) as (st & Hrun & [Hinv _]).
  exists st. split; [done |]. intros p pg i Hp Hi Hpresent.
  destruct (ti_pages _ _ Hinv p pg Hp) as [Hptes _ _ Hentries _].
  pose proof (Forall2_length _ _ _ Hentries) as Hlen.
  destruct (lookup_lt_is_Some_2 (ptes pg) (Z.to_nat i)) as [e He]; [lia |].
  destruct (lookup_lt_is_Some_2 (per_pte_metadata (descriptor pg)) (Z.to_nat i))
    as [m Hm]; [lia |].
  unfold get_pte, get_metadata in *.
  rewrite (list_lookup_total_correct _ _ _ He) in Hpresent.
  rewrite (list_lookup_total_correct _ _ _ Hm).
  exact (Forall2_lookup_lr _ _ _ _ _ _ Hentries He Hm Hpresent).
Qed.

Lemma present_entries_live_witness :
  exists st,
    run_operations
      [Mmap 0x10000 0x2000 3; PageFault 0x10000 true; ForkCow 0x10000 0x1000;
       Scope 0x20000 0x21000 true [CMark COW 5; CMap 0x20000 0x77 false];
       PageFault 0x10000 true; Munmap 0x11000 0x1000]
      CortenMMSystem_new = Some st /\
    forall p pg i,
      store st !! p = Some pg -> 0 <= i < 512 ->
      present (get_pte pg i) = true ->
      live_status (status (get_metadata pg i)).
Proof.
  apply present_entries_live.
  repeat match goal with |- Forall _ _ => constructor end; try exact I.
  simpl. repeat match goal with |- Forall _ _ => constructor end; try exact I.
  right; left; reflexivity.
Defined.

(* ===================================================================== *)
(** ** One-page scopes: mmap, fault, munmap, query *)
(* ===================================================================== *)

Lemma descend_alter (F : PageTablePage -> PageTablePage) (p : nat)
    (pages : list PageTablePage) (l : list Z) :
  (forall pg, children (F pg) = children pg) ->
  forall r, descend (alter F p pages) r l = descend pages r l.
Proof.
  intros HF. induction l as [| x l IH]; intros r; simpl; [done |].
  assert (get_child (alter F p pages !!! r) x = get_child (pages !!! r) x) as ->.
  { unfold get_child. rewrite list_lookup_total_alter.
    case_decide as Hc; [| done]. destruct Hc as [-> _]. by rewrite HF. }
  destruct (get_child (pages !!! r) x); [apply IH | done].
Qed.

(** A scope over a ready leaf whose body changes that page by a page step
    returns the body's result and leaves the leaf ready again. *)
Lemma scope_page_step {A} (st st0 st2 : State) (vstart vend vaddr : Z) (deep : bool)
    (body : RCursor -> M A) (lf : nat) (pg : PageTablePage)
    (F : PageTablePage -> PageTablePage) (r : A) :
  let c := mkCursor (page_align vstart) (page_align_up vend) [lf] false in
  lock_attempts 10 (page_align vstart) (page_align_up vend) deep st
  = Ok c (locked_state lf st0) ->
  leaf_ready st0 vaddr lf pg ->
  body c (locked_state lf st0) = Ok r st2 ->
  store st2 = alter F lf (store (locked_state lf st0)) ->
  root st2 = root st0 -> levels st2 = levels st0 ->
  rcu_lock st2 = rcu_lock st0 -> pfn_lock st2 = pfn_lock st0 ->
  page_step F ->
  let pg' := set_descriptor (set_lock false) (F (set_descriptor (set_lock true) pg)) in
  exists st',
    AddrSpace_lock vstart vend deep body st = Ok r st' /\
    leaf_ready st' vaddr lf pg' /\
    next_pfn st' = next_pfn st2 /\ cow_refcounts st' = cow_refcounts st2.
Proof.
  intros c Hlock [Hleaf Hpg Hlevel Hptes Hmeta Hlk Hstale Hrcu Hpfn] Hbody Hstore
    Hroot Hlevels Hrcu2 Hpfn2 HF pg'.
  assert (store st2 !! lf = Some (F (set_descriptor (set_lock true) pg))) as Hpg2.
  { rewrite Hstore. unfold locked_state. cbn [store with_store].
    by rewrite !list_lookup_alter_eq, Hpg. }
  exists (exit_state lf st2). split; [| split].
  - unfold AddrSpace_lock. fold (page_align vstart) (page_align_up vend).
    unfold bind at 1. rewrite Hlock. fold c. unfold finally. rewrite Hbody.
    rewrite (scope_exit st2 c lf _ eq_refl eq_refl Hpg2); [done | | congruence].
    by rewrite (ps_lock F HF).
  - constructor.
    + unfold leaf_of, exit_state in *.
      cbn [store root levels with_store with_rcu_lock with_rcu_queue].
      rewrite Hstore, Hroot, Hlevels. unfold locked_state. cbn [store with_store].
      rewrite !descend_alter; [done | done | apply (ps_children F HF) | done].
    + unfold exit_state. cbn [store with_store with_rcu_lock with_rcu_queue].
      by rewrite list_lookup_alter_eq, Hpg2.
    + unfold pg'. cbn [level set_descriptor]. by rewrite (ps_level F HF).
    + unfold pg'. cbn [ptes set_descriptor]. by rewrite (ps_ptes F HF).
    + unfold pg'. cbn [descriptor set_descriptor per_pte_metadata set_lock].
      by rewrite (ps_meta F HF).
    + done.
    + unfold pg'. cbn [descriptor set_descriptor is_stale set_lock].
      by rewrite (ps_stale F HF).
    + done.
    + unfold exit_state. cbn [pfn_lock with_store with_rcu_lock with_rcu_queue]. congruence.
  - done.
Qed.

Lemma page_step_id : page_step (fun pg => pg).
Proof. by constructor. Qed.

Lemma alter_id_fun {A} (i : nat) (l : list A) : alter (fun x => x) i l = l.
Proof. by apply list_alter_id. Qed.

Lemma with_store_alter_id (p : nat) (st : State) :
  with_store (alter (fun pg => pg) p) st = st.
Proof. destruct st. unfold with_store. simpl. by rewrite alter_id_fun. Qed.

Lemma leaf_ready_lock_attempts (st : State) (vaddr vstart vend : Z) (lf : nat)
    (pg : PageTablePage) :
  leaf_ready st vaddr lf pg ->
  page_align vstart = page_align vaddr ->
  lock_attempts 10 (page_align vstart) vend false st
  = Ok (mkCursor (page_align vstart) vend [lf] false) (locked_state lf st).
Proof.
  intros [Hleaf Hpg Hlevel Hptes Hmeta Hlk Hstale Hrcu Hpfn] Halign.
  apply (lock_attempts_live _ _ _ _ _ pg); try done.
  by rewrite Halign, leaf_of_page_align.
Qed.

Lemma inv_leaf_ready (st : State) (vaddr : Z) (lf : nat) :
  inv None st -> leaf_of st vaddr = Some lf ->
  exists pg, leaf_ready st vaddr lf pg.
Proof.
  intros [Hinv (Hrcu & _ & Hpfn)] Hleaf.
  destruct (leaf_of_level _ _ _ _ Hinv Hleaf) as (pg & Hpg & Hlevel).
  destruct (ti_pages _ _ Hinv _ _ Hpg) as [Hptes _ Hstale Hentries _].
  exists pg. constructor; try done.
  - by rewrite <- (Forall2_length _ _ _ Hentries).
  - by rewrite (ti_locks _ _ Hinv _ _ Hpg), bool_decide_false.
Qed.

Lemma page_count_one (a : Z) : page_count a (a + 4096) = 1%nat.
Proof. unfold page_count. by replace (a + 4096 - a + 4095) with 8191 by lia. Qed.

Lemma for_pages_one (a : Z) (body : Z -> M unit) (st : State) :
  for_pages a (a + 4096) body st = body a st.
Proof.
  unfold for_pages. rewrite page_count_one. cbn [while_pages].
  assert ((a <? a + 4096) = true) as -> by (apply Z.ltb_lt; lia).
  unfold bind. by destruct (body a st) as [[] ? | |].
Qed.

(** [mark] over a cursor of one page and one leaf. *)
Lemma RCursor_mark_one_page (st : State) (c : RCursor) (a : Z) (lf : nat)
    (pg : PageTablePage) (s : Status) (perm : Z) :
  vaddr_start c = a -> vaddr_end c = a + 4096 -> locked_pages c = [lf] ->
  store st !! lf = Some pg -> level pg = 0 ->
  RCursor_mark c s perm st
  = Ok tt (with_store
             (alter (fun pg => set_descriptor increment_version
                       (update_metadata (leaf_index a) (mark_metadata s perm) pg)) lf) st).
Proof.
  intros Hs He Hc Hpg Hlevel. unfold RCursor_mark.
  rewrite Hs, He, Hc, for_pages_one. cbn [mark_pages].
  unfold bind at 1. unfold gets at 1. rewrite (deref_lookup _ _ _ Hpg).
  unfold is_leaf. rewrite Hlevel. cbn [Z.eqb].
  unfold bind, update_page, modify, ret.
  by rewrite with_store_alter_alter.
Qed.

(** [unmap_range] over a cursor of one page and one leaf. *)
Lemma RCursor_unmap_range_one_page (st : State) (c : RCursor) (a : Z) (lf : nat)
    (pg : PageTablePage) :
  vaddr_start c = a -> vaddr_end c = a + 4096 -> locked_pages c = [lf] ->
  store st !! lf = Some pg -> level pg = 0 ->
  RCursor_unmap_range c st
  = Ok tt (with_store
             (alter (if bool_decide (status (get_metadata pg (leaf_index a)) <> Invalid)
                     then unmapped_page (leaf_index a) else fun pg => pg) lf) st).
Proof.
  intros Hs He Hc Hpg Hlevel. unfold RCursor_unmap_range.
  rewrite Hs, He, Hc, for_pages_one.
  unfold bind at 1. unfold gets at 1.
  rewrite first_leaf_single, (lookup_total_lookup _ _ _ Hpg).
  unfold is_leaf. rewrite Hlevel. cbn [Z.eqb].
  unfold bind at 1. unfold gets at 1. rewrite (deref_lookup _ _ _ Hpg).
  destruct (bool_decide (status (get_metadata pg (leaf_index a)) <> Invalid)).
  - unfold bind, update_page, modify. by rewrite !with_store_alter_alter.
  - unfold ret. cbv iota. by rewrite with_store_alter_id.
Qed.

Lemma page_align_aligned (a : Z) : a mod 4096 = 0 -> page_align a = a.
Proof. intros H. rewrite page_align_div. pose proof (Z.div_mod a 4096). lia. Qed.

Lemma page_align_up_aligned (a : Z) : a mod 4096 = 0 -> page_align_up (a + 4096) = a + 4096.
Proof. intros H. rewrite <- (page_align_aligned a H) at 1. rewrite page_align_up_next. by rewrite page_align_aligned. Qed.

(** mmap of one page, from any quiescent well-formed state. *)
Lemma mmap_one_page (st : State) (a prot : Z) :
  inv None st -> a mod 4096 = 0 ->
  exists st' lf pg',
    do_syscall_mmap a 4096 prot st = Ok a st' /\
    leaf_ready st' a lf pg' /\
    status (get_metadata pg' (leaf_index a)) = PrivateAnon.
Proof.
  intros Hinv Ha. unfold do_syscall_mmap, catch.
  rewrite (page_align_aligned a Ha), (page_align_up_aligned a Ha).
  destruct (lock_attempts_inv 9 (page_align a) (page_align_up (a + 4096)) false st Hinv)
    as (lf & st0 & pg & Hrun & Hinv0 & Hleaf & Hpg & Hlevel & _).
  rewrite leaf_of_page_align in Hleaf.
  destruct (inv_leaf_ready st0 a lf Hinv0 Hleaf) as (pg0 & Hready).
  assert (pg0 = pg) as -> by (destruct Hready; congruence).
  set (F := fun pg => set_descriptor increment_version
                (update_metadata (leaf_index a) (mark_metadata PrivateAnon prot) pg)).
  edestruct (scope_page_step st st0 (with_store (alter F lf) (locked_state lf st0))
              a (a + 4096) a false
              (fun cursor => RCursor_mark cursor PrivateAnon prot) lf pg F tt Hrun Hready)
    as (st' & Hscope & Hready' & _).
  - apply (RCursor_mark_one_page _ _ a lf (set_descriptor (set_lock true) pg)).
    + apply (page_align_aligned a Ha).
    + apply (page_align_up_aligned a Ha).
    + done.
    + by apply locked_state_lookup.
    + done.
  - reflexivity.
  - reflexivity.
  - reflexivity.
  - reflexivity.
  - reflexivity.
  - apply (page_step_compose _ _ page_step_increment_version).
    apply page_step_mark. right; right; reflexivity.
  - unfold bind. rewrite Hscope. unfold ret.
    eexists _, lf, _. split; [reflexivity |]. split; [exact Hready' |].
    pose proof (leaf_index_nat a). destruct Hready. clear Hready' Hscope. subst F.
    entry_simp. reflexivity.
Qed.

(** A fault on a PrivateAnon entry maps a fresh frame. *)
Lemma fault_private_anon (st : State) (a : Z) (is_write : bool) (lf : nat)
    (pg : PageTablePage) :
  leaf_ready st a lf pg ->
  status (get_metadata pg (leaf_index a)) = PrivateAnon ->
  exists st' pg',
    handle_page_fault a is_write st = Ok true st' /\
    leaf_ready st' a lf pg' /\
    get_pte pg' (leaf_index a)
    = map_pte (next_pfn st) true (get_pte pg (leaf_index a)) /\
    status (get_metadata pg' (leaf_index a)) = Mapped.
Proof.
  intros Hready Hstatus. unfold handle_page_fault, catch.
  pose proof Hready as [Hleaf Hpg Hlevel Hptes Hmeta Hlk Hstale Hrcu Hpfn].
  pose proof (locked_state_lookup _ _ _ Hpg) as Hlocked.
  assert (in_cursor_range
            (mkCursor (page_align (page_align a)) (page_align_up (page_align a + 0x1000))
               [lf] false) a = true) as Hrange by apply fault_cursor_range.
  match goal with
  | |- context [AddrSpace_lock _ _ _ ?body _] =>
      edestruct (scope_page_step st st
               (with_store (alter (mapped_page (leaf_index a) (next_pfn st) true) lf)
                  (with_next_pfn (next_pfn st + 1) (locked_state lf st)))
               (page_align a) (page_align a + 0x1000) a false
               body lf pg (mapped_page (leaf_index a) (next_pfn st) true) true
               (leaf_ready_lock_attempts _ _ _ _ _ _ Hready (page_align_idem a)) Hready)
        as (st' & Hscope & Hready' & _)
  end.
  - unfold RCursor_query, bind at 1. unfold bind at 1. rewrite Hrange.
    unfold assert, ret at 1, gets at 1. cbn [locked_pages].
    rewrite first_leaf_single, (lookup_total_lookup _ _ _ Hlocked).
    unfold is_leaf. cbn [level set_descriptor]. rewrite Hlevel. cbn [Z.eqb].
    unfold deref. rewrite (lookup_total_lookup _ _ _ Hlocked).
    rewrite get_metadata_set_lock, Hstatus.
    rewrite (bind_ok _ _ _ _ _ (allocate_pfn_free (locked_state lf st) Hpfn)).
    change (next_pfn (locked_state lf st)) with (next_pfn st).
    erewrite bind_ok;
      [| apply (RCursor_map_leaf (with_next_pfn (next_pfn st + 1) (locked_state lf st))
                  _ a _ true lf _ Hrange eq_refl Hlocked Hlevel)].
    reflexivity.
  - reflexivity.
  - reflexivity.
  - reflexivity.
  - reflexivity.
  - reflexivity.
  - apply page_step_mapped_page.
  - rewrite Hscope. eexists _, _. split; [reflexivity |]. split; [exact Hready' |].
    pose proof (leaf_index_nat a). entry_simp. done.
Qed.

(** munmap of one page leaves its entry Invalid with a cleared PTE. *)
Lemma munmap_one_page (st : State) (a : Z) (lf : nat) (pg : PageTablePage) :
  leaf_ready st a lf pg -> a mod 4096 = 0 ->
  status (get_metadata pg (leaf_index a)) <> Invalid ->
  exists st' pg',
    do_syscall_munmap a 4096 st = Ok 0 st' /\
    leaf_ready st' a lf pg' /\
    get_pte pg' (leaf_index a) = PTE_clear (get_pte pg (leaf_index a)) /\
    get_metadata pg' (leaf_index a) = unmap_metadata (get_metadata pg (leaf_index a)).
Proof.
  intros Hready Ha Hvalid. unfold do_syscall_munmap, catch.
  rewrite (page_align_aligned a Ha), (page_align_up_aligned a Ha).
  pose proof Hready as [Hleaf Hpg Hlevel Hptes Hmeta Hlk Hstale Hrcu Hpfn].
  pose proof (locked_state_lookup _ _ _ Hpg) as Hlocked.
  edestruct (scope_page_step st st
               (with_store (alter (unmapped_page (leaf_index a)) lf) (locked_state lf st))
               a (a + 4096) a false
               RCursor_unmap_range lf pg (unmapped_page (leaf_index a)) tt
               (leaf_ready_lock_attempts _ _ _ _ _ _ Hready eq_refl) Hready)
    as (st' & Hscope & Hready' & _).
  - rewrite (RCursor_unmap_range_one_page (locked_state lf st)
               (mkCursor (page_align a) (page_align_up (a + 4096)) [lf] false) a lf _
               (page_align_aligned a Ha) (page_align_up_aligned a Ha) eq_refl
               Hlocked Hlevel).
    rewrite get_metadata_set_lock, bool_decide_true by done. reflexivity.
  - reflexivity.
  - reflexivity.
  - reflexivity.
  - reflexivity.
  - reflexivity.
  - apply page_step_unmapped_page.
  - unfold bind. rewrite Hscope. unfold ret.
    eexists _, _. split; [reflexivity |]. split; [exact Hready' |].
    pose proof (leaf_index_nat a). entry_simp. done.
Qed.

(** [query] inside a scope over the page of [a]. *)
Lemma query_one_page (st : State) (a : Z) (lf : nat) (pg : PageTablePage) :
  leaf_ready st a lf pg -> a mod 4096 = 0 ->
  exists st',
    AddrSpace_lock a (a + 4096) false (fun c => RCursor_query c a) st
    = Ok (status (get_metadata pg (leaf_index a))) st'.
Proof.
  intros Hready Ha.
  pose proof Hready as [Hleaf Hpg Hlevel Hptes Hmeta Hlk Hstale Hrcu Hpfn].
  pose proof (locked_state_lookup _ _ _ Hpg) as Hlocked.
  edestruct (scope_page_step st st (locked_state lf st) a (a + 4096) a false
               (fun c => RCursor_query c a) lf pg (fun pg => pg)
               (status (get_metadata pg (leaf_index a)))
               (leaf_ready_lock_attempts _ _ _ _ _ _ Hready eq_refl) Hready)
    as (st' & Hscope & _).
  - unfold RCursor_query, bind, in_cursor_range. cbn [vaddr_start vaddr_end].
    rewrite (page_align_aligned a Ha), (page_align_up_aligned a Ha).
    assert ((a <=? a) && (a <? a + 4096) = true) as ->.
    { apply andb_true_iff. split; [apply Z.leb_le | apply Z.ltb_lt]; lia. }
    unfold assert, ret, gets. cbn [locked_pages].
    rewrite first_leaf_single, (lookup_total_lookup _ _ _ Hlocked).
    unfold is_leaf. cbn [level set_descriptor]. rewrite Hlevel. cbn [Z.eqb].
    unfold deref. rewrite (lookup_total_lookup _ _ _ Hlocked).
    rewrite get_metadata_set_lock. reflexivity.
  - by rewrite alter_id_fun.
  - reflexivity.
  - reflexivity.
  - reflexivity.
  - reflexivity.
  - apply page_step_id.
  - eauto.
Qed.

(** C7: on a fresh system and for a page-aligned [a], [mmap(a, 4096, RW)]
    returns [a], the write fault at [a] is handled, [munmap(a, 4096)]
    returns 0, and a query of [a] then gives Invalid. *)
Theorem mmap_fault_munmap_roundtrip (a : Z) :
  a mod 4096 = 0 ->
  exists st1 st2 st3 st4,
    do_syscall_mmap a 4096 3 CortenMMSystem_new = Ok a st1 /\
    handle_page_fault a true st1 = Ok true st2 /\
    do_syscall_munmap a 4096 st2 = Ok 0 st3 /\
    AddrSpace_lock a (a + 4096) false (fun c => RCursor_query c a) st3
    = Ok Invalid st4.
Proof.
  intros Ha.
  destruct (mmap_one_page _ a 3 inv_fresh Ha) as (st1 & lf & pg1 & Hmmap & Hready1 & Hs1).
  destruct (fault_private_anon st1 a true lf pg1 Hready1 Hs1)
    as (st2 & pg2 & Hfault & Hready2 & _ & Hs2).
  destruct (munmap_one_page st2 a lf pg2 Hready2 Ha) as (st3 & pg3 & Hmunmap & Hready3 & _ & Hs3).
  { by rewrite Hs2. }
  destruct (query_one_page st3 a lf pg3 Hready3 Ha) as (st4 & Hquery).
  rewrite Hs3 in Hquery.
  exists st1, st2, st3, st4. by split_all.
Qed.

Lemma mmap_fault_munmap_roundtrip_witness :
  0x10000 mod 4096 = 0 /\
  exists st1 st2 st3 st4,
    do_syscall_mmap 0x10000 4096 3 CortenMMSystem_new = Ok 0x10000 st1 /\
    handle_page_fault 0x10000 true st1 = Ok true st2 /\
    do_syscall_munmap 0x10000 4096 st2 = Ok 0 st3 /\
    AddrSpace_lock 0x10000 (0x10000 + 4096) false (fun c => RCursor_query c 0x10000) st3
    = Ok Invalid st4.
Proof.
  split; [reflexivity |].
  apply (mmap_fault_munmap_roundtrip 0x10000). reflexivity.
Defined.

(* ===================================================================== *)
(** ** The page loop and the scenarios of the specification *)
(* ===================================================================== *)

(** [page_count] rounds of [while_pages] are all the loop ever runs: with
    more rounds allowed the result is the same, because by then the
    condition [vaddr < vend] is false. *)
Lemma while_pages_enough (n k : nat) (vaddr vend : Z) (body : Z -> M unit) (st : State) :
  vend <= vaddr + 4096 * Z.of_nat n ->
  while_pages (n + k) vaddr vend body st = while_pages n vaddr vend body st.
Proof.
  revert vaddr st. induction n as [| n IH]; intros vaddr st Hn.
  - destruct k as [| k]; simpl; [done |].
    assert ((vaddr <? vend) = false) as -> by (apply Z.ltb_ge; lia). done.
  - simpl. destruct (vaddr <? vend); [| done].
    unfold bind. destruct (body vaddr st) as [[] st' | |]; [| done | done].
    apply IH. lia.
Qed.

Lemma page_count_exact (vstart vend : Z) :
  vend <= vstart + 4096 * Z.of_nat (page_count vstart vend).
Proof.
  unfold page_count.
  pose proof (Z.div_mod (vend - vstart + 4095) 4096).
  pose proof (Z.mod_pos_bound (vend - vstart + 4095) 4096).
  destruct (Z.le_gt_cases 0 ((vend - vstart + 4095) / 4096)); lia.
Qed.

Lemma for_pages_any_fuel (k : nat) (vstart vend : Z) (body : Z -> M unit) (st : State) :
  while_pages (page_count vstart vend + k) vstart vend body st
  = for_pages vstart vend body st.
Proof. apply while_pages_enough, page_count_exact. Qed.

(** Scenario "lazy mmap": after [mmap(0x50000, 0x10000, 0b111)] the
    entries of the range are PrivateAnon with no PTE present; a write fault
    at [0x53000] is handled and maps that page only. *)
Example scenario_lazy_mmap :
  let st1 := state_after (do_syscall_mmap 0x50000 0x10000 7) CortenMMSystem_new in
  let st2 := state_after (handle_page_fault 0x53000 true) st1 in
  do_syscall_mmap 0x50000 0x10000 7 CortenMMSystem_new = Ok 0x50000 st1 /\
  status (get_metadata (deref st1 3) (leaf_index 0x50000)) = PrivateAnon /\
  present (get_pte (deref st1 3) (leaf_index 0x50000)) = false /\
  handle_page_fault 0x53000 true st1 = Ok true st2 /\
  get_pte (deref st2 3) (leaf_index 0x53000)
  = mkPTE (Some 0x1000) true true true false false /\
  status (get_metadata (deref st2 3) (leaf_index 0x53000)) = Mapped /\
  present (get_pte (deref st2 3) (leaf_index 0x50000)) = false /\
  present (get_pte (deref st2 3) (leaf_index 0x5F000)) = false.
Proof. cbv zeta. split_all; vm_compute; reflexivity. Qed.

(** Scenario "true COW copy": after mmap, write fault and fork_cow the
    frame [0x1000] has refcount 2; the next write fault binds frame
    [0x1001], both refcounts are 1 and the entry is writable and
    PrivateAnon. *)
Example scenario_cow_copy :
  let st' := state_after (handle_page_fault 0x30000 true) shared_page in
  cow_refcount shared_page 0x1000 = 2 /\
  status (get_metadata (deref shared_page 3) (leaf_index 0x30000)) = COW /\
  rw (get_pte (deref shared_page 3) (leaf_index 0x30000)) = false /\
  handle_page_fault 0x30000 true shared_page = Ok true st' /\
  get_pte (deref st' 3) (leaf_index 0x30000)
  = mkPTE (Some 0x1001) true true true false false /\
  cow_refcount st' 0x1000 = 1 /\ cow_refcount st' 0x1001 = 1 /\
  status (get_metadata (deref st' 3) (leaf_index 0x30000)) = PrivateAnon.
Proof. cbv zeta. split_all; vm_compute; reflexivity. Qed.

(** Scenario "munmap after map": the entry ends Invalid, its PTE cleared
    and its refcount 0. *)
Example scenario_munmap_after_map :
  let st := state_after (do_syscall_munmap 0x10000 0x1000)
              (state_after (handle_page_fault 0x10000 true)
                 (state_after (do_syscall_mmap 0x10000 0x1000 3) CortenMMSystem_new)) in
  get_metadata (deref st 3) (leaf_index 0x10000) = mkMeta Invalid 0 0 None /\
  get_pte (deref st 3) (leaf_index 0x10000) = mkPTE None false false true false false.
Proof. cbv zeta. split_all; vm_compute; reflexivity. Qed.

(* ===================================================================== *)
(** ** Frames in use come from the allocator *)
(* ===================================================================== *)

Lemma frames_below_new (b lvl : Z) : frames_below b (PageTablePage_new lvl).
Proof.
  unfold frames_below, PageTablePage_new. cbn [ptes].
  apply Forall_replicate. by intros F HF.
Qed.

Lemma frames_below_mono (b b' : Z) (pg : PageTablePage) :
  b <= b' -> frames_below b pg -> frames_below b' pg.
Proof.
  intros Hb H. unfold frames_below in *. eapply Forall_impl; [exact H |].
  intros e He F HF. specialize (He F HF). lia.
Qed.

Lemma frames_issued_alter (F : PageTablePage -> PageTablePage) (p : nat) (st : State) :
  (forall pg, frames_below (next_pfn st) pg -> frames_below (next_pfn st) (F pg)) ->
  frames_issued st -> frames_issued (with_store (alter F p) st).
Proof.
  intros HF H. unfold frames_issued in *. cbn [store next_pfn with_store].
  apply Forall_alter; [done |]. intros pg _. apply HF.
Qed.

Lemma frames_issued_ext (st st' : State) :
  store st' = store st -> next_pfn st' = next_pfn st ->
  frames_issued st -> frames_issued st'.
Proof. unfold frames_issued. by intros -> ->. Qed.

(** The page changes that keep the frames of the page, or drop one. *)
Lemma frames_update_metadata (b i : Z) (g : PTEMetadata -> PTEMetadata)
    (pg : PageTablePage) :
  frames_below b pg -> frames_below b (update_metadata i g pg).
Proof. done. Qed.

Lemma frames_set_descriptor (b : Z) (f : PageDescriptor -> PageDescriptor)
    (pg : PageTablePage) :
  frames_below b pg -> frames_below b (set_descriptor f pg).
Proof. done. Qed.

Lemma frames_update_pte (b i : Z) (f : PTE -> PTE) (pg : PageTablePage) :
  (forall e F, pfn (f e) = Some F -> pfn e = Some F \/ F < b) ->
  frames_below b pg -> frames_below b (update_pte i f pg).
Proof.
  intros Hf H. unfold frames_below, update_pte in *. cbn [ptes set_ptes].
  apply Forall_alter; [done |]. intros e _ He F HF.
  destruct (Hf e F HF) as [Hold | Hnew]; [by apply He | done].
Qed.

Lemma frames_mapped_page (b i pfn' : Z) (writable : bool) (pg : PageTablePage) :
  pfn' < b -> frames_below b pg -> frames_below b (mapped_page i pfn' writable pg).
Proof.
  intros Hb H. unfold mapped_page.
  apply frames_set_descriptor, frames_update_metadata, frames_update_pte; [| done].
  intros e F [= <-]. by right.
Qed.

Lemma frames_unmapped_page (b i : Z) (pg : PageTablePage) :
  frames_below b pg -> frames_below b (unmapped_page i pg).
Proof.
  intros H. unfold unmapped_page.
  apply frames_set_descriptor, frames_update_metadata, frames_update_pte; [| done].
  by intros e F HF.
Qed.

Lemma frames_set_rw (b i : Z) (w : bool) (pg : PageTablePage) :
  frames_below b pg -> frames_below b (update_pte i (PTE_set_rw w) pg).
Proof. apply frames_update_pte. intros e F HF. by left. Qed.

(** Creating the path to a leaf adds blank pages and child references. *)
Lemma create_path_frames (indices : list Z) :
  forall (i : Z) (current : nat) (st : State),
  exists lf st',
    create_path i current indices st = Ok lf st' /\
    next_pfn st' = next_pfn st /\
    (frames_issued st -> frames_issued st').
Proof.
  induction indices as [| index rest IH]; intros i current st.
  - exists current, st. by split_all.
  - cbn [create_path]. unfold bind at 1. unfold gets at 1.
    destruct (get_child (deref st current) index) as [c |].
    + apply IH.
    + unfold bind at 1. unfold gets at 1. unfold bind at 1. unfold gets at 1.
      unfold bind at 1. unfold modify at 1. unfold bind at 1.
      unfold update_page at 1. unfold modify at 1.
      set (st_b := with_store _ (with_store _ st)).
      destruct (IH (i + 1) (length (store st)) st_b) as (lf & st' & Hrun & Hnext & Hfr).
      exists lf, st'. split_all; [done | done |].
      intros H. apply Hfr. unfold st_b.
      apply frames_issued_alter; [by intros pg Hpg |].
      unfold frames_issued in *. cbn [store next_pfn with_store].
      apply Forall_app. split; [done |].
      constructor; [apply frames_below_new | constructor].
Qed.

Lemma create_leaf_page_frames (vaddr : Z) (st st0 : State) (lf : nat) :
  _create_leaf_page vaddr st = Ok lf st0 ->
  frames_issued st -> frames_issued st0.
Proof.
  unfold _create_leaf_page, with_mutex.
  destruct (structure_lock st); [done |].
  unfold finally, bind at 1. unfold gets at 1. unfold bind at 1. unfold gets at 1.
  cbn [levels root with_structure_lock].
  destruct (create_path_frames (removelast (parse_vaddr vaddr (levels st))) 0 (root st)
              (with_structure_lock true st)) as (lf' & st' & Hrun & Hnext & Hfr).
  rewrite Hrun. unfold modify. intros [= <- <-] H.
  apply (frames_issued_ext st'); [done | done |].
  apply Hfr. by apply (frames_issued_ext st).
Qed.

Section SystemCalls.
Context (held : option nat) (c : RCursor).

Lemma sys_update_page (p : nat) (F : PageTablePage -> PageTablePage) :
  page_step F ->
  (forall b pg, frames_below b pg -> frames_below b (F pg)) ->
  preserves (sys_inv held) (update_page p F).
Proof.
  intros HF Hfr st [Hinv H]. split; [by apply inv_alter |].
  apply frames_issued_alter; [apply Hfr | done].
Qed.

Lemma sys_update_three (p : nat) (f g h : PageTablePage -> PageTablePage) :
  page_step (fun pg => h (g (f pg))) ->
  (forall b pg, frames_below b pg -> frames_below b (h (g (f pg)))) ->
  preserves (sys_inv held)
    (let* _ := update_page p f in
     let* _ := update_page p g in
     update_page p h).
Proof.
  intros HF Hfr st [Hinv H]. unfold bind, update_page, modify.
  rewrite !with_store_alter_alter. split; [by apply inv_alter |].
  apply frames_issued_alter; [apply Hfr | done].
Qed.

Lemma sys_set_cow_refcounts (f : State -> gmap Z Z) :
  preserves (sys_inv held) (modify (fun st => with_cow_refcounts (f st) st)).
Proof.
  intros st [Hinv H]. split; [by apply (inv_ext held st) | by apply (frames_issued_ext st)].
Qed.

Lemma sys_query (vaddr : Z) : preserves (sys_inv held) (RCursor_query c vaddr).
Proof.
  apply preserves_bind; [apply preserves_assert | intros _; apply preserves_gets].
Qed.

Lemma sys_get_pte_and_metadata (vaddr : Z) :
  preserves (sys_inv held) (RCursor_get_pte_and_metadata c vaddr).
Proof.
  apply preserves_bind; [apply preserves_assert | intros _; apply preserves_gets].
Qed.

(** A frame taken from the allocator and mapped at once. *)
Lemma sys_allocate_map {A} (vaddr : Z) (k : Z -> M A) :
  (forall x, preserves (sys_inv held) (k x)) ->
  preserves (sys_inv held)
    (let* pfn' := allocate_pfn in
     let* _ := RCursor_map c vaddr pfn' true in
     k pfn').
Proof.
  intros Hk st [Hinv H].
  unfold bind at 1. rewrite allocate_pfn_free by apply Hinv.
  set (st_a := with_next_pfn (next_pfn st + 1) st).
  assert (sys_inv held st_a) as [Hinv_a Ha].
  { split; [by apply (inv_ext held st) |].
    unfold frames_issued in *. cbn [store next_pfn with_next_pfn st_a].
    eapply Forall_impl; [exact H |]. intros pg. apply frames_below_mono. lia. }
  assert (next_pfn st < next_pfn st_a) as Hlt by (simpl; lia).
  assert (match RCursor_map c vaddr (next_pfn st) true st_a with
          | Ok _ s' => sys_inv held s'
          | Raise _ s' => sys_inv held s'
          | Blocked => False
          end) as Hmap.
  { unfold RCursor_map. unfold bind at 1.
    destruct (in_cursor_range c vaddr); simpl; [| done].
    unfold bind at 1. unfold gets at 1.
    destruct (first_leaf (store st_a) (locked_pages c)) as [leaf |]; [| done].
    unfold bind, update_page, modify. rewrite !with_store_alter_alter.
    split.
    - apply inv_alter; [| done].
      apply (page_step_mapped_page (leaf_index vaddr) (next_pfn st) true).
    - apply frames_issued_alter; [| done]. intros pg.
      by apply (frames_mapped_page _ (leaf_index vaddr) (next_pfn st) true). }
  unfold bind at 1.
  destruct (RCursor_map c vaddr (next_pfn st) true st_a) as [[] s' | e s' |];
    [by apply Hk | done | done].
Qed.

Lemma sys_mark (s : Status) (perm : Z) :
  live_status s -> preserves (sys_inv held) (RCursor_mark c s perm).
Proof.
  intros Hs. apply preserves_for_pages. intros vaddr.
  induction (locked_pages c) as [| p pages IH]; simpl; [apply preserves_ret |].
  apply preserves_bind; [apply preserves_gets | intros leaf].
  apply preserves_bind; [| intros _; apply IH].
  destruct leaf; [| apply preserves_ret].
  apply preserves_bind; [| intros _].
  - apply sys_update_page; [by apply page_step_mark | done].
  - apply sys_update_page; [apply page_step_increment_version | done].
Qed.

Lemma sys_unmap_range : preserves (sys_inv held) (RCursor_unmap_range c).
Proof.
  apply preserves_for_pages. intros vaddr.
  apply preserves_bind; [apply preserves_gets | intros [leaf |]].
  - apply preserves_bind; [apply preserves_gets | intros s].
    destruct (bool_decide (s <> Invalid)); [| apply preserves_ret].
    apply sys_update_three.
    + apply (page_step_unmapped_page (leaf_index vaddr)).
    + intros b pg. apply (frames_unmapped_page b (leaf_index vaddr)).
  - apply preserves_ret.
Qed.

Lemma sys_handle_cow_write (vaddr : Z) :
  preserves (sys_inv held) (_handle_cow_write c vaddr).
Proof.
  apply preserves_bind; [apply sys_get_pte_and_metadata | intros [[pt_page idx] |]];
    [| apply preserves_ret].
  apply preserves_bind; [apply preserves_gets | intros pte].
  destruct (negb (PTE_is_valid pte)); [apply preserves_ret |].
  destruct (pfn pte) as [old_pfn |]; [| apply preserves_ret].
  apply preserves_bind; [apply preserves_gets | intros refcnt].
  destruct (refcnt >? 1).
  - apply sys_allocate_map. intros new_pfn.
    apply preserves_bind; [apply sys_set_cow_refcounts | intros _].
    apply preserves_bind; [apply sys_set_cow_refcounts | intros _].
    apply preserves_bind; [| intros _; apply preserves_ret].
    apply sys_update_page; [apply page_step_cow_metadata | done].
  - apply preserves_bind; [| intros _].
    { apply sys_update_page; [apply page_step_set_rw |].
      intros b pg. apply frames_set_rw. }
    apply preserves_bind; [| intros _; apply preserves_ret].
    apply sys_update_page; [apply page_step_cow_metadata | done].
Qed.

End SystemCalls.

Lemma sys_AddrSpace_lock {A} (vstart vend : Z) (deep : bool) (body : RCursor -> M A) :
  (forall c lf, preserves (sys_inv (Some lf)) (body c)) ->
  preserves (sys_inv None) (AddrSpace_lock vstart vend deep body).
Proof.
  intros Hbody st [Hinv Hfr]. unfold AddrSpace_lock.
  destruct (lock_attempts_inv 9 (Z.land vstart (Z.lnot 0xFFF))
              (Z.land (vend + 0xFFF) (Z.lnot 0xFFF)) deep st Hinv)
    as (lf & st0 & pg & Hrun & Hinv0 & Hleaf & Hpg & Hlevel & Hst0).
  assert (frames_issued st0) as Hfr0.
  { destruct Hst0 as [-> | Hcreate]; [done |].
    by apply (create_leaf_page_frames _ _ _ _ Hcreate). }
  unfold bind at 1. rewrite Hrun.
  assert (sys_inv (Some lf) (locked_state lf st0)) as Hlocked.
  { split.
    - destruct Hinv0 as [Ht Hm]. split; [by apply (tree_inv_lock _ _ pg) | done].
    - by apply frames_issued_alter. }
  unfold finally.
  set (c := mkCursor _ _ [lf] false).
  specialize (Hbody c lf _ Hlocked).
  assert (forall st2, sys_inv (Some lf) st2 ->
            (let* _ := RCursor_release c in try_reclaim) st2 = Ok tt (exit_state lf st2) /\
            sys_inv None (exit_state lf st2)) as Hexit.
  { intros st2 [Hinv2 Hfr2].
    destruct (scope_exit_inv st2 c lf eq_refl eq_refl Hinv2) as [Hrun2 Hinv2'].
    split; [done |]. split; [done |].
    apply (frames_issued_ext (with_store (alter (set_descriptor (set_lock false)) lf) st2));
      [done | done |].
    by apply frames_issued_alter. }
  destruct (body c (locked_state lf st0)) as [a st2 | e st2 |]; [| | done].
  - destruct (Hexit st2 Hbody) as [-> Hdone]. done.
  - destruct (Hexit st2 Hbody) as [-> Hdone]. done.
Qed.

Lemma sys_mmap (vaddr length prot : Z) :
  preserves (sys_inv None) (do_syscall_mmap vaddr length prot).
Proof.
  apply preserves_catch.
  apply preserves_bind; [| intros _; apply preserves_ret].
  apply sys_AddrSpace_lock. intros c lf.
  apply sys_mark. right; right; reflexivity.
Qed.

Lemma sys_munmap (vaddr length : Z) :
  preserves (sys_inv None) (do_syscall_munmap vaddr length).
Proof.
  apply preserves_catch.
  apply preserves_bind; [| intros _; apply preserves_ret].
  apply sys_AddrSpace_lock. intros c lf. apply sys_unmap_range.
Qed.

Lemma sys_page_fault (vaddr : Z) (is_write : bool) :
  preserves (sys_inv None) (handle_page_fault vaddr is_write).
Proof.
  apply preserves_catch. apply sys_AddrSpace_lock. intros c lf.
  apply preserves_bind; [apply sys_query | intros s].
  destruct s; try apply preserves_ret.
  - apply preserves_bind; [apply sys_get_pte_and_metadata | intros [[pt_page idx] |]];
      [| apply preserves_ret].
    apply preserves_bind; [apply preserves_gets | intros pte].
    apply preserves_bind; [apply preserves_gets | intros metadata].
    destruct (is_write && negb (rw pte)); [| apply preserves_ret].
    destruct (negb (Z.land (soft_perm metadata) 2 =? 0)); apply preserves_ret.
  - apply sys_allocate_map. intros _. apply preserves_ret.
  - destruct (negb is_write); [| apply sys_handle_cow_write].
    apply preserves_bind; [apply sys_get_pte_and_metadata | intros [[pt_page idx] |]];
      [| apply preserves_ret].
    apply preserves_bind; [apply preserves_gets | intros pte].
    destruct (negb (PTE_is_valid pte)); apply preserves_ret.
Qed.

Lemma sys_fork_cow (vaddr length : Z) :
  preserves (sys_inv None) (do_fork_cow vaddr length).
Proof.
  apply preserves_catch.
  apply preserves_bind; [| intros _; apply preserves_ret].
  apply sys_AddrSpace_lock. intros c lf.
  apply preserves_for_pages. intros current_vaddr.
  apply preserves_bind; [apply sys_get_pte_and_metadata | intros [[pt_page idx] |]];
    [| apply preserves_ret].
  apply preserves_bind; [apply preserves_gets | intros pte].
  apply preserves_bind; [apply preserves_gets | intros metadata].
  destruct (PTE_is_valid pte && bool_decide (status metadata = Mapped));
    [| apply preserves_ret].
  destruct (pfn pte) as [frame |]; [| apply preserves_ret].
  apply preserves_bind; [| intros _].
  { apply sys_update_page; [apply page_step_set_status_COW | done]. }
  apply preserves_bind; [| intros _].
  { apply sys_update_page; [apply page_step_set_rw |].
    intros b pg. apply frames_set_rw. }
  apply preserves_bind; [apply sys_set_cow_refcounts | intros _].
  apply preserves_bind; [apply preserves_gets | intros cnt].
  apply sys_update_page; [apply page_step_set_refcount | done].
Qed.

Lemma sys_inv_fresh : sys_inv None CortenMMSystem_new.
Proof.
  split; [apply inv_fresh |].
  constructor; [apply frames_below_new | constructor].
Qed.

(** After any sequence of system calls on a fresh system, every frame
    held by a PTE is below the allocator's counter: the condition under
    which [cow_resolve] is stated always holds there. *)
Lemma system_calls_frames_issued (os : list operation) :
  Forall system_call os ->
  exists st,
    run_operations os CortenMMSystem_new = Some st /\
    forall p pg i F,
      store st !! p = Some pg -> pfn (get_pte pg i) = Some F -> F < next_pfn st.
Proof.
  intros Hos.
  assert (forall st, sys_inv None st ->
            exists st', run_operations os st = Some st' /\ sys_inv None st') as Hrun.
  { induction Hos as [| o os Ho _ IH]; intros st Hinv; simpl; [eauto |].
    assert (preserves (sys_inv None) (run_operation o)) as Hstep.
    { destruct o; simpl; try done.
      - apply preserves_bind; [apply sys_mmap | intros _; apply preserves_ret].
      - apply preserves_bind; [apply sys_munmap | intros _; apply preserves_ret].
      - apply preserves_bind; [apply sys_page_fault | intros _; apply preserves_ret].
      - apply preserves_bind; [apply sys_fork_cow | intros _; apply preserves_ret].
      - intros st0 [Hi Hf].
        split; [by apply (inv_ext None st0) | by apply (frames_issued_ext st0)]. }
    specialize (Hstep st Hinv).
    destruct (run_operation o st) as [[] st' | e st' |]; [by apply IH | by apply IH | done]. }
  destruct (Hrun _ sys_inv_fresh) as (st & Hst & _ & Hfr).
  exists st. split; [done |]. intros p pg i F Hp HF.
  unfold frames_issued in Hfr. rewrite Forall_lookup in Hfr.
  specialize (Hfr p pg Hp). unfold frames_below in Hfr. rewrite Forall_lookup in Hfr.
  unfold get_pte in HF.
  destruct (ptes pg !! Z.to_nat i) as [e |] eqn:He.
  - rewrite (list_lookup_total_correct _ _ _ He) in HF. exact (Hfr _ e He F HF).
  - rewrite list_lookup_total_alt, He in HF. done.
Qed.

(** What locking the first leaf only does to a mapping that crosses a leaf
    boundary: [mmap(0x1FF000, 0x2000, RW)] returns its start address, but
    the page at [0x200000] has no leaf and faults as invalid, while the
    entry of address [0], which was never mapped, is PrivateAnon. *)
Example scenario_mmap_across_leaves :
  let st := state_after (do_syscall_mmap 0x1FF000 0x2000 3) CortenMMSystem_new in
  do_syscall_mmap 0x1FF000 0x2000 3 CortenMMSystem_new = Ok 0x1FF000 st /\
  leaf_of st 0x1FF000 = Some 3%nat /\
  leaf_of st 0x200000 = None /\
  leaf_of st 0 = Some 3%nat /\
  status (get_metadata (deref st 3) (leaf_index 0)) = PrivateAnon /\
  handle_page_fault 0x200000 true st
  = Ok false (state_after (handle_page_fault 0x200000 true) st).
Proof. cbv zeta. split_all; vm_compute; reflexivity. Qed.

(* ===================================================================== *)
(** ** Further properties of the address arithmetic *)
(* ===================================================================== *)

(** X1: for every integer address, negative ones included, and every number
    of levels, [parse_vaddr] returns exactly [levels] groups, each of them a
    valid index into a page-table page, and the groups do not depend on the
    offset within the page. *)
Theorem parse_vaddr_indices (vaddr : Z) (lv : nat) :
  length (parse_vaddr vaddr lv) = lv /\
  Forall (fun i => 0 <= i < PTES_PER_PAGE) (parse_vaddr vaddr lv) /\
  parse_vaddr (page_align vaddr) lv = parse_vaddr vaddr lv.
Proof.
  split_all.
  - unfold parse_vaddr. by rewrite length_rev, parse_loop_length.
  - apply parse_vaddr_range.
  - apply parse_vaddr_page_align.
Qed.

(** X2: joining the groups of any integer address gives the address
    truncated to its low [9 * levels + 12] bits: bits above the translated
    ones are dropped, and a negative address comes back as a non-negative
    one. *)
Theorem make_vaddr_parse_vaddr_truncates (vaddr : Z) (lv : nat) :
  make_vaddr (parse_vaddr vaddr lv) (vaddr mod PAGE_SIZE)
  = vaddr mod (PAGE_SIZE * PTES_PER_PAGE ^ Z.of_nat lv).
Proof.
  unfold make_vaddr, parse_vaddr, PAGE_SIZE, PTES_PER_PAGE.
  rewrite <- (fold_left_rev_right (fun idx v => Z.lor (Z.shiftl v 9) idx)).
  rewrite rev_involutive, join_parse_loop.
  rewrite Z.shiftr_div_pow2 by lia. change (2 ^ 12) with 4096.
  assert (0 < 512 ^ Z.of_nat lv) by (apply Z.pow_pos_nonneg; lia).
  rewrite lor_shiftl_low; [| lia | change (2 ^ 12) with 4096; apply Z.mod_pos_bound; lia].
  change (2 ^ 12) with 4096.
  rewrite Z.rem_mul_r by lia. lia.
Qed.

Lemma join_snoc (l : list Z) (x : Z) :
  0 <= x < 512 ->
  fold_left (fun v idx => Z.lor (Z.shiftl v 9) idx) (l ++ [x]) 0
  = fold_left (fun v idx => Z.lor (Z.shiftl v 9) idx) l 0 * 512 + x.
Proof.
  intros Hx. rewrite fold_left_app. cbn [fold_left].
  by rewrite lor_shiftl_low by (change (2 ^ 9) with 512; lia).
Qed.

Lemma parse_loop_join (l : list Z) :
  Forall (fun i => 0 <= i < 512) l ->
  parse_loop (length l) (fold_left (fun v idx => Z.lor (Z.shiftl v 9) idx) l 0) []
  = rev l.
Proof.
  induction l as [| x l IH] using rev_ind; intros Hl; [done |].
  apply Forall_app in Hl as [Hl Hx]. apply Forall_inv in Hx. cbv beta in Hx.
  rewrite length_app, Nat.add_comm. cbn [length Nat.add parse_loop app].
  rewrite (join_snoc l x Hx), parse_loop_acc, land_0x1FF, shiftr_9.
  destruct (div_mod_digit (fold_left (fun v idx => Z.lor (Z.shiftl v 9) idx) l 0) x 512 Hx)
    as [-> ->].
  rewrite IH by done. by rewrite rev_app_distr.
Qed.

(** X3: the other direction, for any number of levels: parsing an address
    joined from in-range groups and an in-range offset gives the groups
    back, and the offset is the address modulo the page size. *)
Theorem parse_vaddr_make_vaddr_levels (indices : list Z) (offset : Z) :
  Forall (fun i => 0 <= i < PTES_PER_PAGE) indices ->
  0 <= offset < PAGE_SIZE ->
  parse_vaddr (make_vaddr indices offset) (length indices) = indices /\
  make_vaddr indices offset mod PAGE_SIZE = offset.
Proof.
  unfold PTES_PER_PAGE, PAGE_SIZE. intros Hl Hoff. unfold make_vaddr, parse_vaddr.
  rewrite lor_shiftl_low by (change (2 ^ 12) with 4096; lia).
  change (2 ^ 12) with 4096.
  rewrite Z.shiftr_div_pow2 by lia. change (2 ^ 12) with 4096.
  destruct (div_mod_digit (fold_left (fun v idx => Z.lor (Z.shiftl v 9) idx) indices 0)
              offset 4096 Hoff) as [-> ->].
  split; [| done].
  rewrite parse_loop_join by done. apply rev_involutive.
Qed.

Lemma parse_vaddr_make_vaddr_levels_witness :
  parse_vaddr (make_vaddr [1; 2; 3] 5) (length [1; 2; 3]) = [1; 2; 3] /\
  make_vaddr [1; 2; 3] 5 mod PAGE_SIZE = 5.
Proof.
  apply (parse_vaddr_make_vaddr_levels [1; 2; 3] 5).
  - repeat constructor; unfold PTES_PER_PAGE; lia.
  - unfold PAGE_SIZE; lia.
Defined.

(* ===================================================================== *)
(** ** The reclaimer queue *)
(* ===================================================================== *)

Lemma reclaim_loop_split (now grace : float) (q : list (float * nat)) :
  exists dropped,
    q = dropped ++ reclaim_loop now grace q /\
    Forall (fun e => (grace <=? now - e.1)%float = true) dropped /\
    (forall e, head (reclaim_loop now grace q) = Some e ->
       (grace <=? now - e.1)%float = false).
Proof.
  induction q as [| [ts p] q (dropped & Hq & Hd & Hh)].
  - exists []. split_all; [done | constructor | done].
  - cbn [reclaim_loop]. destruct (grace <=? now - ts)%float eqn:Hexp.
    + exists ((ts, p) :: dropped). split_all.
      * cbn [app]. by f_equal.
      * constructor; [exact Hexp | done].
      * done.
    + exists []. split_all; [done | constructor |].
      intros e [= <-]. exact Hexp.
Qed.

Lemma try_reclaim_free (st : State) :
  rcu_lock st = false ->
  try_reclaim st
  = Ok tt (with_rcu_lock false
             (with_rcu_queue (reclaim_loop (clock st) grace_period (rcu_queue st))
                (with_rcu_lock true st))).
Proof. intros Hfree. unfold try_reclaim, with_mutex. by rewrite Hfree. Qed.

(** X4: [try_reclaim] drops a prefix of the queue and nothing else: of
    every dropped entry the test [now - timestamp >= grace_period] of the
    loop holds, computed on floats as the code computes it; of the entry
    now at the head (if any) it fails; and an entry of which it fails is
    never dropped.  The pages themselves are not touched. *)
Theorem try_reclaim_drops_expired_prefix (st : State) :
  rcu_lock st = false ->
  exists dropped st',
    try_reclaim st = Ok tt st' /\
    rcu_queue st = dropped ++ rcu_queue st' /\
    Forall (fun e => (grace_period <=? clock st - e.1)%float = true) dropped /\
    (forall e, head (rcu_queue st') = Some e ->
       (grace_period <=? clock st - e.1)%float = false) /\
    (forall e, e ∈ rcu_queue st -> (grace_period <=? clock st - e.1)%float = false ->
       e ∈ rcu_queue st') /\
    store st' = store st /\ rcu_lock st' = false.
Proof.
  intros Hfree.
  destruct (reclaim_loop_split (clock st) grace_period (rcu_queue st))
    as (dropped & Hq & Hd & Hh).
  exists dropped. eexists. split; [by apply try_reclaim_free |].
  cbn [rcu_queue store rcu_lock with_rcu_lock with_rcu_queue].
  split_all; try done.
  intros e He Hyoung. rewrite Hq in He.
  apply elem_of_app in He as [He | He]; [| done].
  rewrite Forall_forall in Hd. specialize (Hd e He). congruence.
Qed.

Lemma try_reclaim_drops_expired_prefix_witness :
  exists dropped st',
    try_reclaim two_readings = Ok tt st' /\
    rcu_queue two_readings = dropped ++ rcu_queue st' /\
    Forall (fun e => (grace_period <=? clock two_readings - e.1)%float = true) dropped /\
    (forall e, head (rcu_queue st') = Some e ->
       (grace_period <=? clock two_readings - e.1)%float = false) /\
    (forall e, e ∈ rcu_queue two_readings ->
       (grace_period <=? clock two_readings - e.1)%float = false -> e ∈ rcu_queue st') /\
    store st' = store two_readings /\ rcu_lock st' = false.
Proof.
  apply (try_reclaim_drops_expired_prefix two_readings).
  reflexivity.
Defined.

(** In [two_readings] the first page was queued more than a second ago
    and is dropped.  The second was queued at [1700000000.0000002] and
    the time is [1700000000.0010002]: the difference of the two floats is
    [0.0009999275207519531], below [grace_period], and the page stays. *)
Lemma try_reclaim_two_readings :
  (clock two_readings - 0x1.954fc40000001p+30 = 0x1.062p-10)%float /\
  try_reclaim two_readings
  = Ok tt (with_rcu_queue [(0x1.954fc40000001p+30%float, 8%nat)] two_readings).
Proof. split; vm_compute; reflexivity. Qed.

(* ===================================================================== *)
(** ** Outcomes of faults, fork and munmap on one page *)
(* ===================================================================== *)

Lemma query_leaf (st : State) (c : RCursor) (vaddr : Z) (lf : nat) (pg : PageTablePage) :
  in_cursor_range c vaddr = true ->
  locked_pages c = [lf] ->
  store st !! lf = Some pg ->
  level pg = 0 ->
  RCursor_query c vaddr st = Ok (status (get_metadata pg (leaf_index vaddr))) st.
Proof.
  intros Hrange Hc Hpg Hlevel. unfold RCursor_query, bind. rewrite Hrange, Hc.
  unfold assert, ret, gets.
  rewrite first_leaf_single, (lookup_total_lookup _ _ _ Hpg).
  unfold is_leaf. rewrite Hlevel. cbn [Z.eqb].
  by rewrite (deref_lookup _ _ _ Hpg).
Qed.

Lemma get_pte_and_metadata_leaf (st : State) (c : RCursor) (vaddr : Z) (lf : nat)
    (pg : PageTablePage) :
  in_cursor_range c vaddr = true ->
  locked_pages c = [lf] ->
  store st !! lf = Some pg ->
  level pg = 0 ->
  RCursor_get_pte_and_metadata c vaddr st = Ok (Some (lf, leaf_index vaddr)) st.
Proof.
  intros Hrange Hc Hpg Hlevel. unfold RCursor_get_pte_and_metadata, bind.
  rewrite Hrange, Hc. unfold assert, ret, gets.
  rewrite first_leaf_single, (lookup_total_lookup _ _ _ Hpg).
  unfold is_leaf. rewrite Hlevel. cbn [Z.eqb]. reflexivity.
Qed.

(** The state after a scope that changed nothing: the reclaimer queue has
    been trimmed on the way out. *)
Lemma exit_locked_state (st : State) (lf : nat) (pg : PageTablePage) :
  store st !! lf = Some pg ->
  lock (descriptor pg) = false ->
  rcu_lock st = false ->
  exit_state lf (locked_state lf st)
  = with_rcu_queue (reclaim_loop (clock st) grace_period (rcu_queue st)) st.
Proof.
  intros Hpg Hlock Hrcu. unfold exit_state.
  rewrite (unlock_locked_state _ _ _ Hpg Hlock).
  destruct st. cbn in *. by subst.
Qed.

(** A scope over a ready leaf whose body leaves the state as it found it:
    the body's outcome, returned or raised, is the scope's. *)
Lemma scope_read_only {A} (st : State) (vstart vend vaddr : Z) (body : RCursor -> M A)
    (lf : nat) (pg : PageTablePage) :
  leaf_ready st vaddr lf pg ->
  page_align vstart = page_align vaddr ->
  let c := mkCursor (page_align vstart) (page_align_up vend) [lf] false in
  let st' := with_rcu_queue (reclaim_loop (clock st) grace_period (rcu_queue st)) st in
  (forall r, body c (locked_state lf st) = Ok r (locked_state lf st) ->
     AddrSpace_lock vstart vend false body st = Ok r st') /\
  (forall e, body c (locked_state lf st) = Raise e (locked_state lf st) ->
     AddrSpace_lock vstart vend false body st = Raise e st').
Proof.
  intros Hready Halign c st'.
  pose proof Hready as [Hleaf Hpg Hlevel Hptes Hmeta Hlk Hstale Hrcu Hpfn].
  assert (leaf_of st vstart = Some lf) as Hleaf'.
  { by rewrite <- leaf_of_page_align, Halign, leaf_of_page_align. }
  pose proof (locked_state_lookup _ _ _ Hpg) as Hlocked.
  assert ((let* _ := RCursor_release c in try_reclaim) (locked_state lf st) = Ok tt st')
    as Hexit.
  { rewrite (scope_exit _ c lf _ eq_refl eq_refl Hlocked eq_refl Hrcu).
    by rewrite (exit_locked_state _ _ _ Hpg Hlk Hrcu). }
  split; intros r Hbody;
    rewrite (AddrSpace_lock_live _ _ _ _ _ _ Hleaf' Hpg Hlk Hstale);
    cbv zeta; fold c; unfold finally; rewrite Hbody, Hexit; reflexivity.
Qed.

(** A fault on a PrivateAnon entry, with the entry and the counters it
    leaves behind. *)
Lemma fault_private_anon_entry (st : State) (a : Z) (is_write : bool) (lf : nat)
    (pg : PageTablePage) :
  leaf_ready st a lf pg ->
  status (get_metadata pg (leaf_index a)) = PrivateAnon ->
  exists st' pg',
    handle_page_fault a is_write st = Ok true st' /\
    leaf_ready st' a lf pg' /\
    get_pte pg' (leaf_index a)
    = map_pte (next_pfn st) true (get_pte pg (leaf_index a)) /\
    get_metadata pg' (leaf_index a)
    = map_metadata true (get_metadata pg (leaf_index a)) /\
    next_pfn st' = next_pfn st + 1 /\ cow_refcounts st' = cow_refcounts st.
Proof.
  intros Hready Hstatus. unfold handle_page_fault, catch.
  pose proof Hready as [Hleaf Hpg Hlevel Hptes Hmeta Hlk Hstale Hrcu Hpfn].
  pose proof (locked_state_lookup _ _ _ Hpg) as Hlocked.
  assert (in_cursor_range
            (mkCursor (page_align (page_align a)) (page_align_up (page_align a + 0x1000))
               [lf] false) a = true) as Hrange by apply fault_cursor_range.
  match goal with
  | |- context [AddrSpace_lock _ _ _ ?body _] =>
      edestruct (scope_page_step st st
               (with_store (alter (mapped_page (leaf_index a) (next_pfn st) true) lf)
                  (with_next_pfn (next_pfn st + 1) (locked_state lf st)))
               (page_align a) (page_align a + 0x1000) a false
               body lf pg (mapped_page (leaf_index a) (next_pfn st) true) true
               (leaf_ready_lock_attempts _ _ _ _ _ _ Hready (page_align_idem a)) Hready)
        as (st' & Hscope & Hready' & Hnext & Hcow)
  end.
  - erewrite bind_ok; [| by apply (query_leaf _ _ _ lf _ Hrange eq_refl Hlocked)].
    rewrite get_metadata_set_lock, Hstatus.
    rewrite (bind_ok _ _ _ _ _ (allocate_pfn_free (locked_state lf st) Hpfn)).
    change (next_pfn (locked_state lf st)) with (next_pfn st).
    erewrite bind_ok;
      [| apply (RCursor_map_leaf (with_next_pfn (next_pfn st + 1) (locked_state lf st))
                  _ a _ true lf _ Hrange eq_refl Hlocked Hlevel)].
    reflexivity.
  - reflexivity.
  - reflexivity.
  - reflexivity.
  - reflexivity.
  - reflexivity.
  - apply page_step_mapped_page.
  - rewrite Hscope. eexists _, _. split; [reflexivity |]. split; [exact Hready' |].
    split_all; [| | exact Hnext | exact Hcow];
      pose proof (leaf_index_nat a); entry_simp; done.
Qed.

(** X6: the first access to a lazily allocated page, read or write, maps
    the next frame of the allocator writable and user-accessible, sets the
    status to Mapped and the software permissions to 7 whatever they were,
    and advances the allocator by one; the refcount map is not touched. *)
Theorem fault_private_anon_maps_writable (st : State) (a : Z) (is_write : bool)
    (lf : nat) (pg : PageTablePage) :
  leaf_ready st a lf pg ->
  status (get_metadata pg (leaf_index a)) = PrivateAnon ->
  exists st' pg',
    handle_page_fault a is_write st = Ok true st' /\
    leaf_ready st' a lf pg' /\
    pfn (get_pte pg' (leaf_index a)) = Some (next_pfn st) /\
    present (get_pte pg' (leaf_index a)) = true /\
    rw (get_pte pg' (leaf_index a)) = true /\
    user (get_pte pg' (leaf_index a)) = true /\
    status (get_metadata pg' (leaf_index a)) = Mapped /\
    soft_perm (get_metadata pg' (leaf_index a)) = 7 /\
    refcount (get_metadata pg' (leaf_index a)) = refcount (get_metadata pg (leaf_index a)) /\
    next_pfn st' = next_pfn st + 1 /\ cow_refcounts st' = cow_refcounts st.
Proof.
  intros Hready Hstatus.
  destruct (fault_private_anon_entry st a is_write lf pg Hready Hstatus)
    as (st' & pg' & Hrun & Hready' & Hpte & Hmeta & Hnext & Hcow).
  exists st', pg'. rewrite Hpte, Hmeta. by split_all.
Qed.

Lemma fault_private_anon_maps_writable_witness :
  exists st' pg',
    handle_page_fault 0x400000 false one_region = Ok true st' /\
    leaf_ready st' 0x400000 3%nat pg' /\
    pfn (get_pte pg' (leaf_index 0x400000)) = Some (next_pfn one_region) /\
    present (get_pte pg' (leaf_index 0x400000)) = true /\
    rw (get_pte pg' (leaf_index 0x400000)) = true /\
    user (get_pte pg' (leaf_index 0x400000)) = true /\
    status (get_metadata pg' (leaf_index 0x400000)) = Mapped /\
    soft_perm (get_metadata pg' (leaf_index 0x400000)) = 7 /\
    refcount (get_metadata pg' (leaf_index 0x400000))
    = refcount (get_metadata (deref one_region 3) (leaf_index 0x400000)) /\
    next_pfn st' = next_pfn one_region + 1 /\
    cow_refcounts st' = cow_refcounts one_region.
Proof.
  apply (fault_private_anon_maps_writable one_region 0x400000 false 3%nat
           (deref one_region 3)).
  - constructor; vm_compute; reflexivity.
  - vm_compute; reflexivity.
Defined.

(** X7: a fault on an entry that is Mapped changes nothing but the
    reclaimer queue, which is trimmed on the way out: no frame is
    allocated, whatever the access.  The answer is false exactly for a
    write to an entry whose PTE is read-only. *)
Theorem fault_on_mapped_entry (st : State) (a : Z) (is_write : bool)
    (lf : nat) (pg : PageTablePage) :
  leaf_ready st a lf pg ->
  status (get_metadata pg (leaf_index a)) = Mapped ->
  handle_page_fault a is_write st
  = Ok (negb (is_write && negb (rw (get_pte pg (leaf_index a)))))
       (with_rcu_queue (reclaim_loop (clock st) grace_period (rcu_queue st)) st).
Proof.
  intros Hready Hstatus. unfold handle_page_fault, catch.
  pose proof Hready as [Hleaf Hpg Hlevel Hptes Hmeta Hlk Hstale Hrcu Hpfn].
  pose proof (locked_state_lookup _ _ _ Hpg) as Hlocked.
  assert (in_cursor_range
            (mkCursor (page_align (page_align a)) (page_align_up (page_align a + 0x1000))
               [lf] false) a = true) as Hrange by apply fault_cursor_range.
  match goal with
  | |- context [AddrSpace_lock _ _ _ ?body _] =>
      destruct (scope_read_only st (page_align a) (page_align a + 0x1000) a body lf pg
                  Hready (page_align_idem a)) as [Hok _]
  end.
  rewrite (Hok (negb (is_write && negb (rw (get_pte pg (leaf_index a)))))); [done |].
  erewrite bind_ok; [| by apply (query_leaf _ _ _ lf _ Hrange eq_refl Hlocked)].
  rewrite get_metadata_set_lock, Hstatus.
  erewrite bind_ok;
    [| by apply (get_pte_and_metadata_leaf _ _ _ lf _ Hrange eq_refl Hlocked)].
  unfold bind, gets. rewrite (deref_lookup _ _ _ Hlocked).
  rewrite get_pte_set_descriptor.
  destruct (is_write && negb (rw (get_pte pg (leaf_index a)))); [| done].
  by destruct (negb (_ =? 0)).
Qed.

Lemma fault_on_mapped_entry_witness :
  handle_page_fault 0x30000 true
    (state_after (handle_page_fault 0x30000 true)
       (state_after (do_syscall_mmap 0x30000 0x1000 3) CortenMMSystem_new))
  = Ok true
      (state_after (handle_page_fault 0x30000 true)
         (state_after (do_syscall_mmap 0x30000 0x1000 3) CortenMMSystem_new)).
Proof.
  set (st := state_after (handle_page_fault 0x30000 true)
               (state_after (do_syscall_mmap 0x30000 0x1000 3) CortenMMSystem_new)).
  rewrite (fault_on_mapped_entry st 0x30000 true 3%nat (deref st 3)).
  - vm_compute; reflexivity.
  - constructor; vm_compute; reflexivity.
  - vm_compute; reflexivity.
Defined.

(** X8: a fault on an entry whose status is Invalid or FileMapped, on an
    existing leaf, is refused: the handler returns false, and nothing but
    the reclaimer queue changes. *)
Theorem fault_on_unmapped_entry (st : State) (a : Z) (is_write : bool)
    (lf : nat) (pg : PageTablePage) :
  leaf_ready st a lf pg ->
  status (get_metadata pg (leaf_index a)) = Invalid \/
  status (get_metadata pg (leaf_index a)) = FileMapped ->
  handle_page_fault a is_write st
  = Ok false (with_rcu_queue (reclaim_loop (clock st) grace_period (rcu_queue st)) st).
Proof.
  intros Hready Hstatus. unfold handle_page_fault, catch.
  pose proof Hready as [Hleaf Hpg Hlevel Hptes Hmeta Hlk Hstale Hrcu Hpfn].
  pose proof (locked_state_lookup _ _ _ Hpg) as Hlocked.
  assert (in_cursor_range
            (mkCursor (page_align (page_align a)) (page_align_up (page_align a + 0x1000))
               [lf] false) a = true) as Hrange by apply fault_cursor_range.
  match goal with
  | |- context [AddrSpace_lock _ _ _ ?body _] =>
      destruct (scope_read_only st (page_align a) (page_align a + 0x1000) a body lf pg
                  Hready (page_align_idem a)) as [Hok _]
  end.
  rewrite (Hok false); [done |].
  erewrite bind_ok; [| by apply (query_leaf _ _ _ lf _ Hrange eq_refl Hlocked)].
  rewrite get_metadata_set_lock. by destruct Hstatus as [-> | ->].
Qed.

Lemma fault_on_unmapped_entry_witness :
  handle_page_fault 0x401000 true one_region
  = Ok false
      (with_rcu_queue (reclaim_loop (clock one_region) grace_period (rcu_queue one_region))
         one_region).
Proof.
  apply (fault_on_unmapped_entry one_region 0x401000 true 3%nat (deref one_region 3)).
  - constructor; vm_compute; reflexivity.
  - left. vm_compute; reflexivity.
Defined.

(** X9: a read fault on a COW entry changes nothing but the reclaimer
    queue; it is handled exactly when the PTE is valid. *)
Theorem read_fault_on_cow_entry (st : State) (a : Z) (lf : nat) (pg : PageTablePage) :
  leaf_ready st a lf pg ->
  status (get_metadata pg (leaf_index a)) = COW ->
  handle_page_fault a false st
  = Ok (PTE_is_valid (get_pte pg (leaf_index a)))
       (with_rcu_queue (reclaim_loop (clock st) grace_period (rcu_queue st)) st).
Proof.
  intros Hready Hstatus. unfold handle_page_fault, catch.
  pose proof Hready as [Hleaf Hpg Hlevel Hptes Hmeta Hlk Hstale Hrcu Hpfn].
  pose proof (locked_state_lookup _ _ _ Hpg) as Hlocked.
  assert (in_cursor_range
            (mkCursor (page_align (page_align a)) (page_align_up (page_align a + 0x1000))
               [lf] false) a = true) as Hrange by apply fault_cursor_range.
  match goal with
  | |- context [AddrSpace_lock _ _ _ ?body _] =>
      destruct (scope_read_only st (page_align a) (page_align a + 0x1000) a body lf pg
                  Hready (page_align_idem a)) as [Hok _]
  end.
  rewrite (Hok (PTE_is_valid (get_pte pg (leaf_index a)))); [done |].
  erewrite bind_ok; [| by apply (query_leaf _ _ _ lf _ Hrange eq_refl Hlocked)].
  rewrite get_metadata_set_lock, Hstatus. cbn [negb].
  erewrite bind_ok;
    [| by apply (get_pte_and_metadata_leaf _ _ _ lf _ Hrange eq_refl Hlocked)].
  unfold bind, gets. rewrite (deref_lookup _ _ _ Hlocked).
  rewrite get_pte_set_descriptor.
  by destruct (PTE_is_valid (get_pte pg (leaf_index a))).
Qed.

Lemma read_fault_on_cow_entry_witness :
  handle_page_fault 0x30000 false shared_page
  = Ok (PTE_is_valid (get_pte (deref shared_page 3) (leaf_index 0x30000)))
       (with_rcu_queue (reclaim_loop (clock shared_page) grace_period (rcu_queue shared_page))
          shared_page).
Proof.
  apply (read_fault_on_cow_entry shared_page 0x30000 3%nat (deref shared_page 3)).
  - constructor; vm_compute; reflexivity.
  - vm_compute; reflexivity.
Defined.

Lemma aligned_cursor_range (a : Z) (l : list nat) (r : bool) :
  a mod 4096 = 0 ->
  in_cursor_range (mkCursor (page_align a) (page_align_up (a + 4096)) l r) a = true.
Proof.
  intros Ha. unfold in_cursor_range. cbn [vaddr_start vaddr_end].
  rewrite (page_align_aligned a Ha), (page_align_up_aligned a Ha).
  apply andb_true_iff. split; [apply Z.leb_le | apply Z.ltb_lt]; lia.
Qed.

(** The three assignments of [do_fork_cow] to a shared entry. *)
Lemma page_step_fork_cow (i cnt : Z) :
  page_step (fun pg => update_metadata i (set_refcount cnt)
                         (update_pte i (PTE_set_rw false)
                            (update_metadata i (set_status COW) pg))).
Proof.
  apply (page_step_compose (update_metadata i (set_refcount cnt))
           (fun pg => update_pte i (PTE_set_rw false)
                        (update_metadata i (set_status COW) pg))).
  - apply page_step_set_refcount.
  - apply (page_step_compose (update_pte i (PTE_set_rw false))).
    + apply page_step_set_rw.
    + apply page_step_set_status_COW.
Qed.

(** X10: [do_fork_cow] on one page whose entry is Mapped with a valid PTE
    holding frame [F]: the call returns true, the status becomes COW, the
    PTE loses its rw bit and keeps its frame, the global refcount of [F]
    goes from [cow_refcounts.get(F, 1)] to one more, and the refcount kept
    in the metadata equals the global one.  No frame is allocated. *)
Theorem fork_cow_shares_mapped_page (st : State) (a F : Z) (lf : nat)
    (pg : PageTablePage) :
  let idx := leaf_index a in
  leaf_ready st a lf pg ->
  a mod 4096 = 0 ->
  status (get_metadata pg idx) = Mapped ->
  present (get_pte pg idx) = true ->
  pfn (get_pte pg idx) = Some F ->
  exists st' pg',
    do_fork_cow a 4096 st = Ok true st' /\
    leaf_ready st' a lf pg' /\
    get_pte pg' idx = PTE_set_rw false (get_pte pg idx) /\
    status (get_metadata pg' idx) = COW /\
    refcount (get_metadata pg' idx) = cow_refcount st F + 1 /\
    soft_perm (get_metadata pg' idx) = soft_perm (get_metadata pg idx) /\
    cow_refcounts st' = <[F := cow_refcount st F + 1]> (cow_refcounts st) /\
    cow_refcount st' F = refcount (get_metadata pg' idx) /\
    next_pfn st' = next_pfn st.
Proof.
  intros idx Hready Ha Hstatus Hpresent Hframe. unfold do_fork_cow, catch.
  rewrite (page_align_aligned a Ha), (page_align_up_aligned a Ha).
  pose proof Hready as [Hleaf Hpg Hlevel Hptes Hmeta Hlk Hstale Hrcu Hpfn].
  pose proof (locked_state_lookup _ _ _ Hpg) as Hlocked.
  pose proof (aligned_cursor_range a [lf] false Ha) as Hrange.
  set (cnt := cow_refcount st F + 1).
  set (G := fun pg => update_metadata idx (set_refcount cnt)
                        (update_pte idx (PTE_set_rw false)
                           (update_metadata idx (set_status COW) pg))).
  match goal with
  | |- context [AddrSpace_lock _ _ _ ?body] =>
      edestruct (scope_page_step st st
               (with_store (alter G lf)
                  (with_cow_refcounts (<[F := cnt]> (cow_refcounts st)) (locked_state lf st)))
               a (a + 4096) a false body lf pg G tt
               (leaf_ready_lock_attempts _ _ _ _ _ _ Hready eq_refl) Hready)
        as (st' & Hscope & Hready' & Hnext & Hcow)
  end.
  - rewrite for_pages_one.
    erewrite bind_ok;
      [| by apply (get_pte_and_metadata_leaf _ _ _ lf _ Hrange eq_refl Hlocked)].
    fold idx. unfold bind at 1. unfold gets at 1. unfold bind at 1. unfold gets at 1.
    rewrite (deref_lookup _ _ _ Hlocked).
    rewrite get_pte_set_descriptor, get_metadata_set_lock.
    unfold PTE_is_valid. rewrite Hpresent, Hframe, Hstatus.
    rewrite !bool_decide_true by done. cbn [andb].
    unfold bind, update_page, modify, gets. cbv beta iota.
    f_equal. unfold cow_refcount at 1.
    cbn [cow_refcounts with_cow_refcounts with_store].
    change (cow_refcount (with_store _ (with_store _ (locked_state lf st))) F)
      with (cow_refcount st F).
    rewrite lookup_insert_eq. cbn [default from_option]. fold cnt.
    destruct st. unfold with_store, with_cow_refcounts, locked_state. cbn.
    f_equal. by rewrite !alter_alter.
  - cbn [store with_store with_cow_refcounts]. reflexivity.
  - reflexivity.
  - reflexivity.
  - reflexivity.
  - reflexivity.
  - apply page_step_fork_cow.
  - unfold bind at 1. rewrite Hscope. unfold ret.
    eexists _, _. split; [reflexivity |]. split; [exact Hready' |].
    rewrite Hnext. unfold cow_refcount at 1. rewrite Hcow.
    cbn [cow_refcounts next_pfn with_store with_cow_refcounts locked_state].
    rewrite lookup_insert_eq. cbn [default from_option].
    pose proof (leaf_index_nat a) as Hidx. fold idx in Hidx.
    subst G. entry_simp. by split_all.
Qed.

Lemma fork_cow_shares_mapped_page_witness :
  let st := state_after (handle_page_fault 0x30000 true)
              (state_after (do_syscall_mmap 0x30000 0x1000 3) CortenMMSystem_new) in
  let idx := leaf_index 0x30000 in
  exists st' pg',
    do_fork_cow 0x30000 4096 st = Ok true st' /\
    leaf_ready st' 0x30000 3%nat pg' /\
    get_pte pg' idx = PTE_set_rw false (get_pte (deref st 3) idx) /\
    status (get_metadata pg' idx) = COW /\
    refcount (get_metadata pg' idx) = cow_refcount st 0x1000 + 1 /\
    soft_perm (get_metadata pg' idx) = soft_perm (get_metadata (deref st 3) idx) /\
    cow_refcounts st' = <[0x1000 := cow_refcount st 0x1000 + 1]> (cow_refcounts st) /\
    cow_refcount st' 0x1000 = refcount (get_metadata pg' idx) /\
    next_pfn st' = next_pfn st.
Proof.
  intros st idx.
  apply (fork_cow_shares_mapped_page st 0x30000 0x1000 3%nat (deref st 3)).
  - constructor; vm_compute; reflexivity.
  - reflexivity.
  - vm_compute; reflexivity.
  - vm_compute; reflexivity.
  - vm_compute; reflexivity.
Defined.

(** X11: [do_fork_cow] on one page whose entry is not Mapped, or whose PTE
    is not valid, returns true and changes nothing but the reclaimer queue:
    a lazily allocated page that was never touched is not shared, and a
    page that is COW already is not counted a second time. *)
Theorem fork_cow_skips_other_entries (st : State) (a : Z) (lf : nat)
    (pg : PageTablePage) :
  leaf_ready st a lf pg ->
  a mod 4096 = 0 ->
  status (get_metadata pg (leaf_index a)) <> Mapped \/
  PTE_is_valid (get_pte pg (leaf_index a)) = false ->
  do_fork_cow a 4096 st
  = Ok true (with_rcu_queue (reclaim_loop (clock st) grace_period (rcu_queue st)) st).
Proof.
  intros Hready Ha Hskip. unfold do_fork_cow, catch.
  rewrite (page_align_aligned a Ha), (page_align_up_aligned a Ha).
  pose proof Hready as [Hleaf Hpg Hlevel Hptes Hmeta Hlk Hstale Hrcu Hpfn].
  pose proof (locked_state_lookup _ _ _ Hpg) as Hlocked.
  pose proof (aligned_cursor_range a [lf] false Ha) as Hrange.
  match goal with
  | |- context [AddrSpace_lock _ _ _ ?body] =>
      destruct (scope_read_only st a (a + 4096) a body lf pg Hready eq_refl) as [Hok _]
  end.
  unfold bind at 1. rewrite (Hok tt); [done |].
  rewrite for_pages_one.
  erewrite bind_ok;
    [| by apply (get_pte_and_metadata_leaf _ _ _ lf _ Hrange eq_refl Hlocked)].
  unfold bind, gets. rewrite (deref_lookup _ _ _ Hlocked).
  rewrite get_pte_set_descriptor, get_metadata_set_lock.
  destruct Hskip as [Hs | Hv].
  - rewrite (bool_decide_false _ Hs), andb_false_r. done.
  - rewrite Hv. done.
Qed.

Lemma fork_cow_skips_other_entries_witness :
  do_fork_cow 0x30000 4096 shared_page
  = Ok true (with_rcu_queue (reclaim_loop (clock shared_page) grace_period (rcu_queue shared_page))
               shared_page).
Proof.
  apply (fork_cow_skips_other_entries shared_page 0x30000 3%nat (deref shared_page 3)).
  - constructor; vm_compute; reflexivity.
  - reflexivity.
  - left. vm_compute. discriminate.
Defined.

(* ===================================================================== *)
(** ** Cursor calls inside one scope *)
(* ===================================================================== *)

Lemma RCursor_unmap_leaf (st : State) (c : RCursor) (vaddr : Z)
    (lf : nat) (pg : PageTablePage) :
  in_cursor_range c vaddr = true ->
  locked_pages c = [lf] ->
  store st !! lf = Some pg ->
  level pg = 0 ->
  RCursor_unmap c vaddr st
  = Ok tt (with_store (alter (unmapped_page (leaf_index vaddr)) lf) st).
Proof.
  intros Hrange Hc Hpg Hlevel. unfold RCursor_unmap.
  rewrite Hrange, Hc. unfold assert, bind at 1, ret at 1.
  unfold bind at 1, gets at 1.
  rewrite first_leaf_single, (lookup_total_lookup _ _ _ Hpg).
  unfold is_leaf. rewrite Hlevel. cbn [Z.eqb].
  unfold bind, update_page, modify.
  by rewrite !with_store_alter_alter.
Qed.

(** X12: inside one scope over a ready leaf, [map] of an address of the
    range followed by [query] gives Mapped, and [unmap] followed by
    [query] gives Invalid.  Afterwards the PTE has no frame and is not
    present, writable, accessed or dirty, its user bit is set whatever it
    was before, the metadata is Invalid with permissions and refcount 0,
    and the version of the leaf has advanced by two.  The scope returns
    and leaves the leaf unlocked. *)
Theorem scope_map_unmap_roundtrip (st : State) (vstart vend vaddr pfn' : Z)
    (writable : bool) (lf : nat) (pg : PageTablePage) :
  let idx := leaf_index vaddr in
  leaf_ready st vstart lf pg ->
  page_align vstart <= vaddr < page_align_up vend ->
  exists st' pg',
    AddrSpace_lock vstart vend false
      (fun c =>
         let* _ := RCursor_map c vaddr pfn' writable in
         let* s1 := RCursor_query c vaddr in
         let* _ := RCursor_unmap c vaddr in
         let* s2 := RCursor_query c vaddr in
         ret (s1, s2)) st
    = Ok (Mapped, Invalid) st' /\
    leaf_ready st' vstart lf pg' /\
    get_pte pg' idx = mkPTE None false false true false false /\
    get_metadata pg' idx = mkMeta Invalid 0 0 (file_offset (get_metadata pg idx)) /\
    version (descriptor pg') = version (descriptor pg) + 2 /\
    (forall j, 0 <= j < 512 -> j <> idx ->
       get_pte pg' j = get_pte pg j /\ get_metadata pg' j = get_metadata pg j).
Proof.
  intros idx Hready Hv.
  pose proof Hready as [Hleaf Hpg Hlevel Hptes Hmeta Hlk Hstale Hrcu Hpfn].
  pose proof (locked_state_lookup _ _ _ Hpg) as Hlocked.
  set (c := mkCursor (page_align vstart) (page_align_up vend) [lf] false).
  assert (in_cursor_range c vaddr = true) as Hrange.
  { unfold in_cursor_range. cbn [vaddr_start vaddr_end c].
    apply andb_true_iff. split; [apply Z.leb_le | apply Z.ltb_lt]; lia. }
  set (G := fun x => unmapped_page idx (mapped_page idx pfn' writable x)).
  assert (page_step G) as HG.
  { apply (page_step_compose (unmapped_page idx) (mapped_page idx pfn' writable));
      [apply page_step_unmapped_page | apply page_step_mapped_page]. }
  pose proof (leaf_index_nat vaddr) as Hidx. fold idx in Hidx.
  match goal with
  | |- context [AddrSpace_lock _ _ _ ?body] =>
      edestruct (scope_page_step st st (with_store (alter G lf) (locked_state lf st))
                   vstart vend vstart false body lf pg G (Mapped, Invalid)
                   (leaf_ready_lock_attempts _ _ _ _ _ _ Hready eq_refl) Hready)
        as (st' & Hscope & Hready' & _)
  end.
  - fold c.
    rewrite (bind_ok _ _ _ _ _
               (RCursor_map_leaf _ c vaddr pfn' writable lf _ Hrange eq_refl Hlocked Hlevel)).
    fold idx.
    set (st1 := with_store (alter (mapped_page idx pfn' writable) lf) (locked_state lf st)).
    assert (store st1 !! lf
            = Some (mapped_page idx pfn' writable (set_descriptor (set_lock true) pg)))
      as Hpg1 by (by apply store_alter_lookup).
    erewrite bind_ok; [| by apply (query_leaf st1 c vaddr lf _ Hrange eq_refl Hpg1)].
    assert (level (mapped_page idx pfn' writable (set_descriptor (set_lock true) pg)) = 0)
      as Hlevel1 by done.
    rewrite (bind_ok _ _ _ _ _
               (RCursor_unmap_leaf st1 c vaddr lf _ Hrange eq_refl Hpg1 Hlevel1)).
    fold idx.
    set (st2 := with_store (alter (unmapped_page idx) lf) st1).
    assert (store st2 !! lf
            = Some (G (set_descriptor (set_lock true) pg)))
      as Hpg2 by (unfold G; apply (store_alter_lookup st1 _ lf _ Hpg1)).
    erewrite bind_ok; [| by apply (query_leaf st2 c vaddr lf _ Hrange eq_refl Hpg2)].
    unfold ret. fold idx. f_equal.
    + f_equal; subst G; entry_simp; reflexivity.
    + unfold st2, st1. by rewrite with_store_alter_alter.
  - reflexivity.
  - reflexivity.
  - reflexivity.
  - reflexivity.
  - reflexivity.
  - exact HG.
  - exists st'. eexists. split; [exact Hscope |]. split; [exact Hready' |].
    subst G. split_all.
    + entry_simp. reflexivity.
    + entry_simp. reflexivity.
    + unfold unmapped_page, mapped_page, set_descriptor, increment_version, set_lock.
      cbn [descriptor version update_metadata update_pte set_descriptor set_ptes
           set_metadata]. lia.
    + intros j Hj Hne.
      pose proof (leaf_index_range vaddr) as Hi. fold idx in Hi.
      unfold unmapped_page, mapped_page.
      rewrite !get_pte_set_descriptor, !get_metadata_set_lock,
        !get_metadata_increment_version.
      rewrite get_pte_update_metadata, get_metadata_update_metadata_ne by lia.
      rewrite get_metadata_update_pte, get_pte_update_pte_ne by lia.
      rewrite get_pte_set_descriptor, get_metadata_increment_version.
      rewrite get_pte_update_metadata, get_metadata_update_metadata_ne by lia.
      rewrite get_metadata_update_pte, get_pte_update_pte_ne by lia.
      by rewrite get_pte_set_descriptor, get_metadata_set_lock.
Qed.

Lemma scope_map_unmap_roundtrip_witness :
  let idx := leaf_index 0x400000 in
  exists st' pg',
    AddrSpace_lock 0x400000 0x401000 false
      (fun c =>
         let* _ := RCursor_map c 0x400000 0x77 false in
         let* s1 := RCursor_query c 0x400000 in
         let* _ := RCursor_unmap c 0x400000 in
         let* s2 := RCursor_query c 0x400000 in
         ret (s1, s2)) one_region
    = Ok (Mapped, Invalid) st' /\
    leaf_ready st' 0x400000 3%nat pg' /\
    get_pte pg' idx = mkPTE None false false true false false /\
    get_metadata pg' idx
    = mkMeta Invalid 0 0 (file_offset (get_metadata (deref one_region 3) idx)) /\
    version (descriptor pg') = version (descriptor (deref one_region 3)) + 2 /\
    (forall j, 0 <= j < 512 -> j <> idx ->
       get_pte pg' j = get_pte (deref one_region 3) j /\
       get_metadata pg' j = get_metadata (deref one_region 3) j).
Proof.
  apply (scope_map_unmap_roundtrip one_region 0x400000 0x401000 0x400000 0x77 false
           3%nat (deref one_region 3)).
  - constructor; vm_compute; reflexivity.
  - vm_compute. split; [discriminate | reflexivity].
Defined.

(* ===================================================================== *)
(** ** Failing calls *)
(* ===================================================================== *)

(** X13: inside a scope, [query], [map] and [unmap] on an address outside
    the cursor's page-aligned range raise AssertionError before they look
    at the page; the exception leaves the scope, the leaf's lock is
    released on the way out, and nothing but the reclaimer queue has
    changed. *)
Theorem cursor_call_outside_range (st : State) (vstart vend vaddr pfn' : Z)
    (writable : bool) (lf : nat) (pg : PageTablePage) :
  leaf_ready st vstart lf pg ->
  vaddr < page_align vstart \/ page_align_up vend <= vaddr ->
  let st' := with_rcu_queue (reclaim_loop (clock st) grace_period (rcu_queue st)) st in
  AddrSpace_lock vstart vend false (fun c => RCursor_query c vaddr) st
  = Raise AssertionError st' /\
  AddrSpace_lock vstart vend false (fun c => RCursor_map c vaddr pfn' writable) st
  = Raise AssertionError st' /\
  AddrSpace_lock vstart vend false (fun c => RCursor_unmap c vaddr) st
  = Raise AssertionError st'.
Proof.
  intros Hready Hout st'.
  assert (in_cursor_range (mkCursor (page_align vstart) (page_align_up vend) [lf] false)
            vaddr = false) as Hrange.
  { unfold in_cursor_range. cbn [vaddr_start vaddr_end].
    apply andb_false_iff. destruct Hout; [left; apply Z.leb_gt | right; apply Z.ltb_ge]; lia. }
  split_all.
  - apply (proj2 (scope_read_only st vstart vend vstart
                    (fun c => RCursor_query c vaddr) lf pg Hready eq_refl)).
    unfold RCursor_query, bind. by rewrite Hrange.
  - apply (proj2 (scope_read_only st vstart vend vstart
                    (fun c => RCursor_map c vaddr pfn' writable) lf pg Hready eq_refl)).
    unfold RCursor_map, bind. by rewrite Hrange.
  - apply (proj2 (scope_read_only st vstart vend vstart
                    (fun c => RCursor_unmap c vaddr) lf pg Hready eq_refl)).
    unfold RCursor_unmap, bind. by rewrite Hrange.
Qed.

Lemma cursor_call_outside_range_witness :
  let st' := with_rcu_queue (reclaim_loop (clock one_region) grace_period (rcu_queue one_region))
               one_region in
  AddrSpace_lock 0x400000 0x401000 false (fun c => RCursor_query c 0x401000) one_region
  = Raise AssertionError st' /\
  AddrSpace_lock 0x400000 0x401000 false (fun c => RCursor_map c 0x401000 7 true) one_region
  = Raise AssertionError st' /\
  AddrSpace_lock 0x400000 0x401000 false (fun c => RCursor_unmap c 0x401000) one_region
  = Raise AssertionError st'.
Proof.
  apply (cursor_call_outside_range one_region 0x400000 0x401000 0x401000 7 true 3%nat
           (deref one_region 3)).
  - constructor; vm_compute; reflexivity.
  - right. vm_compute. discriminate.
Defined.

(** X14: when the leaf reached for an address is marked stale while still
    linked into the tree, every round of the retry loop of [lock] fails
    and the tenth raises RuntimeError; the system calls turn that into
    their failure values: [mmap] and [munmap] return -1, the fault handler
    and [do_fork_cow] return false.  The state is left as it was. *)
Theorem calls_on_stale_leaf (st : State) (vaddr length prot : Z) (is_write : bool)
    (lf : nat) (pg : PageTablePage) :
  leaf_of st vaddr = Some lf ->
  store st !! lf = Some pg ->
  lock (descriptor pg) = false ->
  is_stale (descriptor pg) = true ->
  do_syscall_mmap vaddr length prot st = Ok (-1) st /\
  do_syscall_munmap vaddr length st = Ok (-1) st /\
  handle_page_fault vaddr is_write st = Ok false st /\
  do_fork_cow vaddr length st = Ok false st.
Proof.
  intros Hleaf Hpg Hlock Hstale.
  rewrite <- leaf_of_page_align in Hleaf.
  unfold do_syscall_mmap, do_syscall_munmap, handle_page_fault, do_fork_cow, catch.
  split_all.
  - unfold bind at 1.
    by rewrite (AddrSpace_lock_stale _ _ _ _ _ _ Hleaf Hpg Hlock Hstale).
  - unfold bind at 1.
    by rewrite (AddrSpace_lock_stale _ _ _ _ _ _ Hleaf Hpg Hlock Hstale).
  - by rewrite (AddrSpace_lock_stale _ _ _ _ _ _ Hleaf Hpg Hlock Hstale).
  - unfold bind at 1.
    by rewrite (AddrSpace_lock_stale _ _ _ _ _ _ Hleaf Hpg Hlock Hstale).
Qed.

Lemma calls_on_stale_leaf_witness :
  let st := state_after (defer_free 3) one_region in
  do_syscall_mmap 0x400000 0x1000 3 st = Ok (-1) st /\
  do_syscall_munmap 0x400000 0x1000 st = Ok (-1) st /\
  handle_page_fault 0x400000 true st = Ok false st /\
  do_fork_cow 0x400000 0x1000 st = Ok false st.
Proof.
  intros st.
  apply (calls_on_stale_leaf st 0x400000 0x1000 3 true 3%nat (deref st 3)).
  - vm_compute; reflexivity.
  - vm_compute; reflexivity.
  - vm_compute; reflexivity.
  - vm_compute; reflexivity.
Defined.

(* ===================================================================== *)
(** ** What every sequence of operations leaves behind *)
(* ===================================================================== *)

(** X15: after any sequence of system calls, faults and cursor scopes on a
    fresh system, scopes whose body raised included, no call has blocked
    and no lock is held: every descriptor lock is free, and so are the
    reclaimer, structure and allocator mutexes. *)
Theorem operations_release_every_lock (os : list operation) :
  Forall operation_ok os ->
  exists st,
    run_operations os CortenMMSystem_new = Some st /\
    (forall p pg, store st !! p = Some pg -> lock (descriptor pg) = false) /\
    rcu_lock st = false /\ structure_lock st = false /\ pfn_lock st = false.
Proof.
  intros Hok.
  destruct (run_operations_inv os Hok _ inv_fresh) as (st & Hrun & [Hinv (H1 & H2 & H3)]).
  exists st. split_all; try done.
  intros p pg Hp. by rewrite (ti_locks _ _ Hinv p pg Hp), bool_decide_false.
Qed.

Lemma operations_release_every_lock_witness :
  exists st,
    run_operations
      [Mmap 0x10000 0x2000 3; PageFault 0x10000 true;
       Scope 0x20000 0x21000 true [CMark COW 5; CQuery 0x30000; CMap 0x20000 0x77 false];
       ForkCow 0x10000 0x1000; Tick 2000; Munmap 0x11000 0x1000]
      CortenMMSystem_new = Some st /\
    (forall p pg, store st !! p = Some pg -> lock (descriptor pg) = false) /\
    rcu_lock st = false /\ structure_lock st = false /\ pfn_lock st = false.
Proof.
  apply operations_release_every_lock.
  repeat match goal with |- Forall _ _ => constructor end; try exact I.
  simpl. repeat match goal with |- Forall _ _ => constructor end; try exact I.
  right; left; reflexivity.
Defined.

(** X16: after any such sequence the tree is a four-level tree: the root
    is at level 3, every page has its 512 PTEs, 512 metadata records and
    512 child slots and is not stale, every child reference points to a
    page one level below its parent, and the page reached by the descent
    for any address is a leaf (level 0). *)
Theorem operations_keep_tree_shape (os : list operation) :
  Forall operation_ok os ->
  exists st,
    run_operations os CortenMMSystem_new = Some st /\
    levels st = 4%nat /\
    (exists rpg, store st !! root st = Some rpg /\ level rpg = 3) /\
    (forall p pg, store st !! p = Some pg ->
       length (ptes pg) = 512%nat /\
       length (per_pte_metadata (descriptor pg)) = 512%nat /\
       length (children pg) = 512%nat /\
       is_stale (descriptor pg) = false /\
       forall j c, children pg !! j = Some (Some c) ->
         exists cpg, store st !! c = Some cpg /\ level cpg = level pg - 1) /\
    (forall vaddr lf, leaf_of st vaddr = Some lf ->
       exists pg, store st !! lf = Some pg /\ level pg = 0).
Proof.
  intros Hok.
  destruct (run_operations_inv os Hok _ inv_fresh) as (st & Hrun & [Hinv _]).
  exists st. split_all; try done.
  - apply (ti_levels _ _ Hinv).
  - apply (ti_root _ _ Hinv).
  - intros p pg Hp. destruct (ti_pages _ _ Hinv p pg Hp) as [H1 H2 H3 H4 H5].
    split_all; try done.
    by rewrite <- (Forall2_length _ _ _ H4).
  - intros vaddr lf Hleaf. by apply (leaf_of_level None st vaddr).
Qed.

Lemma operations_keep_tree_shape_witness :
  exists st,
    run_operations
      [Mmap 0x1FF000 0x2000 3; PageFault 0x200000 true;
       Scope 0x8000000000 0x8000001000 false [CMark Mapped 5; CUnmapRange];
       Munmap 0x1FF000 0x1000]
      CortenMMSystem_new = Some st /\
    levels st = 4%nat /\
    (exists rpg, store st !! root st = Some rpg /\ level rpg = 3) /\
    (forall p pg, store st !! p = Some pg ->
       length (ptes pg) = 512%nat /\
       length (per_pte_metadata (descriptor pg)) = 512%nat /\
       length (children pg) = 512%nat /\
       is_stale (descriptor pg) = false /\
       forall j c, children pg !! j = Some (Some c) ->
         exists cpg, store st !! c = Some cpg /\ level cpg = level pg - 1) /\
    (forall vaddr lf, leaf_of st vaddr = Some lf ->
       exists pg, store st !! lf = Some pg /\ level pg = 0).
Proof.
  apply operations_keep_tree_shape.
  repeat match goal with |- Forall _ _ => constructor end; try exact I.
  simpl. repeat match goal with |- Forall _ _ => constructor end; try exact I.
  left; reflexivity.
Defined.

(* ===================================================================== *)
(** ** Calls that cannot fail *)
(* ===================================================================== *)

Lemma never_raises_ret {A} (a : A) : never_raises (ret a).
Proof. by intros st. Qed.

Lemma never_raises_gets {A} (f : State -> A) : never_raises (gets f).
Proof. by intros st. Qed.

Lemma never_raises_modify (f : State -> State) : never_raises (modify f).
Proof. by intros st. Qed.

Lemma never_raises_update_page (p : nat) (F : PageTablePage -> PageTablePage) :
  never_raises (update_page p F).
Proof. by intros st. Qed.

Lemma never_raises_bind {A B} (m : M A) (k : A -> M B) :
  never_raises m -> (forall a, never_raises (k a)) -> never_raises (bind m k).
Proof.
  intros Hm Hk st. unfold bind. specialize (Hm st).
  destruct (m st) as [a st' | e st' |]; [apply Hk | done | done].
Qed.

(** The page loop visits addresses from its start up to, not including,
    its end. *)
Lemma never_raises_while_pages (n : nat) (lo vaddr vend : Z) (body : Z -> M unit) :
  (forall v, lo <= v < vend -> never_raises (body v)) ->
  lo <= vaddr ->
  never_raises (while_pages n vaddr vend body).
Proof.
  intros Hbody. revert vaddr. induction n as [| n IH]; intros vaddr Hlo; simpl.
  - apply never_raises_ret.
  - destruct (vaddr <? vend) eqn:Hlt; [| apply never_raises_ret].
    apply Z.ltb_lt in Hlt.
    apply never_raises_bind; [apply Hbody; lia | intros _; apply IH; lia].
Qed.

Lemma never_raises_for_pages (vstart vend : Z) (body : Z -> M unit) :
  (forall v, vstart <= v < vend -> never_raises (body v)) ->
  never_raises (for_pages vstart vend body).
Proof. intros Hbody. by apply (never_raises_while_pages _ vstart); [| lia]. Qed.

Lemma never_raises_mark_pages (pages : list nat) (i perm : Z) (s : Status) :
  never_raises (mark_pages pages i s perm).
Proof.
  induction pages as [| p pages IH]; simpl; [apply never_raises_ret |].
  apply never_raises_bind; [apply never_raises_gets | intros leaf].
  apply never_raises_bind; [| intros _; apply IH].
  destruct leaf; [| apply never_raises_ret].
  apply never_raises_bind; [| intros _]; apply never_raises_update_page.
Qed.

Lemma never_raises_mark (c : RCursor) (s : Status) (perm : Z) :
  never_raises (RCursor_mark c s perm).
Proof. apply never_raises_for_pages. intros v _. apply never_raises_mark_pages. Qed.

Lemma never_raises_unmap_range (c : RCursor) : never_raises (RCursor_unmap_range c).
Proof.
  apply never_raises_for_pages. intros v _.
  apply never_raises_bind; [apply never_raises_gets | intros [pt_page |]];
    [| apply never_raises_ret].
  apply never_raises_bind; [apply never_raises_gets | intros s].
  destruct (bool_decide (s <> Invalid)); [| apply never_raises_ret].
  apply never_raises_bind; [| intros _]; [apply never_raises_update_page |].
  apply never_raises_bind; [| intros _]; apply never_raises_update_page.
Qed.

Lemma never_raises_get_pte_and_metadata (c : RCursor) (vaddr : Z) :
  in_cursor_range c vaddr = true ->
  never_raises (RCursor_get_pte_and_metadata c vaddr).
Proof.
  intros Hrange st. unfold RCursor_get_pte_and_metadata, bind. by rewrite Hrange.
Qed.

Lemma page_align_up_idem (vaddr : Z) :
  page_align_up (page_align_up vaddr) = page_align_up vaddr.
Proof.
  rewrite (page_align_up_div (page_align_up vaddr)), !page_align_up_div.
  replace (4096 * ((vaddr + 4095) / 4096) + 4095)
    with ((vaddr + 4095) / 4096 * 4096 + 4095) by lia.
  rewrite Z.div_add_l by lia. change (4095 / 4096) with 0. lia.
Qed.

(** The loop of [do_fork_cow] stays inside the range of its cursor. *)
Lemma never_raises_fork_cow_loop (vaddr length : Z) (l : list nat) :
  let vstart := page_align vaddr in
  let vend := page_align_up (vstart + length) in
  never_raises
    (for_pages vstart vend (fun current_vaddr =>
       let* result :=
         RCursor_get_pte_and_metadata
           (mkCursor (page_align vstart) (page_align_up vend) l false) current_vaddr in
       match result with
       | None => ret tt
       | Some (pt_page, idx) =>
           let* pte := gets (fun st => get_pte (deref st pt_page) idx) in
           let* metadata := gets (fun st => get_metadata (deref st pt_page) idx) in
           if PTE_is_valid pte && bool_decide (status metadata = Mapped)
           then
             match pfn pte with
             | None => ret tt
             | Some frame =>
                 let* _ := update_page pt_page (update_metadata idx (set_status COW)) in
                 let* _ := update_page pt_page (update_pte idx (PTE_set_rw false)) in
                 let* _ := modify (fun st =>
                             with_cow_refcounts
                               (<[frame := cow_refcount st frame + 1]> (cow_refcounts st)) st) in
                 let* cnt := gets (fun st => cow_refcount st frame) in
                 update_page pt_page (update_metadata idx (set_refcount cnt))
             end
           else ret tt
       end)).
Proof.
  intros vstart vend. apply never_raises_for_pages. intros v Hv.
  apply never_raises_bind.
  { apply never_raises_get_pte_and_metadata. unfold in_cursor_range.
    cbn [vaddr_start vaddr_end]. unfold vstart, vend.
    rewrite page_align_idem, page_align_up_idem.
    apply andb_true_iff. split; [apply Z.leb_le | apply Z.ltb_lt]; apply Hv. }
  intros [[pt_page idx] |]; [| apply never_raises_ret].
  apply never_raises_bind; [apply never_raises_gets | intros pte].
  apply never_raises_bind; [apply never_raises_gets | intros metadata].
  destruct (PTE_is_valid pte && bool_decide (status metadata = Mapped));
    [| apply never_raises_ret].
  destruct (pfn pte) as [frame |]; [| apply never_raises_ret].
  apply never_raises_bind; [apply never_raises_update_page | intros _].
  apply never_raises_bind; [apply never_raises_update_page | intros _].
  apply never_raises_bind; [apply never_raises_modify | intros _].
  apply never_raises_bind; [apply never_raises_gets | intros cnt].
  apply never_raises_update_page.
Qed.

(** A scope taken in a quiescent well-formed state returns when its body
    cannot raise. *)
Lemma AddrSpace_lock_returns {A} (vstart vend : Z) (deep : bool) (body : RCursor -> M A)
    (st : State) :
  inv None st ->
  (forall c lf, preserves (inv (Some lf)) (body c)) ->
  (forall lf,
     never_raises (body (mkCursor (page_align vstart) (page_align_up vend) [lf] false))) ->
  exists a st', AddrSpace_lock vstart vend deep body st = Ok a st' /\ inv None st'.
Proof.
  intros Hinv Hkeep Hbody. unfold AddrSpace_lock.
  fold (page_align vstart) (page_align_up vend).
  destruct (lock_attempts_inv 9 (page_align vstart) (page_align_up vend) deep st Hinv)
    as (lf & st0 & pg & Hrun & Hinv0 & Hleaf & Hpg & Hlevel & _).
  unfold bind at 1. rewrite Hrun.
  assert (inv (Some lf) (locked_state lf st0)) as Hlocked.
  { destruct Hinv0 as [Ht Hm]. split; [by apply (tree_inv_lock _ _ pg) | done]. }
  unfold finally.
  set (c := mkCursor _ _ [lf] false).
  specialize (Hkeep c lf _ Hlocked). specialize (Hbody lf (locked_state lf st0)).
  fold c in Hbody.
  destruct (body c (locked_state lf st0)) as [a st2 | e st2 |]; [| done | done].
  destruct (scope_exit_inv st2 c lf eq_refl eq_refl Hkeep) as [-> Hexit]. eauto.
Qed.

Lemma mmap_returns (st : State) (vaddr length prot : Z) :
  inv None st ->
  exists st', do_syscall_mmap vaddr length prot st = Ok (page_align vaddr) st' /\
              inv None st'.
Proof.
  intros Hinv. unfold do_syscall_mmap, catch.
  destruct (AddrSpace_lock_returns (page_align vaddr)
              (page_align_up (page_align vaddr + length)) false
              (fun cursor => RCursor_mark cursor PrivateAnon prot) st Hinv)
    as ([] & st' & Hrun & Hinv').
  - intros c lf. apply preserves_mark. right; right; reflexivity.
  - intros lf. apply never_raises_mark.
  - unfold bind at 1. rewrite Hrun. eauto.
Qed.

Lemma munmap_returns (st : State) (vaddr length : Z) :
  inv None st ->
  exists st', do_syscall_munmap vaddr length st = Ok 0 st' /\ inv None st'.
Proof.
  intros Hinv. unfold do_syscall_munmap, catch.
  destruct (AddrSpace_lock_returns (page_align vaddr)
              (page_align_up (page_align vaddr + length)) false
              RCursor_unmap_range st Hinv)
    as ([] & st' & Hrun & Hinv').
  - intros c lf. apply preserves_unmap_range.
  - intros lf. apply never_raises_unmap_range.
  - unfold bind at 1. rewrite Hrun. eauto.
Qed.

Lemma fork_cow_returns (st : State) (vaddr length : Z) :
  inv None st ->
  exists st', do_fork_cow vaddr length st = Ok true st' /\ inv None st'.
Proof.
  intros Hinv.
  pose proof (preserves_fork_cow vaddr length st Hinv) as Hkeep.
  unfold do_fork_cow, catch in *.
  match goal with
  | |- context [AddrSpace_lock ?vs ?ve false ?body] =>
      destruct (AddrSpace_lock_returns vs ve false body st Hinv)
        as ([] & st' & Hrun & Hinv')
  end.
  - intros c lf.
    apply preserves_for_pages. intros current_vaddr.
    apply preserves_bind; [apply preserves_get_pte_and_metadata | intros [[pt_page idx] |]];
      [| apply preserves_ret].
    apply preserves_bind; [apply preserves_gets | intros pte].
    apply preserves_bind; [apply preserves_gets | intros metadata].
    destruct (PTE_is_valid pte && bool_decide (status metadata = Mapped));
      [| apply preserves_ret].
    destruct (pfn pte) as [frame |]; [| apply preserves_ret].
    apply preserves_bind; [| intros _].
    { apply preserves_update_page. apply page_step_set_status_COW. }
    apply preserves_bind; [| intros _].
    { apply preserves_update_page. apply page_step_set_rw. }
    apply preserves_bind; [apply preserves_set_cow_refcounts | intros _].
    apply preserves_bind; [apply preserves_gets | intros cnt].
    apply preserves_update_page. apply page_step_set_refcount.
  - intros lf. apply never_raises_fork_cow_loop.
  - unfold bind at 1. rewrite Hrun. eauto.
Qed.

(** X17: in every state reached from a fresh system by system calls,
    faults and cursor scopes, [mmap], [munmap] and [do_fork_cow] succeed
    for all arguments, negative or empty lengths and unaligned addresses
    included: [mmap] returns the page-aligned start address, [munmap]
    returns 0 and [do_fork_cow] returns true.  Their failure values are
    never produced. *)
Theorem system_calls_never_fail (os : list operation) :
  Forall operation_ok os ->
  exists st,
    run_operations os CortenMMSystem_new = Some st /\
    (forall vaddr length prot, exists st',
       do_syscall_mmap vaddr length prot st = Ok (page_align vaddr) st') /\
    (forall vaddr length, exists st',
       do_syscall_munmap vaddr length st = Ok 0 st') /\
    (forall vaddr length, exists st',
       do_fork_cow vaddr length st = Ok true st').
Proof.
  intros Hok.
  destruct (run_operations_inv os Hok _ inv_fresh) as (st & Hrun & Hinv).
  exists st. split_all; [done | | |].
  - intros vaddr length prot.
    destruct (mmap_returns st vaddr length prot Hinv) as (st' & H & _). eauto.
  - intros vaddr length.
    destruct (munmap_returns st vaddr length Hinv) as (st' & H & _). eauto.
  - intros vaddr length.
    destruct (fork_cow_returns st vaddr length Hinv) as (st' & H & _). eauto.
Qed.

Lemma system_calls_never_fail_witness :
  exists st,
    run_operations
      [Mmap 0x10000 0x2000 3; PageFault 0x10000 true; ForkCow 0x10000 0x1000;
       Munmap 0x11000 0x1000]
      CortenMMSystem_new = Some st /\
    (forall vaddr length prot, exists st',
       do_syscall_mmap vaddr length prot st = Ok (page_align vaddr) st') /\
    (forall vaddr length, exists st',
       do_syscall_munmap vaddr length st = Ok 0 st') /\
    (forall vaddr length, exists st',
       do_fork_cow vaddr length st = Ok true st').
Proof.
  apply system_calls_never_fail.
  repeat match goal with |- Forall _ _ => constructor end; exact I.
Defined.

(* ===================================================================== *)
(** ** What the calls leave untouched *)
(* ===================================================================== *)

Section Relates.
Context (R : State -> State -> Prop).
Hypothesis R_refl : forall st, R st st.
Hypothesis R_trans : forall st1 st2 st3, R st1 st2 -> R st2 st3 -> R st1 st3.

Lemma relates_ret {A} (a : A) : relates R (ret a).
Proof. intros st. apply R_refl. Qed.

Lemma relates_raise {A} (e : error) : relates R (@raise A e).
Proof. intros st. apply R_refl. Qed.

Lemma relates_gets {A} (f : State -> A) : relates R (gets f).
Proof. intros st. apply R_refl. Qed.

Lemma relates_assert (c : bool) : relates R (assert c).
Proof. destruct c; [apply relates_ret | apply relates_raise]. Qed.

Lemma relates_bind {A B} (m : M A) (k : A -> M B) :
  relates R m -> (forall a, relates R (k a)) -> relates R (bind m k).
Proof.
  intros Hm Hk st. unfold bind. specialize (Hm st).
  destruct (m st) as [a st1 | e st1 |]; [| done | done].
  specialize (Hk a st1). destruct (k a st1); eauto.
Qed.

Lemma relates_finally {A} (m : M A) (fin : M unit) :
  relates R m -> relates R fin -> relates R (finally m fin).
Proof.
  intros Hm Hfin st. unfold finally. specialize (Hm st).
  destruct (m st) as [a st1 | e st1 |]; [| | done];
    specialize (Hfin st1); destruct (fin st1); eauto.
Qed.

Lemma relates_catch {A} (m : M A) (a : A) : relates R m -> relates R (catch m a).
Proof. intros Hm st. unfold catch. specialize (Hm st). by destruct (m st). Qed.

Lemma relates_while_pages (n : nat) (vaddr vend : Z) (body : Z -> M unit) :
  (forall v, relates R (body v)) -> relates R (while_pages n vaddr vend body).
Proof.
  intros Hbody. revert vaddr. induction n as [| n IH]; intros vaddr; simpl.
  - apply relates_ret.
  - destruct (vaddr <? vend); [| apply relates_ret].
    apply relates_bind; [apply Hbody | intros _; apply IH].
Qed.

Lemma relates_for_pages (vstart vend : Z) (body : Z -> M unit) :
  (forall v, relates R (body v)) -> relates R (for_pages vstart vend body).
Proof. apply relates_while_pages. Qed.

(** The relation does not look at the clock, the queue or the mutexes. *)
Hypothesis R_frame : forall st st',
  store st' = store st -> next_pfn st' = next_pfn st ->
  cow_refcounts st' = cow_refcounts st -> R st st'.
(** It holds across a change of a descriptor, the creation of a blank
    page and the assignment of a child reference. *)
Hypothesis R_descriptor : forall st p f,
  R st (with_store (alter (set_descriptor f) p) st).
Hypothesis R_grow : forall st lvl,
  R st (with_store (fun s => s ++ [PageTablePage_new lvl]) st).
Hypothesis R_child : forall st p i c,
  R st (with_store (alter (set_child i c) p) st).

Lemma relates_with_mutex {A} (held : State -> bool) (set : bool -> State -> State)
    (body : M A) :
  (forall b st, store (set b st) = store st /\ next_pfn (set b st) = next_pfn st /\
                cow_refcounts (set b st) = cow_refcounts st) ->
  relates R body -> relates R (with_mutex held set body).
Proof.
  intros Hset Hbody st. unfold with_mutex. destruct (held st); [done |].
  assert (relates R (finally body (modify (set false)))) as Hfin.
  { apply relates_finally; [done |]. intros st1. apply R_frame; apply Hset. }
  specialize (Hfin (set true st)).
  assert (R st (set true st)) as Hin by (apply R_frame; apply Hset).
  destruct (finally body (modify (set false)) (set true st)); eauto.
Qed.

Lemma relates_lock_acquire (p : nat) : relates R (lock_acquire p).
Proof.
  intros st. unfold lock_acquire.
  destruct (lock (descriptor (deref st p))); [done | apply R_descriptor].
Qed.

Lemma relates_lock_release (p : nat) : relates R (lock_release p).
Proof.
  intros st. unfold lock_release.
  destruct (lock (descriptor (deref st p))); [apply R_descriptor | apply R_refl].
Qed.

Lemma relates_release_all (pages : list nat) : relates R (release_all pages).
Proof.
  induction pages as [| p pages IH]; simpl; [apply relates_ret |].
  apply relates_bind; [apply relates_lock_release | intros _; apply IH].
Qed.

Lemma relates_release (c : RCursor) : relates R (RCursor_release c).
Proof.
  unfold RCursor_release. destruct (_released c); [apply relates_ret |].
  apply relates_bind; [apply relates_release_all | intros _; apply relates_ret].
Qed.

Lemma relates_try_reclaim : relates R try_reclaim.
Proof.
  apply relates_with_mutex; [done |]. intros st. by apply R_frame.
Qed.

Lemma relates_lock_and_validate (p : nat) : relates R (_lock_and_validate p).
Proof.
  apply relates_bind; [apply relates_lock_acquire | intros _].
  apply relates_bind; [apply relates_gets | intros stale].
  destruct stale; [| apply relates_ret].
  apply relates_bind; [apply relates_lock_release | intros _; apply relates_ret].
Qed.

Lemma relates_dfs_lock_subtree (fuel : nat) :
  forall p locked, relates R (_dfs_lock_subtree fuel p locked).
Proof.
  induction fuel as [| fuel IH]; intros p locked; [done |].
  cbn [_dfs_lock_subtree].
  apply relates_bind; [apply relates_gets | intros pg].
  destruct (is_leaf pg); [apply relates_ret |].
  generalize (locked ++ [p]). generalize (children pg).
  induction l as [| [child |] cs IHcs]; intros locked'.
  - apply relates_ret.
  - apply relates_bind; [apply relates_lock_and_validate | intros valid].
    destruct valid; [| apply relates_ret].
    apply relates_bind; [apply IH | intros r].
    destruct (snd r); [apply IHcs | apply relates_ret].
  - apply IHcs.
Qed.

Lemma relates_create_path (indices : list Z) :
  forall i current, relates R (create_path i current indices).
Proof.
  induction indices as [| index rest IH]; intros i current; simpl.
  - apply relates_ret.
  - apply relates_bind; [apply relates_gets | intros [c |]]; [apply IH |].
    apply relates_bind; [apply relates_gets | intros c].
    apply relates_bind; [apply relates_gets | intros lv].
    apply relates_bind; [intros st; apply R_grow | intros _].
    apply relates_bind; [intros st; apply R_child | intros _].
    apply IH.
Qed.

Lemma relates_create_leaf_page (vaddr : Z) : relates R (_create_leaf_page vaddr).
Proof.
  apply relates_with_mutex; [done |].
  apply relates_bind; [apply relates_gets | intros lv].
  apply relates_bind; [apply relates_gets | intros r].
  apply relates_create_path.
Qed.

Lemma relates_lock_attempts (n : nat) (vstart vend : Z) (deep : bool) :
  relates R (lock_attempts n vstart vend deep).
Proof.
  induction n as [| n IH]; [apply relates_raise |].
  cbn [lock_attempts].
  apply relates_bind; [apply relates_gets | intros found].
  apply relates_bind.
  { destruct found; [apply relates_ret | apply relates_create_leaf_page]. }
  intros pt_page.
  apply relates_bind; [apply relates_lock_and_validate | intros valid].
  destruct valid; cbn [negb]; [| apply IH].
  apply relates_bind.
  { destruct deep; [| apply relates_ret].
    apply relates_bind; [apply relates_gets | intros k].
    apply relates_dfs_lock_subtree. }
  intros r. destruct (snd r); [apply relates_ret |].
  apply relates_bind; [apply relates_release_all | intros _; apply IH].
Qed.

Lemma relates_AddrSpace_lock {A} (vstart vend : Z) (deep : bool) (body : RCursor -> M A) :
  (forall c, relates R (body c)) ->
  relates R (AddrSpace_lock vstart vend deep body).
Proof.
  intros Hbody. unfold AddrSpace_lock.
  apply relates_bind; [apply relates_lock_attempts | intros c].
  apply relates_finally; [apply Hbody |].
  apply relates_bind; [apply relates_release | intros _; apply relates_try_reclaim].
Qed.

Lemma relates_update_descriptor (p : nat) (f : PageDescriptor -> PageDescriptor) :
  relates R (update_page p (set_descriptor f)).
Proof. intros st. apply R_descriptor. Qed.

Lemma relates_update_metadata (p : nat) (i : Z) (f : PTEMetadata -> PTEMetadata) :
  relates R (update_page p (update_metadata i f)).
Proof. intros st. apply R_descriptor. Qed.

Lemma relates_mark (c : RCursor) (s : Status) (perm : Z) :
  relates R (RCursor_mark c s perm).
Proof.
  apply relates_for_pages. intros v.
  induction (locked_pages c) as [| p pages IH]; simpl; [apply relates_ret |].
  apply relates_bind; [apply relates_gets | intros leaf].
  apply relates_bind; [| intros _; apply IH].
  destruct leaf; [| apply relates_ret].
  apply relates_bind; [apply relates_update_metadata | intros _].
  apply relates_update_descriptor.
Qed.

Lemma relates_mmap (vaddr length prot : Z) :
  relates R (do_syscall_mmap vaddr length prot).
Proof.
  apply relates_catch.
  apply relates_bind; [| intros _; apply relates_ret].
  apply relates_AddrSpace_lock. intros c. apply relates_mark.
Qed.

(** It holds across a change of a PTE. *)
Hypothesis R_pte : forall st p i f,
  R st (with_store (alter (update_pte i f) p) st).

Lemma relates_update_pte (p : nat) (i : Z) (f : PTE -> PTE) :
  relates R (update_page p (update_pte i f)).
Proof. intros st. apply R_pte. Qed.

Lemma relates_unmap_range (c : RCursor) : relates R (RCursor_unmap_range c).
Proof.
  apply relates_for_pages. intros v.
  apply relates_bind; [apply relates_gets | intros [pt_page |]]; [| apply relates_ret].
  apply relates_bind; [apply relates_gets | intros s].
  destruct (bool_decide (s <> Invalid)); [| apply relates_ret].
  apply relates_bind; [apply relates_update_pte | intros _].
  apply relates_bind; [apply relates_update_metadata | intros _].
  apply relates_update_descriptor.
Qed.

Lemma relates_munmap (vaddr length : Z) :
  relates R (do_syscall_munmap vaddr length).
Proof.
  apply relates_catch.
  apply relates_bind; [| intros _; apply relates_ret].
  apply relates_AddrSpace_lock. intros c. apply relates_unmap_range.
Qed.

End Relates.

Lemma same_counters_refl (st : State) : same_counters st st.
Proof. by split. Qed.

Lemma same_counters_trans (st1 st2 st3 : State) :
  same_counters st1 st2 -> same_counters st2 st3 -> same_counters st1 st3.
Proof. intros [H1 H2] [H3 H4]. split; congruence. Qed.

Lemma ptes_kept_refl (st : State) : ptes_kept st st.
Proof. split; [eauto | intros p pg' H1 H2; congruence]. Qed.

Lemma ptes_kept_trans (st1 st2 st3 : State) :
  ptes_kept st1 st2 -> ptes_kept st2 st3 -> ptes_kept st1 st3.
Proof.
  intros [H12 N12] [H23 N23]. split.
  - intros p pg Hp. destruct (H12 p pg Hp) as (pg2 & Hp2 & E2).
    destruct (H23 p pg2 Hp2) as (pg3 & Hp3 & E3). exists pg3. split; congruence.
  - intros p pg3 Hp3 Hnone.
    destruct (store st2 !! p) as [pg2 |] eqn:Hp2.
    + destruct (H23 p pg2 Hp2) as (pg3' & Hp3' & E3).
      assert (pg3' = pg3) as -> by congruence.
      rewrite E3. by apply (N12 p).
    + by apply (N23 p).
Qed.

Lemma ptes_kept_alter (F : PageTablePage -> PageTablePage) (p : nat) (st : State) :
  (forall pg, ptes (F pg) = ptes pg) ->
  ptes_kept st (with_store (alter F p) st).
Proof.
  intros HF. unfold ptes_kept. cbn [store with_store]. split.
  - intros q pg Hq. destruct (decide (p = q)) as [-> | Hne].
    + exists (F pg). by rewrite list_lookup_alter_eq, Hq.
    + exists pg. by rewrite list_lookup_alter_ne.
  - intros q pg' Hq Hnone. destruct (decide (p = q)) as [-> | Hne].
    + by rewrite list_lookup_alter_eq, Hnone in Hq.
    + rewrite list_lookup_alter_ne in Hq by done. congruence.
Qed.

Lemma lazily_refl (st : State) : lazily st st.
Proof. split; [apply same_counters_refl | apply ptes_kept_refl]. Qed.

Lemma lazily_trans (st1 st2 st3 : State) :
  lazily st1 st2 -> lazily st2 st3 -> lazily st1 st3.
Proof.
  intros [H1 H2] [H3 H4].
  split; [by apply (same_counters_trans _ st2) | by apply (ptes_kept_trans _ st2)].
Qed.

Lemma relates_lazily_mmap (vaddr length prot : Z) :
  relates lazily (do_syscall_mmap vaddr length prot).
Proof.
  apply relates_mmap.
  - apply lazily_refl.
  - apply lazily_trans.
  - intros st st' Hs Hn Hc. split; [by split |].
    split.
    + intros p pg Hp. exists pg. by rewrite Hs.
    + intros p pg' Hp Hnone. rewrite Hs in Hp. congruence.
  - intros st p f. split; [by split |]. by apply ptes_kept_alter.
  - intros st lvl. split; [by split |]. unfold ptes_kept. cbn [store with_store]. split.
    + intros p pg Hp. exists pg. split; [| done]. by apply lookup_app_l_Some.
    + intros p pg' Hp Hnone. apply lookup_ge_None in Hnone.
      rewrite lookup_app_r in Hp by done.
      apply list_lookup_singleton_Some in Hp as [_ <-]. reflexivity.
  - intros st p i c. split; [by split |]. by apply ptes_kept_alter.
Qed.

(** X18: [mmap] is lazy.  In every quiescent well-formed state it returns
    the aligned start address, whatever its arguments, without taking a
    frame from the allocator and without touching the refcount map; every
    page that existed keeps all its PTEs, and the pages created on the way
    to the leaf have blank PTEs.  So no frame is mapped before the first
    fault. *)
Theorem mmap_is_lazy (st : State) (vaddr length prot : Z) :
  inv None st ->
  exists st',
    do_syscall_mmap vaddr length prot st = Ok (page_align vaddr) st' /\
    next_pfn st' = next_pfn st /\
    cow_refcounts st' = cow_refcounts st /\
    (forall p pg, store st !! p = Some pg ->
       exists pg', store st' !! p = Some pg' /\ ptes pg' = ptes pg) /\
    (forall p pg', store st' !! p = Some pg' -> store st !! p = None ->
       ptes pg' = replicate 512 PTE_new).
Proof.
  intros Hinv.
  destruct (mmap_returns st vaddr length prot Hinv) as (st' & Hrun & _).
  pose proof (relates_lazily_mmap vaddr length prot st) as Hrel.
  rewrite Hrun in Hrel. destruct Hrel as [[Hn Hc] [Hkept Hnew]].
  exists st'. by split_all.
Qed.

Lemma mmap_is_lazy_witness :
  exists st',
    do_syscall_mmap 0x12345 (-7) 3 shared_page = Ok (page_align 0x12345) st' /\
    next_pfn st' = next_pfn shared_page /\
    cow_refcounts st' = cow_refcounts shared_page /\
    (forall p pg, store shared_page !! p = Some pg ->
       exists pg', store st' !! p = Some pg' /\ ptes pg' = ptes pg) /\
    (forall p pg', store st' !! p = Some pg' -> store shared_page !! p = None ->
       ptes pg' = replicate 512 PTE_new).
Proof.
  apply (mmap_is_lazy shared_page 0x12345 (-7) 3).
  destruct (run_operations_inv
              [Mmap 0x30000 0x1000 3; PageFault 0x30000 true; ForkCow 0x30000 0x1000]
              ltac:(repeat constructor) _ inv_fresh) as (st & Hrun & Hinv).
  vm_compute in Hrun. injection Hrun as <-. exact Hinv.
Defined.

Lemma relates_counters_munmap (vaddr length : Z) :
  relates same_counters (do_syscall_munmap vaddr length).
Proof.
  apply relates_munmap; try done.
  - apply same_counters_trans.
Qed.

(** X19: [munmap] gives nothing back.  In every quiescent well-formed
    state it returns 0, whatever its arguments, and leaves the allocator
    counter and the whole refcount map as they were: the frame of an
    unmapped page is not returned to the allocator, and the global refcount
    of a shared frame is not lowered when one of its mappings goes away. *)
Theorem munmap_keeps_counters (st : State) (vaddr length : Z) :
  inv None st ->
  exists st',
    do_syscall_munmap vaddr length st = Ok 0 st' /\
    next_pfn st' = next_pfn st /\
    cow_refcounts st' = cow_refcounts st.
Proof.
  intros Hinv.
  destruct (munmap_returns st vaddr length Hinv) as (st' & Hrun & _).
  pose proof (relates_counters_munmap vaddr length st) as Hrel.
  rewrite Hrun in Hrel. destruct Hrel as [Hn Hc].
  exists st'. by split_all.
Qed.

Lemma munmap_keeps_counters_witness :
  exists st',
    do_syscall_munmap 0x30000 0x1000 shared_page = Ok 0 st' /\
    next_pfn st' = next_pfn shared_page /\
    cow_refcounts st' = cow_refcounts shared_page.
Proof.
  apply (munmap_keeps_counters shared_page 0x30000 0x1000).
  destruct (run_operations_inv
              [Mmap 0x30000 0x1000 3; PageFault 0x30000 true; ForkCow 0x30000 0x1000]
              ltac:(repeat constructor) _ inv_fresh) as (st & Hrun & Hinv).
  vm_compute in Hrun. injection Hrun as <-. exact Hinv.
Defined.

(* ===================================================================== *)
(** ** Detaching a leaf that exists *)
(* ===================================================================== *)

Lemma parse_vaddr_4 (vaddr : Z) :
  exists a b c d,
    parse_vaddr vaddr 4 = [a; b; c; d] /\ 0 <= c < 512.
Proof.
  pose proof (parse_vaddr_range vaddr 4) as Hall.
  unfold parse_vaddr in *. cbn [parse_loop app rev] in *.
  do 4 eexists. split; [reflexivity |].
  rewrite !Forall_cons in Hall. tauto.
Qed.

(** A change of a page does not alter the descent to it, nor to anything
    at or above its level. *)
Lemma descend_alter_above (held : option nat) (st : State)
    (F : PageTablePage -> PageTablePage) (p : nat) (ppg : PageTablePage) (l : list Z) :
  tree_inv held st ->
  store st !! p = Some ppg ->
  forall r rpg,
    store st !! r = Some rpg ->
    level ppg + Z.of_nat (length l) <= level rpg ->
    descend (alter F p (store st)) r l = descend (store st) r l.
Proof.
  intros Hinv Hp. induction l as [| x l IH]; intros r rpg Hr Hlevel; [done |].
  cbn [descend length] in *.
  assert (p <> r) as Hne.
  { intros ->. assert (ppg = rpg) as -> by congruence. lia. }
  rewrite list_lookup_total_alter_ne by done.
  rewrite (lookup_total_lookup _ _ _ Hr).
  destruct (get_child rpg x) as [child |] eqn:Hchild; [| done].
  apply get_child_Some in Hchild.
  destruct (pi_links _ _ (ti_pages _ _ Hinv _ _ Hr) _ _ Hchild) as (cpg & Hcpg & Hl).
  apply (IH child cpg Hcpg). lia.
Qed.

(** X20: [remove_page_table] on an address whose leaf exists, in a
    quiescent well-formed state: the call returns, the leaf is unlinked
    from its parent, so the descent for the address finds nothing any
    more, the leaf is marked stale with its lock free again, its PTEs and
    metadata are left as they were, and it is appended to the reclaimer
    queue with the current time.  The structure and reclaimer mutexes are
    free afterwards. *)
Theorem remove_page_table_detaches (st : State) (vaddr : Z) (lf : nat) :
  inv None st ->
  leaf_of st vaddr = Some lf ->
  exists st' pg pg',
    remove_page_table vaddr st = Ok tt st' /\
    store st !! lf = Some pg /\
    store st' !! lf = Some pg' /\
    leaf_of st' vaddr = None /\
    is_stale (descriptor pg') = true /\
    lock (descriptor pg') = false /\
    ptes pg' = ptes pg /\
    per_pte_metadata (descriptor pg') = per_pte_metadata (descriptor pg) /\
    rcu_queue st' = rcu_queue st ++ [(clock st, lf)] /\
    structure_lock st' = false /\ rcu_lock st' = false.
Proof.
  intros [Hinv (Hrcu & Hstruct & Hpfn)] Hleaf.
  pose proof (ti_levels _ _ Hinv) as Hlv.
  destruct (parse_vaddr_4 vaddr) as (a & b & c & d & Hidx & Hc).
  unfold leaf_of in Hleaf. rewrite Hlv, Hidx in Hleaf. cbn [removelast] in Hleaf.
  change [a; b; c] with ([a; b] ++ [c]) in Hleaf. rewrite descend_app in Hleaf.
  destruct (descend (store st) (root st) [a; b]) as [parent |] eqn:Hparent; [| done].
  cbn [descend] in Hleaf.
  destruct (get_child (store st !!! parent) c) as [t |] eqn:Hchild; [| done].
  injection Hleaf as ->.
  destruct (ti_root _ _ Hinv) as (rpg & Hr & Hrl).
  destruct (descend_level _ _ _ Hinv _ _ _ Hr Hparent) as (ppg & Hppg & Hpl).
  change (Z.of_nat (length [a; b])) with 2 in Hpl.
  rewrite (lookup_total_lookup _ _ _ Hppg) in Hchild.
  pose proof (get_child_Some _ _ _ Hchild) as Hlink.
  destruct (pi_links _ _ (ti_pages _ _ Hinv _ _ Hppg) _ _ Hlink) as (pg & Hpg & Hl).
  assert (parent <> lf) as Hne.
  { intros ->. assert (ppg = pg) as -> by congruence. lia. }
  pose proof (ti_locks _ _ Hinv _ _ Hpg) as Hlock. rewrite bool_decide_false in Hlock by done.
  pose proof (pi_children _ _ (ti_pages _ _ Hinv _ _ Hppg)) as Hkids.
  (* the run *)
  set (st1 := with_structure_lock true st).
  set (st3 := with_store (alter (set_child c None) parent) (locked_state lf st1)).
  set (st4 := with_store (alter (set_descriptor (set_lock false)) lf) st3).
  assert (unlink_target vaddr st1 = Ok (Some lf) st4) as Hunlink.
  { unfold unlink_target. unfold bind at 1. unfold gets at 1.
    change (levels st1) with (levels st). rewrite Hlv, Hidx.
    unfold bind at 1. unfold gets at 1. unfold bind at 1. unfold gets at 1.
    cbn [removelast rev app].
    change (store st1) with (store st). change (root st1) with (root st).
    rewrite Hparent. unfold bind at 1. unfold gets at 1.
    unfold deref. change (store st1) with (store st).
    rewrite (lookup_total_lookup _ _ _ Hppg), Hchild.
    rewrite (bind_ok _ _ _ _ _ (lock_acquire_free st1 lf pg Hpg Hlock)).
    unfold bind at 1. unfold update_page at 1. unfold modify at 1. fold st3.
    erewrite bind_ok; [reflexivity |].
    apply (lock_release_held st3 lf (set_descriptor (set_lock true) pg)); [| done].
    unfold st3, st1. cbn [store with_store with_structure_lock locked_state].
    rewrite list_lookup_alter_ne by done.
    by rewrite list_lookup_alter_eq, Hpg. }
  eexists. exists pg. eexists.
  split.
  { unfold remove_page_table, with_mutex. rewrite Hstruct. fold st1.
    unfold finally. rewrite (bind_ok _ _ _ _ _ Hunlink).
    unfold defer_free, with_mutex.
    change (rcu_lock st4) with (rcu_lock st). rewrite Hrcu.
    unfold finally, bind, update_page, modify. reflexivity. }
  cbn [store rcu_queue structure_lock rcu_lock clock with_store with_rcu_lock
       with_rcu_queue with_structure_lock st4 st3 st1 locked_state].
  split; [done |].
  split.
  { rewrite !list_lookup_alter_eq. rewrite list_lookup_alter_ne by done.
    rewrite list_lookup_alter_eq, Hpg. reflexivity. }
  split.
  { unfold leaf_of.
    cbn [store root levels with_store with_rcu_lock with_rcu_queue with_structure_lock].
    cbn [store root levels with_store with_rcu_lock with_rcu_queue with_structure_lock
         st4 st3 st1 locked_state].
    rewrite Hlv, Hidx. cbn [removelast].
    change [a; b; c] with ([a; b] ++ [c]). rewrite descend_app.
    rewrite !(descend_alter (set_descriptor _)) by done.
    rewrite (list_alter_alter_ne _ _ _ parent lf Hne).
    rewrite (descend_alter (set_descriptor _)) by done.
    rewrite (descend_alter_above None st _ parent ppg [a; b] Hinv Hppg _ rpg Hr)
      by (change (Z.of_nat (length [a; b])) with 2; lia).
    rewrite Hparent. cbn [descend].
    rewrite !list_lookup_total_alter_ne by done.
    apply lookup_lt_Some in Hppg as Hlt.
    rewrite list_lookup_total_alter_eq by done.
    rewrite (lookup_total_lookup _ _ _ Hppg).
    unfold get_child, set_child. cbn [children].
    by rewrite list_lookup_total_insert_eq by lia. }
  cbn [descriptor set_descriptor is_stale lock ptes per_pte_metadata mark_stale set_lock
       set_child].
  by split_all.
Qed.

Lemma remove_page_table_detaches_witness :
  exists st' pg pg',
    remove_page_table 0x400000 one_region = Ok tt st' /\
    store one_region !! 3%nat = Some pg /\
    store st' !! 3%nat = Some pg' /\
    leaf_of st' 0x400000 = None /\
    is_stale (descriptor pg') = true /\
    lock (descriptor pg') = false /\
    ptes pg' = ptes pg /\
    per_pte_metadata (descriptor pg') = per_pte_metadata (descriptor pg) /\
    rcu_queue st' = rcu_queue one_region ++ [(clock one_region, 3%nat)] /\
    structure_lock st' = false /\ rcu_lock st' = false.
Proof.
  apply (remove_page_table_detaches one_region 0x400000 3%nat).
  - destruct (run_operations_inv [Mmap 0x400000 0x1000 3]
                ltac:(repeat constructor) _ inv_fresh) as (st & Hrun & Hinv).
    vm_compute in Hrun. injection Hrun as <-. exact Hinv.
  - vm_compute; reflexivity.
Defined.

(* ===================================================================== *)
(** ** Deep locking *)
(* ===================================================================== *)

(** The cursor taken in a quiescent well-formed state does not depend on
    [deep]. *)
Lemma lock_attempts_any_depth (n : nat) (vstart vend : Z) (st : State) :
  inv None st ->
  exists lf st0, forall deep,
    lock_attempts (S n) vstart vend deep st
    = Ok (mkCursor vstart vend [lf] false) (locked_state lf st0).
Proof.
  intros Hinv.
  assert (exists lf st0,
            (let* found := _ensure_leaf_page vstart in
             match found with
             | Some p => ret p
             | None => _create_leaf_page vstart
             end) st = Ok lf st0 /\ inv None st0 /\ leaf_of st0 vstart = Some lf)
    as (lf & st0 & Hfind & Hinv0 & Hleaf).
  { unfold bind, _ensure_leaf_page, gets.
    destruct (leaf_of st vstart) as [lf |] eqn:Hleaf.
    - by exists lf, st.
    - destruct (create_leaf_page_inv st vstart Hinv) as (lf & st0 & Hrun & Hinv0 & Hleaf0).
      by exists lf, st0. }
  destruct (leaf_of_level _ _ _ _ (proj1 Hinv0) Hleaf) as (pg & Hpg & Hlevel).
  pose proof (ti_locks _ _ (proj1 Hinv0) _ _ Hpg) as Hlock.
  rewrite bool_decide_false in Hlock by done.
  pose proof (pi_stale _ _ (ti_pages _ _ (proj1 Hinv0) _ _ Hpg)) as Hstale.
  exists lf, st0. intros deep.
  cbn [lock_attempts].
  unfold bind at 1. unfold bind at 1.
  unfold bind in Hfind.
  destruct (_ensure_leaf_page vstart st) as [found st_f | |]; [| done | done].
  rewrite Hfind.
  unfold bind at 1.
  rewrite (lock_and_validate_live _ _ _ Hpg Hlock Hstale). cbn [negb].
  destruct deep; [| reflexivity].
  unfold bind at 1. unfold bind at 1. unfold gets at 1.
  by rewrite (dfs_lock_leaf _ _ _ _ _ (locked_state_lookup _ _ _ Hpg) Hlevel).
Qed.

(** X21: in a quiescent well-formed state, taking a cursor with
    [deep=True] is the same as taking it with [deep=False], for every
    range and every body: the page handed to [_dfs_lock_subtree] is a leaf,
    so the subtree walk ends at once with that one page. *)
Theorem deep_lock_same_as_shallow {A} (st : State) (vstart vend : Z)
    (body : RCursor -> M A) :
  inv None st ->
  AddrSpace_lock vstart vend true body st = AddrSpace_lock vstart vend false body st.
Proof.
  intros Hinv. unfold AddrSpace_lock. unfold bind at 1 3.
  destruct (lock_attempts_any_depth 9 (Z.land vstart (Z.lnot 0xFFF))
              (Z.land (vend + 0xFFF) (Z.lnot 0xFFF)) st Hinv) as (lf & st0 & Hrun).
  by rewrite !Hrun.
Qed.

Lemma deep_lock_same_as_shallow_witness :
  AddrSpace_lock 0x1FF000 0x201000 true (fun c => RCursor_mark c Mapped 3) CortenMMSystem_new
  = AddrSpace_lock 0x1FF000 0x201000 false (fun c => RCursor_mark c Mapped 3)
      CortenMMSystem_new.
Proof.
  apply (deep_lock_same_as_shallow CortenMMSystem_new 0x1FF000 0x201000
           (fun c => RCursor_mark c Mapped 3)).
  exact inv_fresh.
Defined.

(* ===================================================================== *)
(** ** Ranges of several pages *)
(* ===================================================================== *)

Lemma while_pages_one_leaf (G : Z -> PageTablePage -> PageTablePage)
    (body : Z -> M unit) (lf : nat) :
  (forall i pg, level (G i pg) = level pg) ->
  (forall v st pg, store st !! lf = Some pg -> level pg = 0 ->
     body v st = Ok tt (with_store (alter (G (leaf_index v)) lf) st)) ->
  forall n vaddr vend st pg,
    store st !! lf = Some pg -> level pg = 0 ->
    while_pages n vaddr vend body st
    = Ok tt (with_store (alter (iter_pages G n vaddr vend) lf) st).
Proof.
  intros HG Hbody. induction n as [| n IH]; intros vaddr vend st pg Hpg Hlevel.
  - cbn [while_pages]. unfold ret. f_equal. symmetry. apply with_store_alter_id.
  - cbn [while_pages].
    assert (alter (iter_pages G (S n) vaddr vend) lf
            = alter (fun x => if vaddr <? vend
                              then iter_pages G n (vaddr + 4096) vend (G (leaf_index vaddr) x)
                              else x) lf) as -> by reflexivity.
    destruct (vaddr <? vend).
    + unfold bind. rewrite (Hbody _ _ _ Hpg Hlevel).
      erewrite IH.
      * by rewrite with_store_alter_alter.
      * by apply store_alter_lookup.
      * by rewrite HG.
    + unfold ret. f_equal. symmetry. apply with_store_alter_id.
Qed.

Lemma page_step_iter_pages (G : Z -> PageTablePage -> PageTablePage) :
  (forall i, page_step (G i)) ->
  forall n vaddr vend, page_step (iter_pages G n vaddr vend).
Proof.
  intros HG. induction n as [| n IH]; intros vaddr vend; [apply page_step_id |].
  assert (iter_pages G (S n) vaddr vend
          = fun x => if vaddr <? vend
                     then iter_pages G n (vaddr + 4096) vend (G (leaf_index vaddr) x)
                     else x) as -> by reflexivity.
  destruct (vaddr <? vend); [| apply page_step_id].
  apply (page_step_compose (iter_pages G n (vaddr + 4096) vend) (G (leaf_index vaddr)));
    [apply IH | apply HG].
Qed.

(** Every round establishes [P] at its own index and keeps it at the
    others, so [P] holds at the index of every address the loop visits. *)
Lemma iter_pages_visited (G : Z -> PageTablePage -> PageTablePage)
    (Q : PageTablePage -> Prop) (P : Z -> PageTablePage -> Prop) :
  (forall i pg, Q pg -> Q (G i pg)) ->
  (forall i pg, 0 <= i < 512 -> Q pg -> P i (G i pg)) ->
  (forall i j pg, 0 <= i < 512 -> 0 <= j < 512 -> Q pg -> P j pg -> P j (G i pg)) ->
  forall n k vaddr vend pg,
    Q pg -> (k < n)%nat -> vaddr + 4096 * Z.of_nat k < vend ->
    P (leaf_index (vaddr + 4096 * Z.of_nat k)) (iter_pages G n vaddr vend pg).
Proof.
  intros HQ Hhit Hkeep.
  assert (forall n vaddr vend pg j, 0 <= j < 512 -> Q pg -> P j pg ->
            P j (iter_pages G n vaddr vend pg)) as Hkeep_all.
  { induction n as [| n IH]; intros vaddr vend pg j Hj Hq Hp; [done |].
    cbn [iter_pages]. destruct (vaddr <? vend); [| done].
    apply IH; [done | by apply HQ |]. apply Hkeep; try done. apply leaf_index_range. }
  induction n as [| n IH]; intros k vaddr vend pg Hq Hk Hlt; [lia |].
  cbn [iter_pages].
  assert ((vaddr <? vend) = true) as -> by (apply Z.ltb_lt; lia).
  destruct k as [| k].
  - replace (vaddr + 4096 * Z.of_nat 0) with vaddr by lia.
    apply Hkeep_all; [apply leaf_index_range | by apply HQ |].
    apply Hhit; [apply leaf_index_range | done].
  - replace (vaddr + 4096 * Z.of_nat (S k)) with (vaddr + 4096 + 4096 * Z.of_nat k) by lia.
    apply IH; [by apply HQ | lia | lia].
Qed.

(** Every address of a page-aligned range lies on one of the pages the
    loop visits. *)
Lemma range_page (va ve v : Z) :
  va mod 4096 = 0 -> va <= v < ve ->
  exists k, (k < page_count va ve)%nat /\
            va + 4096 * Z.of_nat k < ve /\
            page_align v = va + 4096 * Z.of_nat k.
Proof.
  intros Ha Hv.
  pose proof (Z.div_mod va 4096 ltac:(lia)) as Hva.
  pose proof (Z.div_mod v 4096 ltac:(lia)) as Hvv.
  pose proof (Z.mod_pos_bound v 4096 ltac:(lia)) as Hvm.
  assert (va / 4096 <= v / 4096) as Hle by (apply Z.div_le_mono; lia).
  exists (Z.to_nat (v / 4096 - va / 4096)).
  rewrite page_align_div, Z2Nat.id by lia.
  assert (va + 4096 * (v / 4096 - va / 4096) = 4096 * (v / 4096)) as Heq by lia.
  split_all; [| lia | lia].
  assert (v / 4096 - va / 4096 + 1 <= (ve - va + 4095) / 4096)
    by (apply Z.div_le_lower_bound; lia).
  unfold page_count. lia.
Qed.

Lemma page_align_mod (vaddr : Z) : page_align vaddr mod 4096 = 0.
Proof. rewrite page_align_div, Z.mul_comm. apply Z.mod_mul. lia. Qed.

Lemma mark_pages_leaf (st : State) (lf : nat) (pg : PageTablePage) (v : Z)
    (s : Status) (perm : Z) :
  store st !! lf = Some pg -> level pg = 0 ->
  mark_pages [lf] (leaf_index v) s perm st
  = Ok tt (with_store (alter (marked_page s perm (leaf_index v)) lf) st).
Proof.
  intros Hpg Hlevel. cbn [mark_pages].
  unfold bind at 1. unfold gets at 1. rewrite (deref_lookup _ _ _ Hpg).
  unfold is_leaf. rewrite Hlevel. cbn [Z.eqb].
  unfold bind, update_page, modify, ret.
  by rewrite with_store_alter_alter.
Qed.

Lemma page_step_marked_page (s : Status) (perm i : Z) :
  live_status s -> page_step (marked_page s perm i).
Proof.
  intros Hs. apply (page_step_compose _ _ page_step_increment_version).
  by apply page_step_mark.
Qed.

(** A scope whose body is the page loop over the cursor's range, each
    round changing the one locked leaf by [G] at the index of its address:
    the scope returns, and the leaf of the start address ends as the loop
    leaves it. *)
Lemma range_scope (G : Z -> PageTablePage -> PageTablePage)
    (round : RCursor -> Z -> M unit) (st : State) (vaddr len : Z) :
  inv None st ->
  (forall i, page_step (G i)) ->
  (forall c lf v st1 pg1,
     locked_pages c = [lf] -> store st1 !! lf = Some pg1 -> level pg1 = 0 ->
     round c v st1 = Ok tt (with_store (alter (G (leaf_index v)) lf) st1)) ->
  let va := page_align vaddr in
  let ve := page_align_up (va + len) in
  exists st' lf pg,
    AddrSpace_lock va ve false
      (fun c => for_pages (vaddr_start c) (vaddr_end c) (round c)) st = Ok tt st' /\
    leaf_of st' va = Some lf /\
    store st' !! lf
    = Some (set_descriptor (set_lock false)
              (iter_pages G (page_count va ve) va ve (set_descriptor (set_lock true) pg))) /\
    List.length (ptes pg) = 512%nat /\
    Forall2 entry_ok (ptes pg) (per_pte_metadata (descriptor pg)).
Proof.
  intros Hinv HG Hround va ve.
  destruct (lock_attempts_inv 9 (page_align va) (page_align_up ve) false st Hinv)
    as (lf & st0 & pg & Hrun & Hinv0 & Hleaf & Hpg & Hlevel & _).
  rewrite leaf_of_page_align in Hleaf.
  destruct (inv_leaf_ready st0 va lf Hinv0 Hleaf) as (pg0 & Hready).
  assert (pg0 = pg) as -> by (destruct Hready; congruence).
  set (F := iter_pages G (page_count va ve) va ve).
  edestruct (scope_page_step st st0 (with_store (alter F lf) (locked_state lf st0))
              va ve va false
              (fun c => for_pages (vaddr_start c) (vaddr_end c) (round c))
              lf pg F tt Hrun Hready)
    as (st' & Hscope & Hready' & _).
  - unfold for_pages. cbn [vaddr_start vaddr_end].
    unfold va at 1 2 3. rewrite page_align_idem. fold va.
    unfold ve at 1 2 3. rewrite page_align_up_idem. fold ve.
    apply (while_pages_one_leaf G _ lf) with (pg := set_descriptor (set_lock true) pg);
      try done.
    + intros i x. apply (ps_level _ (HG i)).
    + intros v st1 pg1 Hpg1 Hl1. by apply (Hround _ _ _ _ pg1).
    + by apply locked_state_lookup.
  - reflexivity.
  - reflexivity.
  - reflexivity.
  - reflexivity.
  - reflexivity.
  - by apply page_step_iter_pages.
  - exists st', lf, pg. destruct Hready' as [Hleaf' Hpg' _ _ _ _ _ _ _].
    destruct (ti_pages _ _ (proj1 Hinv0) _ _ Hpg) as [Hptes _ _ Hentries _].
    by split_all.
Qed.

(** X22: [mmap] of a range, in any quiescent well-formed state.  The call
    returns the aligned start address, and for every address of the
    page-aligned range the entry at that address's leaf index in the leaf
    of the start address is PrivateAnon with the requested permissions.
    The entries are all taken in that one leaf, also for the part of a
    range that lies beyond it. *)
Theorem mmap_marks_range (st : State) (vaddr length prot : Z) :
  inv None st ->
  let va := page_align vaddr in
  let ve := page_align_up (va + length) in
  exists st' lf pg',
    do_syscall_mmap vaddr length prot st = Ok va st' /\
    leaf_of st' va = Some lf /\
    store st' !! lf = Some pg' /\
    forall v, va <= v < ve ->
      status (get_metadata pg' (leaf_index v)) = PrivateAnon /\
      soft_perm (get_metadata pg' (leaf_index v)) = prot.
Proof.
  intros Hinv va ve. unfold do_syscall_mmap, catch. fold va ve.
  destruct (range_scope (marked_page PrivateAnon prot)
              (fun c v => mark_pages (locked_pages c) (leaf_index v) PrivateAnon prot)
              st vaddr length Hinv)
    as (st' & lf & pg & Hscope & Hleaf' & Hpg' & Hptes & Hentries).
  { intros i. apply page_step_marked_page. right; right; reflexivity. }
  { intros c lf v st1 pg1 -> Hpg1 Hl1. by apply (mark_pages_leaf _ _ pg1). }
  fold va ve in Hscope, Hleaf', Hpg'.
  unfold bind at 1. unfold RCursor_mark. rewrite Hscope. unfold ret.
  eexists _, lf, _. split; [reflexivity |].
  split; [exact Hleaf' |]. split; [exact Hpg' |].
  intros v Hv.
  destruct (range_page va ve v (page_align_mod vaddr) Hv) as (k & Hk & Hlt & Halign).
  rewrite <- (leaf_index_page_align v), Halign.
  rewrite !get_metadata_set_lock.
  apply (iter_pages_visited (marked_page PrivateAnon prot)
           (fun x => List.length (per_pte_metadata (descriptor x)) = 512%nat)
           (fun i x => status (get_metadata x i) = PrivateAnon /\
                       soft_perm (get_metadata x i) = prot)).
  - intros i x Hx. unfold marked_page. cbn [descriptor set_descriptor per_pte_metadata
      increment_version]. by rewrite length_metadata_update_metadata.
  - intros i x Hi Hx. unfold marked_page.
    rewrite get_metadata_increment_version, get_metadata_update_metadata by lia.
    done.
  - intros i j x Hi Hj Hx Hp. unfold marked_page.
    rewrite get_metadata_increment_version.
    destruct (decide (i = j)) as [-> | Hne].
    + by rewrite get_metadata_update_metadata by lia.
    + by rewrite get_metadata_update_metadata_ne by lia.
  - cbn [descriptor set_descriptor per_pte_metadata set_lock].
    by rewrite <- (Forall2_length _ _ _ Hentries).
  - done.
  - done.
Qed.

Lemma mmap_marks_range_witness :
  let va := page_align 0x50123 in
  let ve := page_align_up (va + 0x10000) in
  exists st' lf pg',
    do_syscall_mmap 0x50123 0x10000 5 CortenMMSystem_new = Ok va st' /\
    leaf_of st' va = Some lf /\
    store st' !! lf = Some pg' /\
    forall v, va <= v < ve ->
      status (get_metadata pg' (leaf_index v)) = PrivateAnon /\
      soft_perm (get_metadata pg' (leaf_index v)) = 5.
Proof.
  apply (mmap_marks_range CortenMMSystem_new 0x50123 0x10000 5).
  exact inv_fresh.
Defined.

Lemma unmap_range_leaf (st : State) (c : RCursor) (lf : nat) (pg : PageTablePage) (v : Z) :
  locked_pages c = [lf] -> store st !! lf = Some pg -> level pg = 0 ->
  (let* leaf := gets (fun st => first_leaf (store st) (locked_pages c)) in
   match leaf with
   | Some pt_page =>
       let pte_index := leaf_index v in
       let* s := gets (fun st => status (get_metadata (deref st pt_page) pte_index)) in
       if bool_decide (s <> Invalid)
       then let* _ := update_page pt_page (update_pte pte_index PTE_clear) in
            let* _ := update_page pt_page (update_metadata pte_index unmap_metadata) in
            update_page pt_page (set_descriptor increment_version)
       else ret tt
   | None => ret tt
   end) st
  = Ok tt (with_store (alter (unmapped_if_valid (leaf_index v)) lf) st).
Proof.
  intros Hc Hpg Hlevel. rewrite Hc.
  unfold bind at 1. unfold gets at 1.
  rewrite first_leaf_single, (lookup_total_lookup _ _ _ Hpg).
  unfold is_leaf. rewrite Hlevel. cbn [Z.eqb].
  unfold bind at 1. unfold gets at 1. rewrite (deref_lookup _ _ _ Hpg).
  assert (alter (unmapped_if_valid (leaf_index v)) lf (store st)
          = alter (if bool_decide (status (get_metadata pg (leaf_index v)) <> Invalid)
                   then unmapped_page (leaf_index v) else fun x => x) lf (store st)) as Halter.
  { apply list_alter_ext; [| done]. intros x Hx.
    assert (x = pg) as -> by congruence. unfold unmapped_if_valid.
    by destruct (bool_decide _). }
  assert (with_store (alter (unmapped_if_valid (leaf_index v)) lf) st
          = with_store (alter (if bool_decide (status (get_metadata pg (leaf_index v)) <> Invalid)
                               then unmapped_page (leaf_index v) else fun x => x) lf) st)
    as ->.
  { unfold with_store. by rewrite Halter. }
  destruct (bool_decide (status (get_metadata pg (leaf_index v)) <> Invalid)).
  - unfold bind, update_page, modify. by rewrite !with_store_alter_alter.
  - unfold ret. by rewrite with_store_alter_id.
Qed.

Lemma page_step_unmapped_if_valid (i : Z) : page_step (unmapped_if_valid i).
Proof.
  pose proof (page_step_unmapped_page i) as [H1 H2 H3 H4 H5 H6 H7].
  constructor; intros pg; unfold unmapped_if_valid; destruct (bool_decide _); auto.
Qed.

Lemma entry_ok_at (pg : PageTablePage) (i : Z) :
  0 <= i < 512 ->
  List.length (ptes pg) = 512%nat ->
  Forall2 entry_ok (ptes pg) (per_pte_metadata (descriptor pg)) ->
  entry_ok (get_pte pg i) (get_metadata pg i).
Proof.
  intros Hi Hlen Hentries.
  pose proof (Forall2_length _ _ _ Hentries) as Hlen'.
  destruct (lookup_lt_is_Some_2 (ptes pg) (Z.to_nat i)) as [e He]; [lia |].
  destruct (lookup_lt_is_Some_2 (per_pte_metadata (descriptor pg)) (Z.to_nat i))
    as [m Hm]; [lia |].
  unfold get_pte, get_metadata.
  rewrite (list_lookup_total_correct _ _ _ He), (list_lookup_total_correct _ _ _ Hm).
  exact (Forall2_lookup_lr _ _ _ _ _ _ Hentries He Hm).
Qed.

(** X23: [munmap] of a range, in any quiescent well-formed state.  The
    call returns 0, and for every address of the page-aligned range the
    entry at that address's leaf index in the leaf of the start address is
    Invalid and its PTE is not present. *)
Theorem munmap_clears_range (st : State) (vaddr length : Z) :
  inv None st ->
  let va := page_align vaddr in
  let ve := page_align_up (va + length) in
  exists st' lf pg',
    do_syscall_munmap vaddr length st = Ok 0 st' /\
    leaf_of st' va = Some lf /\
    store st' !! lf = Some pg' /\
    forall v, va <= v < ve ->
      status (get_metadata pg' (leaf_index v)) = Invalid /\
      present (get_pte pg' (leaf_index v)) = false.
Proof.
  intros Hinv va ve. unfold do_syscall_munmap, catch. fold va ve.
  destruct (range_scope unmapped_if_valid
              (fun c v =>
                 let* leaf := gets (fun st => first_leaf (store st) (locked_pages c)) in
                 match leaf with
                 | Some pt_page =>
                     let pte_index := leaf_index v in
                     let* s := gets (fun st =>
                                 status (get_metadata (deref st pt_page) pte_index)) in
                     if bool_decide (s <> Invalid)
                     then let* _ := update_page pt_page (update_pte pte_index PTE_clear) in
                          let* _ := update_page pt_page
                                      (update_metadata pte_index unmap_metadata) in
                          update_page pt_page (set_descriptor increment_version)
                     else ret tt
                 | None => ret tt
                 end)
              st vaddr length Hinv)
    as (st' & lf & pg & Hscope & Hleaf' & Hpg' & Hptes & Hentries).
  { apply page_step_unmapped_if_valid. }
  { intros c lf v st1 pg1 Hc Hpg1 Hl1. by apply (unmap_range_leaf _ _ _ pg1). }
  fold va ve in Hscope, Hleaf', Hpg'.
  unfold bind at 1.
  change RCursor_unmap_range with
    (fun c => for_pages (vaddr_start c) (vaddr_end c) (fun vaddr =>
       let* leaf := gets (fun st => first_leaf (store st) (locked_pages c)) in
       match leaf with
       | Some pt_page =>
           let pte_index := leaf_index vaddr in
           let* s := gets (fun st => status (get_metadata (deref st pt_page) pte_index)) in
           if bool_decide (s <> Invalid)
           then let* _ := update_page pt_page (update_pte pte_index PTE_clear) in
                let* _ := update_page pt_page (update_metadata pte_index unmap_metadata) in
                update_page pt_page (set_descriptor increment_version)
           else ret tt
       | None => ret tt
       end)).
  rewrite Hscope. unfold ret.
  eexists _, lf, _. split; [reflexivity |].
  split; [exact Hleaf' |]. split; [exact Hpg' |].
  intros v Hv.
  destruct (range_page va ve v (page_align_mod vaddr) Hv) as (k & Hk & Hlt & Halign).
  rewrite <- (leaf_index_page_align v), Halign.
  rewrite get_metadata_set_lock, get_pte_set_descriptor.
  assert (forall i x, 0 <= i < 512 ->
            List.length (ptes x) = 512%nat /\
            Forall2 entry_ok (ptes x) (per_pte_metadata (descriptor x)) ->
            status (get_metadata (unmapped_if_valid i x) i) = Invalid /\
            present (get_pte (unmapped_if_valid i x) i) = false) as Hhit.
  { intros i x Hi [Hlen Hok].
    pose proof (Forall2_length _ _ _ Hok) as Hlen'.
    unfold unmapped_if_valid. case_bool_decide as Hs.
    - entry_simp. done.
    - assert (status (get_metadata x i) = Invalid) as Hinvalid.
      { by destruct (decide (status (get_metadata x i) = Invalid)). }
      split; [done |].
      pose proof (entry_ok_at x i Hi Hlen Hok) as Hentry.
      destruct (present (get_pte x i)) eqn:Hp; [| done].
      specialize (Hentry Hp). rewrite Hinvalid in Hentry.
      destruct Hentry as [? | [? | ?]]; discriminate. }
  apply (iter_pages_visited unmapped_if_valid
           (fun x => List.length (ptes x) = 512%nat /\
                     Forall2 entry_ok (ptes x) (per_pte_metadata (descriptor x)))
           (fun i x => status (get_metadata x i) = Invalid /\
                       present (get_pte x i) = false)).
  - intros i x [Hlen Hok].
    pose proof (page_step_unmapped_if_valid i) as [_ _ _ _ H5 _ H7].
    split; [by rewrite H5 | by apply H7].
  - exact Hhit.
  - intros i j x Hi Hj Hx Hp.
    destruct (decide (i = j)) as [-> | Hne]; [by apply Hhit |].
    unfold unmapped_if_valid. case_bool_decide as Hs; [| done].
    unfold unmapped_page.
    rewrite get_metadata_increment_version, get_pte_set_descriptor.
    rewrite get_metadata_update_metadata_ne, get_pte_update_metadata by lia.
    rewrite get_metadata_update_pte, get_pte_update_pte_ne by lia.
    done.
  - done.
  - done.
  - done.
Qed.

Lemma munmap_clears_range_witness :
  let va := page_align 0x30000 in
  let ve := page_align_up (va + 0x3000) in
  exists st' lf pg',
    do_syscall_munmap 0x30000 0x3000 shared_page = Ok 0 st' /\
    leaf_of st' va = Some lf /\
    store st' !! lf = Some pg' /\
    forall v, va <= v < ve ->
      status (get_metadata pg' (leaf_index v)) = Invalid /\
      present (get_pte pg' (leaf_index v)) = false.
Proof.
  apply (munmap_clears_range shared_page 0x30000 0x3000).
  destruct (run_operations_inv
              [Mmap 0x30000 0x1000 3; PageFault 0x30000 true; ForkCow 0x30000 0x1000]
              ltac:(repeat constructor) _ inv_fresh) as (st & Hrun & Hinv).
  vm_compute in Hrun. injection Hrun as <-. exact Hinv.
Defined.

(* ===================================================================== *)
(** ** The VMA-based model of the benchmarks *)
(* ===================================================================== *)

Lemma Forall_insert_by_start (P : LinuxMock.VMA -> Prop) (x : LinuxMock.VMA)
    (l : list LinuxMock.VMA) :
  Forall P (LinuxMock.insert_by_start x l) <-> P x /\ Forall P l.
Proof.
  induction l as [| y l IH]; simpl.
  - rewrite Forall_singleton. split; [intros H; split; [done | constructor] | tauto].
  - destruct (LinuxMock.start x <=? LinuxMock.start y).
    + by rewrite Forall_cons.
    + rewrite !Forall_cons, IH. tauto.
Qed.

Lemma Forall_sort_by_start (P : LinuxMock.VMA -> Prop) (l : list LinuxMock.VMA) :
  Forall P (LinuxMock.sort_by_start l) <-> Forall P l.
Proof.
  induction l as [| x l IH]; [done |].
  cbn [LinuxMock.sort_by_start foldr]. fold (LinuxMock.sort_by_start l).
  by rewrite Forall_insert_by_start, Forall_cons, IH.
Qed.

Lemma sorted_insert_by_start (x : LinuxMock.VMA) (l : list LinuxMock.VMA) :
  sorted_by_start l -> sorted_by_start (LinuxMock.insert_by_start x l).
Proof.
  induction l as [| y l IH]; intros Hs; simpl.
  - split; [constructor | done].
  - destruct Hs as [Hy Hs].
    destruct (LinuxMock.start x <=? LinuxMock.start y) eqn:Hle.
    + apply Z.leb_le in Hle. split; [| by split].
      constructor; [done |]. eapply Forall_impl; [exact Hy |]. intros z Hz. simpl in Hz. lia.
    + apply Z.leb_gt in Hle. split; [| by apply IH].
      apply Forall_insert_by_start. split; [lia | done].
Qed.

Lemma sorted_sort_by_start (l : list LinuxMock.VMA) :
  sorted_by_start (LinuxMock.sort_by_start l).
Proof.
  induction l as [| x l IH]; [done |].
  cbn [LinuxMock.sort_by_start foldr]. by apply sorted_insert_by_start.
Qed.

Lemma disjoint_sym (x y : LinuxMock.VMA) : disjoint x y -> disjoint y x.
Proof. unfold disjoint. tauto. Qed.

Lemma pairwise_insert_by_start (x : LinuxMock.VMA) (l : list LinuxMock.VMA) :
  pairwise_disjoint (LinuxMock.insert_by_start x l)
  <-> Forall (disjoint x) l /\ pairwise_disjoint l.
Proof.
  induction l as [| y l IH]; simpl.
  - split; [intros _; split; [constructor | done] | intros _; split; [constructor | done]].
  - destruct (LinuxMock.start x <=? LinuxMock.start y); [done |].
    cbn [pairwise_disjoint]. rewrite Forall_insert_by_start, IH, Forall_cons.
    split.
    + intros ((Hyx & Hy) & Hx & Hl). split_all; first [done | by apply disjoint_sym].
    + intros ((Hxy & Hx) & Hy & Hl). split_all; first [done | by apply disjoint_sym].
Qed.

Lemma pairwise_sort_by_start (l : list LinuxMock.VMA) :
  pairwise_disjoint (LinuxMock.sort_by_start l) <-> pairwise_disjoint l.
Proof.
  induction l as [| x l IH]; [done |].
  cbn [LinuxMock.sort_by_start foldr pairwise_disjoint]. fold (LinuxMock.sort_by_start l).
  by rewrite pairwise_insert_by_start, Forall_sort_by_start, IH.
Qed.

Lemma pairwise_snoc (l : list LinuxMock.VMA) (x : LinuxMock.VMA) :
  pairwise_disjoint (l ++ [x]) <-> pairwise_disjoint l /\ Forall (fun y => disjoint y x) l.
Proof.
  induction l as [| y l IH]; simpl.
  - split; [intros _; split; [done | constructor] | intros _; split; [constructor | done]].
  - rewrite Forall_app, Forall_singleton, IH, Forall_cons. tauto.
Qed.

Lemma Forall_filter_bool {A} (P : A -> Prop) (f : A -> bool) (l : list A) :
  Forall P l -> Forall P (List.filter f l).
Proof.
  induction 1 as [| x l Hx Hl IH]; simpl; [constructor |].
  destruct (f x); [by constructor | done].
Qed.

Lemma sorted_filter (f : LinuxMock.VMA -> bool) (l : list LinuxMock.VMA) :
  sorted_by_start l -> sorted_by_start (List.filter f l).
Proof.
  induction l as [| x l IH]; [done |]. intros [Hx Hs]. simpl.
  destruct (f x); [| by apply IH].
  split; [by apply Forall_filter_bool | by apply IH].
Qed.

Lemma pairwise_filter (f : LinuxMock.VMA -> bool) (l : list LinuxMock.VMA) :
  pairwise_disjoint l -> pairwise_disjoint (List.filter f l).
Proof.
  induction l as [| x l IH]; [done |]. intros [Hx Hs]. simpl.
  destruct (f x); [| by apply IH].
  split; [by apply Forall_filter_bool | by apply IH].
Qed.

Lemma existsb_overlaps_false (va ve : Z) (l : list LinuxMock.VMA) :
  existsb (LinuxMock.overlaps va ve) l = false ->
  Forall (fun y => disjoint y (LinuxMock.mkVMA va ve 0 0)) l.
Proof.
  induction l as [| y l IH]; simpl; [constructor |].
  intros H. apply orb_false_iff in H as [Hy Hl].
  constructor; [| by apply IH].
  unfold LinuxMock.overlaps in Hy. apply negb_false_iff, orb_true_iff in Hy.
  unfold disjoint. simpl. destruct Hy as [Hy | Hy]; [right | left]; lia.
Qed.

Lemma sorted_lookup (l : list LinuxMock.VMA) :
  sorted_by_start l ->
  forall i j x y, (i < j)%nat -> l !! i = Some x -> l !! j = Some y ->
    LinuxMock.start x <= LinuxMock.start y.
Proof.
  induction l as [| z l IH]; intros Hs i j x y Hij Hi Hj; [done |].
  destruct Hs as [Hz Hs]. destruct j as [| j]; [lia |]. simpl in Hj.
  destruct i as [| i]; simpl in Hi.
  - injection Hi as <-. exact (Forall_lookup_1 _ _ _ _ Hz Hj).
  - apply (IH Hs i j); [lia | done | done].
Qed.

Lemma pairwise_lookup (l : list LinuxMock.VMA) :
  pairwise_disjoint l ->
  forall i j x y, i <> j -> l !! i = Some x -> l !! j = Some y -> disjoint x y.
Proof.
  induction l as [| z l IH]; intros Hs i j x y Hij Hi Hj; [done |].
  destruct Hs as [Hz Hs].
  destruct i as [| i], j as [| j]; simpl in Hi, Hj; try done.
  - injection Hi as <-. exact (Forall_lookup_1 _ _ _ _ Hz Hj).
  - injection Hj as <-. apply disjoint_sym. exact (Forall_lookup_1 _ _ _ _ Hz Hi).
  - apply (IH Hs i j); [lia | done | done].
Qed.

Lemma fork_pages_frame (n : nat) (ve : Z) :
  forall va m,
    LinuxMock.mmap_lock (LinuxMock.fork_pages n va ve m) = LinuxMock.mmap_lock m /\
    LinuxMock.pfn_lock (LinuxMock.fork_pages n va ve m) = LinuxMock.pfn_lock m /\
    LinuxMock.vmas (LinuxMock.fork_pages n va ve m) = LinuxMock.vmas m /\
    LinuxMock.next_pfn (LinuxMock.fork_pages n va ve m) = LinuxMock.next_pfn m.
Proof.
  induction n as [| n IH]; intros va m; [done |].
  cbn [LinuxMock.fork_pages]. destruct (va <? ve); [| done].
  destruct (LinuxMock.page_table m !! va) as [pte |]; [| apply IH].
  destruct (LinuxMock.SimplePTE_is_valid pte); [| apply IH].
  destruct (LinuxMock.pfn pte); [| apply IH].
  match goal with |- context [LinuxMock.fork_pages n ?a ve ?m1] =>
    destruct (IH a m1) as (H1 & H2 & H3 & H4) end.
  by rewrite H1, H2, H3, H4.
Qed.

Lemma linux_run_call_inv (c : LinuxMock.call) (m : LinuxMock.Mock) :
  LinuxMock.mmap_lock m = false -> LinuxMock.pfn_lock m = false ->
  sorted_by_start (LinuxMock.vmas m) -> pairwise_disjoint (LinuxMock.vmas m) ->
  exists m',
    LinuxMock.run_call c m = Some m' /\
    LinuxMock.mmap_lock m' = false /\ LinuxMock.pfn_lock m' = false /\
    sorted_by_start (LinuxMock.vmas m') /\ pairwise_disjoint (LinuxMock.vmas m').
Proof.
  intros Hmm Hpfn Hs Hd. destruct c as [vaddr length prot | vaddr length | vaddr w | vaddr length];
    cbn [LinuxMock.run_call].
  - unfold LinuxMock.do_mmap. rewrite Hmm.
    destruct (existsb _ (LinuxMock.vmas m)) eqn:Hex; cbn [fmap option_fmap option_map snd].
    + by exists m.
    + eexists. split; [reflexivity |].
      cbn [LinuxMock.mmap_lock LinuxMock.pfn_lock LinuxMock.vmas LinuxMock.with_vmas].
      split_all; try done.
      * apply sorted_sort_by_start.
      * apply pairwise_sort_by_start, pairwise_snoc. split; [done |].
        apply existsb_overlaps_false in Hex.
        eapply Forall_impl; [exact Hex |]. by intros y Hy.
  - unfold LinuxMock.do_munmap. rewrite Hmm. cbn [fmap option_fmap option_map snd].
    eexists. split; [reflexivity |].
    cbn [LinuxMock.mmap_lock LinuxMock.pfn_lock LinuxMock.vmas LinuxMock.with_vmas
         LinuxMock.with_page_table].
    split_all; try done; [by apply sorted_filter | by apply pairwise_filter].
  - unfold LinuxMock.handle_page_fault. rewrite Hmm.
    destruct (find _ (LinuxMock.vmas m)) as [vma |]; [| by exists m].
    destruct (LinuxMock.page_table m !! _) as [pte |].
    + destruct (w && negb (LinuxMock.rw pte)); by exists m.
    + unfold LinuxMock.allocate_pfn. rewrite Hpfn.
      cbn [fmap option_fmap option_map snd]. eexists. split; [reflexivity |]. done.
  - unfold LinuxMock.do_fork_cow. rewrite Hmm. cbn [fmap option_fmap option_map snd].
    eexists. split; [reflexivity |].
    match goal with |- context [LinuxMock.fork_pages ?n ?va ?ve m] =>
      destruct (fork_pages_frame n ve va m) as (H1 & H2 & H3 & _) end.
    by rewrite H1, H2, H3.
Qed.

(** X24: after any sequence of [do_mmap], [do_munmap], [handle_page_fault]
    and [do_fork_cow] on a fresh [LinuxMock], no call has blocked, the
    areas are in order of their start addresses, any two of them are
    disjoint, and no address is contained in two areas. *)
Theorem linux_vmas_sorted_disjoint (cs : list LinuxMock.call) :
  exists m,
    LinuxMock.run_calls cs LinuxMock.new = Some m /\
    forall i j x y,
      (i < j)%nat ->
      LinuxMock.vmas m !! i = Some x -> LinuxMock.vmas m !! j = Some y ->
      LinuxMock.start x <= LinuxMock.start y /\
      (LinuxMock.end_ x <= LinuxMock.start y \/ LinuxMock.end_ y <= LinuxMock.start x) /\
      forall vaddr, LinuxMock.contains x vaddr = true -> LinuxMock.contains y vaddr = false.
Proof.
  assert (forall m,
            LinuxMock.mmap_lock m = false -> LinuxMock.pfn_lock m = false ->
            sorted_by_start (LinuxMock.vmas m) -> pairwise_disjoint (LinuxMock.vmas m) ->
            exists m', LinuxMock.run_calls cs m = Some m' /\
                       sorted_by_start (LinuxMock.vmas m') /\
                       pairwise_disjoint (LinuxMock.vmas m')) as Hrun.
  { induction cs as [| c cs IH]; intros m Hmm Hpfn Hs Hd; [by exists m |].
    destruct (linux_run_call_inv c m Hmm Hpfn Hs Hd) as (m1 & Hc & H1 & H2 & H3 & H4).
    cbn [LinuxMock.run_calls]. rewrite Hc. by apply IH. }
  destruct (Hrun LinuxMock.new) as (m & Hm & Hs & Hd); try done.
  exists m. split; [done |]. intros i j x y Hij Hi Hj.
  pose proof (sorted_lookup _ Hs i j x y Hij Hi Hj) as Hle.
  pose proof (pairwise_lookup _ Hd i j x y ltac:(lia) Hi Hj) as Hdis.
  split_all; [done | done |].
  intros vaddr Hx. unfold LinuxMock.contains in *.
  apply andb_true_iff in Hx as [H1 H2]. apply Z.leb_le in H1. apply Z.ltb_lt in H2.
  apply andb_false_iff. destruct Hdis; [left; apply Z.leb_gt | right; apply Z.ltb_ge]; lia.
Qed.

Lemma In_insert_by_start (x y : LinuxMock.VMA) (l : list LinuxMock.VMA) :
  In y (LinuxMock.insert_by_start x l) <-> y = x \/ In y l.
Proof.
  induction l as [| z l IH]; simpl; [intuition |].
  destruct (LinuxMock.start x <=? LinuxMock.start z); simpl; [intuition |].
  rewrite IH. intuition.
Qed.

Lemma In_sort_by_start (y : LinuxMock.VMA) (l : list LinuxMock.VMA) :
  In y (LinuxMock.sort_by_start l) <-> In y l.
Proof.
  induction l as [| x l IH]; [done |].
  cbn [LinuxMock.sort_by_start foldr]. fold (LinuxMock.sort_by_start l).
  rewrite In_insert_by_start, IH. simpl. intuition.
Qed.

Lemma find_the_one {A} (f : A -> bool) (l : list A) (x : A) :
  In x l -> f x = true -> (forall y, In y l -> f y = true -> y = x) ->
  List.find f l = Some x.
Proof.
  induction l as [| z l IH]; intros Hin Hx Huniq; [done |]. simpl.
  destruct (f z) eqn:Hz.
  - f_equal. apply Huniq; [by left | done].
  - destruct Hin as [-> | Hin]; [congruence |].
    apply IH; [done | done |]. intros y Hy. apply Huniq. by right.
Qed.

(** The end of a range of positive length lies beyond its aligned start. *)
Lemma range_not_empty (vaddr length : Z) :
  0 < length -> page_align vaddr < page_align_up (page_align vaddr + length).
Proof.
  intros Hlen. rewrite page_align_up_div, page_align_div.
  assert (vaddr / 4096 + 1 <= (4096 * (vaddr / 4096) + length + 4095) / 4096)
    by (apply Z.div_le_lower_bound; lia).
  lia.
Qed.

Lemma existsb_overlaps_accepts (va ve : Z) (l : list LinuxMock.VMA) :
  Forall (fun vma => ve <= LinuxMock.start vma \/ LinuxMock.end_ vma <= va) l ->
  existsb (LinuxMock.overlaps va ve) l = false.
Proof.
  induction 1 as [| y l Hy Hl IH]; [done |]. simpl. rewrite IH, orb_false_r.
  unfold LinuxMock.overlaps. apply negb_false_iff, orb_true_iff.
  destruct Hy; [left; apply Z.leb_le | right; apply Z.geb_le]; lia.
Qed.

(** X25: [do_mmap] of a range of positive length that no area overlaps is
    accepted and returns the aligned start address; the same call made
    again is refused with -1 and changes nothing, because the range now
    overlaps the area the first call created. *)
Theorem linux_mmap_twice (m : LinuxMock.Mock) (vaddr length prot : Z) :
  let va := page_align vaddr in
  let ve := page_align_up (va + length) in
  LinuxMock.mmap_lock m = false ->
  0 < length ->
  Forall (fun vma => ve <= LinuxMock.start vma \/ LinuxMock.end_ vma <= va)
    (LinuxMock.vmas m) ->
  exists m1,
    LinuxMock.do_mmap vaddr length prot m = Some (va, m1) /\
    In (LinuxMock.mkVMA va ve prot 0) (LinuxMock.vmas m1) /\
    LinuxMock.do_mmap vaddr length prot m1 = Some (-1, m1).
Proof.
  intros va ve Hmm Hlen Hfree.
  pose proof (range_not_empty vaddr length Hlen) as Hne. fold va ve in Hne.
  unfold LinuxMock.do_mmap. fold (page_align vaddr). fold va.
  replace (va + length + 4095) with (va + length + 0xFFF) by done.
  fold (page_align_up (va + length)). fold ve.
  rewrite Hmm, (existsb_overlaps_accepts va ve _ Hfree).
  eexists. split; [reflexivity |].
  cbn [LinuxMock.mmap_lock LinuxMock.vmas LinuxMock.with_vmas].
  assert (In (LinuxMock.mkVMA va ve prot 0)
            (LinuxMock.sort_by_start (LinuxMock.vmas m ++ [LinuxMock.mkVMA va ve prot 0])))
    as Hin.
  { apply In_sort_by_start, in_or_app. right. by left. }
  split; [exact Hin |].
  rewrite Hmm.
  assert (existsb (LinuxMock.overlaps va ve)
            (LinuxMock.sort_by_start (LinuxMock.vmas m ++ [LinuxMock.mkVMA va ve prot 0]))
          = true) as ->; [| done].
  apply existsb_exists. exists (LinuxMock.mkVMA va ve prot 0). split; [exact Hin |].
  unfold LinuxMock.overlaps. cbn [LinuxMock.start LinuxMock.end_].
  apply negb_true_iff, orb_false_iff. split; lia.
Qed.

Lemma linux_mmap_twice_witness :
  exists m1,
    LinuxMock.do_mmap 0x10010 0x2000 3 LinuxMock.new = Some (page_align 0x10010, m1) /\
    In (LinuxMock.mkVMA (page_align 0x10010)
          (page_align_up (page_align 0x10010 + 0x2000)) 3 0) (LinuxMock.vmas m1) /\
    LinuxMock.do_mmap 0x10010 0x2000 3 m1 = Some (-1, m1).
Proof.
  apply (linux_mmap_twice LinuxMock.new 0x10010 0x2000 3).
  - reflexivity.
  - lia.
  - constructor.
Defined.

(** X26: the first fault in an area created by [do_mmap] maps the next
    frame of the allocator, and the PTE is writable exactly when the
    protection given to [do_mmap] has its write bit; afterwards a read of
    the page is handled without a new frame, and a write is handled
    exactly when the PTE is writable. *)
Theorem linux_fault_honours_prot (m : LinuxMock.Mock) (vaddr length prot v : Z)
    (is_write : bool) :
  let va := page_align vaddr in
  let ve := page_align_up (va + length) in
  let writable := negb (Z.land prot 2 =? 0) in
  LinuxMock.mmap_lock m = false ->
  LinuxMock.pfn_lock m = false ->
  Forall (fun vma => ve <= LinuxMock.start vma \/ LinuxMock.end_ vma <= va)
    (LinuxMock.vmas m) ->
  va <= v < ve ->
  LinuxMock.page_table m !! page_align v = None ->
  exists m1 m2,
    LinuxMock.do_mmap vaddr length prot m = Some (va, m1) /\
    LinuxMock.handle_page_fault v is_write m1 = Some (true, m2) /\
    LinuxMock.page_table m2 !! page_align v
    = Some (LinuxMock.mkSimplePTE (Some (LinuxMock.next_pfn m)) true writable) /\
    LinuxMock.next_pfn m2 = LinuxMock.next_pfn m + 1 /\
    LinuxMock.handle_page_fault v false m2 = Some (true, m2) /\
    LinuxMock.handle_page_fault v true m2 = Some (writable, m2).
Proof.
  intros va ve writable Hmm Hpfn Hfree Hv Hpt.
  unfold LinuxMock.do_mmap. fold (page_align vaddr). fold va.
  replace (va + length + 4095) with (va + length + 0xFFF) by done.
  fold (page_align_up (va + length)). fold ve.
  rewrite Hmm, (existsb_overlaps_accepts va ve _ Hfree).
  set (l1 := LinuxMock.sort_by_start (LinuxMock.vmas m ++ [LinuxMock.mkVMA va ve prot 0])).
  assert (List.find (fun x => LinuxMock.contains x v) l1
          = Some (LinuxMock.mkVMA va ve prot 0)) as Hfind.
  { apply find_the_one.
    - apply In_sort_by_start, in_or_app. right. by left.
    - unfold LinuxMock.contains. cbn [LinuxMock.start LinuxMock.end_].
      apply andb_true_iff. split; [apply Z.leb_le | apply Z.ltb_lt]; lia.
    - intros y Hy Hc. apply In_sort_by_start, in_app_or in Hy as [Hy | [<- | []]]; [| done].
      rewrite Forall_forall in Hfree. apply list_elem_of_In in Hy.
      specialize (Hfree y Hy). unfold LinuxMock.contains in Hc.
      apply andb_true_iff in Hc as [H1 H2]. apply Z.leb_le in H1. apply Z.ltb_lt in H2.
      lia. }
  eexists. eexists. split; [reflexivity |].
  unfold LinuxMock.handle_page_fault. fold (page_align v).
  cbn [LinuxMock.mmap_lock LinuxMock.vmas LinuxMock.page_table LinuxMock.with_vmas].
  rewrite Hmm. fold l1. rewrite Hfind, Hpt.
  unfold LinuxMock.allocate_pfn.
  cbn [LinuxMock.pfn_lock LinuxMock.with_vmas LinuxMock.next_pfn LinuxMock.prot].
  rewrite Hpfn. split; [reflexivity |].
  cbn [LinuxMock.mmap_lock LinuxMock.vmas LinuxMock.page_table LinuxMock.next_pfn
       LinuxMock.with_vmas LinuxMock.with_page_table LinuxMock.with_next_pfn].
  rewrite Hmm. fold l1. rewrite Hfind, lookup_insert_eq.
  cbn [LinuxMock.rw andb]. fold writable.
  split_all; try done.
  by destruct writable.
Qed.

Lemma linux_fault_honours_prot_witness :
  let va := page_align 0x10010 in
  let writable := negb (Z.land 1 2 =? 0) in
  exists m1 m2,
    LinuxMock.do_mmap 0x10010 0x2000 1 LinuxMock.new = Some (va, m1) /\
    LinuxMock.handle_page_fault 0x11234 true m1 = Some (true, m2) /\
    LinuxMock.page_table m2 !! page_align 0x11234
    = Some (LinuxMock.mkSimplePTE (Some (LinuxMock.next_pfn LinuxMock.new)) true writable) /\
    LinuxMock.next_pfn m2 = LinuxMock.next_pfn LinuxMock.new + 1 /\
    LinuxMock.handle_page_fault 0x11234 false m2 = Some (true, m2) /\
    LinuxMock.handle_page_fault 0x11234 true m2 = Some (writable, m2).
Proof.
  apply (linux_fault_honours_prot LinuxMock.new 0x10010 0x2000 1 0x11234 true).
  - reflexivity.
  - reflexivity.
  - constructor.
  - vm_compute. split; [discriminate | reflexivity].
  - reflexivity.
Defined.

Lemma clear_pages_absent (n : nat) (ve a : Z) :
  forall cur t, t !! a = None -> LinuxMock.clear_pages n cur ve t !! a = None.
Proof.
  induction n as [| n IH]; intros cur t Ht; [done |].
  cbn [LinuxMock.clear_pages]. destruct (cur <? ve); [| done].
  apply IH. destruct (t !! cur); [| done].
  rewrite lookup_delete. by case_decide.
Qed.

Lemma clear_pages_visited (n : nat) (ve : Z) :
  forall k cur t, (k < n)%nat -> cur + 4096 * Z.of_nat k < ve ->
    LinuxMock.clear_pages n cur ve t !! (cur + 4096 * Z.of_nat k) = None.
Proof.
  induction n as [| n IH]; intros k cur t Hk Hlt; [lia |].
  cbn [LinuxMock.clear_pages].
  assert ((cur <? ve) = true) as -> by (apply Z.ltb_lt; lia).
  destruct k as [| k].
  - replace (cur + 4096 * Z.of_nat 0) with cur by lia.
    apply clear_pages_absent. destruct (t !! cur) eqn:Hc; [| done].
    apply lookup_delete_eq.
  - replace (cur + 4096 * Z.of_nat (S k)) with (cur + 0x1000 + 4096 * Z.of_nat k) by lia.
    apply IH; lia.
Qed.

Lemma clear_pages_outside (n : nat) (ve a : Z) :
  forall cur t, (a < cur \/ ve <= a) ->
    LinuxMock.clear_pages n cur ve t !! a = t !! a.
Proof.
  induction n as [| n IH]; intros cur t Ha; [done |].
  cbn [LinuxMock.clear_pages]. destruct (cur <? ve) eqn:Hlt; [| done].
  apply Z.ltb_lt in Hlt.
  rewrite IH by lia. destruct (t !! cur); [| done].
  apply lookup_delete_ne. lia.
Qed.

(** X27: [do_munmap] returns 0 and removes the PTE of every page of the
    aligned range from the page table, leaving the entries outside the
    range alone; it removes exactly the areas that lie entirely inside the
    range, so an area that is only partly covered stays whole.  The
    allocator and the refcount map are not touched. *)
Theorem linux_munmap_clears_range (m : LinuxMock.Mock) (vaddr length : Z) :
  let va := page_align vaddr in
  let ve := page_align_up (va + length) in
  LinuxMock.mmap_lock m = false ->
  exists m',
    LinuxMock.do_munmap vaddr length m = Some (0, m') /\
    (forall a, va <= a < ve -> LinuxMock.page_table m' !! page_align a = None) /\
    (forall a, a < va \/ ve <= a ->
       LinuxMock.page_table m' !! a = LinuxMock.page_table m !! a) /\
    (forall vma, In vma (LinuxMock.vmas m') <->
       In vma (LinuxMock.vmas m) /\
       ~ (va <= LinuxMock.start vma /\ LinuxMock.end_ vma <= ve)) /\
    LinuxMock.next_pfn m' = LinuxMock.next_pfn m /\
    LinuxMock.cow_refcounts m' = LinuxMock.cow_refcounts m.
Proof.
  intros va ve Hmm.
  unfold LinuxMock.do_munmap. fold (page_align vaddr). fold va.
  replace (va + length + 4095) with (va + length + 0xFFF) by done.
  fold (page_align_up (va + length)). fold ve.
  rewrite Hmm. eexists. split; [reflexivity |].
  cbn [LinuxMock.page_table LinuxMock.vmas LinuxMock.next_pfn LinuxMock.cow_refcounts
       LinuxMock.with_page_table LinuxMock.with_vmas].
  split_all; try done.
  - intros a Ha.
    destruct (range_page va ve a (page_align_mod vaddr) Ha) as (k & Hk & Hlt & ->).
    by apply clear_pages_visited.
  - intros a Ha. by apply clear_pages_outside.
  - intros vma. rewrite filter_In. apply and_iff_compat_l.
    rewrite negb_true_iff, andb_false_iff, Z.geb_leb, !Z.leb_gt. lia.
Qed.

Lemma linux_munmap_clears_range_witness :
  let va := page_align 0x10010 in
  let ve := page_align_up (va + 0x2000) in
  exists m',
    LinuxMock.do_munmap 0x10010 0x2000 LinuxMock.new = Some (0, m') /\
    (forall a, va <= a < ve -> LinuxMock.page_table m' !! page_align a = None) /\
    (forall a, a < va \/ ve <= a ->
       LinuxMock.page_table m' !! a = LinuxMock.page_table LinuxMock.new !! a) /\
    (forall vma, In vma (LinuxMock.vmas m') <->
       In vma (LinuxMock.vmas LinuxMock.new) /\
       ~ (va <= LinuxMock.start vma /\ LinuxMock.end_ vma <= ve)) /\
    LinuxMock.next_pfn m' = LinuxMock.next_pfn LinuxMock.new /\
    LinuxMock.cow_refcounts m' = LinuxMock.cow_refcounts LinuxMock.new.
Proof.
  apply (linux_munmap_clears_range LinuxMock.new 0x10010 0x2000).
  reflexivity.
Defined.

(** X28: the round trip on a fresh [LinuxMock], for every range and every
    address [v] in it: [do_mmap] returns the aligned start, the fault at
    [v] is handled, [do_munmap] of the same range returns 0 and removes
    both the area and the PTE, and a later fault at [v] is refused. *)
Theorem linux_mmap_fault_munmap_roundtrip (vaddr length prot v : Z)
    (is_write is_write' : bool) :
  let va := page_align vaddr in
  let ve := page_align_up (va + length) in
  va <= v < ve ->
  exists m1 m2 m3,
    LinuxMock.do_mmap vaddr length prot LinuxMock.new = Some (va, m1) /\
    LinuxMock.handle_page_fault v is_write m1 = Some (true, m2) /\
    LinuxMock.do_munmap vaddr length m2 = Some (0, m3) /\
    LinuxMock.vmas m3 = [] /\
    LinuxMock.page_table m3 !! page_align v = None /\
    LinuxMock.handle_page_fault v is_write' m3 = Some (false, m3).
Proof.
  intros va ve Hv.
  unfold LinuxMock.do_mmap, LinuxMock.do_munmap. fold (page_align vaddr). fold va.
  replace (va + length + 4095) with (va + length + 0xFFF) by done.
  fold (page_align_up (va + length)). fold ve.
  unfold LinuxMock.new.
  cbn [LinuxMock.mmap_lock LinuxMock.vmas existsb app
       LinuxMock.sort_by_start foldr LinuxMock.insert_by_start].
  eexists. eexists. eexists. split; [reflexivity |].
  assert (LinuxMock.contains (LinuxMock.mkVMA va ve prot 0) v = true) as Hc.
  { unfold LinuxMock.contains. cbn [LinuxMock.start LinuxMock.end_].
    apply andb_true_iff. split; [apply Z.leb_le | apply Z.ltb_lt]; lia. }
  unfold LinuxMock.handle_page_fault at 1. fold (page_align v).
  cbn [LinuxMock.mmap_lock LinuxMock.vmas LinuxMock.page_table LinuxMock.with_vmas
       List.find].
  rewrite Hc, lookup_empty.
  unfold LinuxMock.allocate_pfn. cbn [LinuxMock.pfn_lock LinuxMock.with_vmas].
  split; [reflexivity |].
  cbn [LinuxMock.mmap_lock LinuxMock.vmas LinuxMock.page_table LinuxMock.with_vmas
       LinuxMock.with_page_table LinuxMock.with_next_pfn List.filter
       LinuxMock.start LinuxMock.end_].
  assert (negb ((va >=? va) && (ve <=? ve)) = false) as ->.
  { apply negb_false_iff, andb_true_iff. split; lia. }
  split; [reflexivity |].
  cbn [LinuxMock.vmas LinuxMock.page_table LinuxMock.with_vmas LinuxMock.with_page_table].
  split; [reflexivity |].
  assert (LinuxMock.clear_pages (page_count va ve) va ve
            (<[page_align v := LinuxMock.mkSimplePTE (Some 4096) true
                                 (negb (Z.land prot 2 =? 0))]> ∅) !! page_align v = None)
    as Hgone.
  { destruct (range_page va ve v (page_align_mod vaddr) Hv) as (k & Hk & Hlt & ->).
    by apply clear_pages_visited. }
  split; [exact Hgone |].
  unfold LinuxMock.handle_page_fault.
  cbn [LinuxMock.mmap_lock LinuxMock.vmas LinuxMock.with_vmas LinuxMock.with_page_table
       List.find].
  reflexivity.
Qed.

Lemma linux_mmap_fault_munmap_roundtrip_witness :
  exists m1 m2 m3,
    LinuxMock.do_mmap 0x10010 0x2000 3 LinuxMock.new = Some (page_align 0x10010, m1) /\
    LinuxMock.handle_page_fault 0x11234 true m1 = Some (true, m2) /\
    LinuxMock.do_munmap 0x10010 0x2000 m2 = Some (0, m3) /\
    LinuxMock.vmas m3 = [] /\
    LinuxMock.page_table m3 !! page_align 0x11234 = None /\
    LinuxMock.handle_page_fault 0x11234 false m3 = Some (false, m3).
Proof.
  apply (linux_mmap_fault_munmap_roundtrip 0x10010 0x2000 3 0x11234 true false).
  vm_compute. split; [discriminate | reflexivity].
Defined.

(** X29: [do_fork_cow] on one page that has a valid PTE holding frame [F]
    returns true, clears the rw bit of the PTE and raises the refcount of
    [F] from [cow_refcounts.get(F, 1)] by one.  This model has no
    copy-on-write resolution: when the page lies in an area, a write fault
    on it is refused from then on, while a read is still handled. *)
Theorem linux_fork_cow_write_refused (m : LinuxMock.Mock) (a F : Z)
    (pte : LinuxMock.SimplePTE) (vma : LinuxMock.VMA) :
  LinuxMock.mmap_lock m = false ->
  a mod 4096 = 0 ->
  LinuxMock.page_table m !! a = Some pte ->
  LinuxMock.present pte = true ->
  LinuxMock.pfn pte = Some F ->
  List.find (fun x => LinuxMock.contains x a) (LinuxMock.vmas m) = Some vma ->
  exists m',
    LinuxMock.do_fork_cow a 4096 m = Some (true, m') /\
    LinuxMock.page_table m' !! a = Some (LinuxMock.mkSimplePTE (Some F) true false) /\
    LinuxMock.cow_refcounts m'
    = <[F := default 1 (LinuxMock.cow_refcounts m !! F) + 1]> (LinuxMock.cow_refcounts m) /\
    LinuxMock.next_pfn m' = LinuxMock.next_pfn m /\
    LinuxMock.handle_page_fault a true m' = Some (false, m') /\
    LinuxMock.handle_page_fault a false m' = Some (true, m').
Proof.
  intros Hmm Ha Hpt Hpresent Hframe Hfind.
  unfold LinuxMock.do_fork_cow. fold (page_align a).
  rewrite (page_align_aligned a Ha).
  replace (a + 4096 + 4095) with (a + 4096 + 0xFFF) by done.
  fold (page_align_up (a + 4096)). rewrite (page_align_up_aligned a Ha).
  rewrite Hmm, page_count_one. cbn [LinuxMock.fork_pages].
  assert ((a <? a + 4096) = true) as -> by (apply Z.ltb_lt; lia).
  rewrite Hpt. unfold LinuxMock.SimplePTE_is_valid. rewrite Hpresent, Hframe.
  rewrite bool_decide_true by done. cbn [andb].
  eexists. split; [reflexivity |].
  unfold LinuxMock.handle_page_fault. fold (page_align a).
  rewrite (page_align_aligned a Ha).
  cbn [LinuxMock.mmap_lock LinuxMock.vmas LinuxMock.page_table LinuxMock.cow_refcounts
       LinuxMock.next_pfn LinuxMock.with_cow_refcounts LinuxMock.with_page_table].
  rewrite Hmm, Hfind, lookup_insert_eq. cbn [LinuxMock.rw andb negb].
  by split_all.
Qed.

Lemma linux_fork_cow_write_refused_witness :
  let m := LinuxMock.mkMock false [LinuxMock.mkVMA 0x10000 0x12000 3 0]
             (<[0x10000 := LinuxMock.mkSimplePTE (Some 0x1000) true true]> ∅)
             0x1001 false ∅ in
  exists m',
    LinuxMock.do_fork_cow 0x10000 4096 m = Some (true, m') /\
    LinuxMock.page_table m' !! 0x10000
    = Some (LinuxMock.mkSimplePTE (Some 0x1000) true false) /\
    LinuxMock.cow_refcounts m'
    = <[0x1000 := default 1 (LinuxMock.cow_refcounts m !! 0x1000) + 1]>
        (LinuxMock.cow_refcounts m) /\
    LinuxMock.next_pfn m' = LinuxMock.next_pfn m /\
    LinuxMock.handle_page_fault 0x10000 true m' = Some (false, m') /\
    LinuxMock.handle_page_fault 0x10000 false m' = Some (true, m').
Proof.
  intros m.
  apply (linux_fork_cow_write_refused m 0x10000 0x1000
           (LinuxMock.mkSimplePTE (Some 0x1000) true true)
           (LinuxMock.mkVMA 0x10000 0x12000 3 0)).
  - reflexivity.
  - reflexivity.
  - reflexivity.
  - reflexivity.
  - reflexivity.
  - reflexivity.
Defined.

(* ===================================================================== *)
(** ** No frame is mapped twice *)
(* ===================================================================== *)

Lemma frames_shrink_compose (F G : PageTablePage -> PageTablePage) :
  frames_shrink F -> frames_shrink G -> frames_shrink (fun pg => F (G pg)).
Proof.
  intros HF HG pg i e' He'.
  destruct (HF _ _ _ He') as (e1 & He1 & H1).
  destruct (HG _ _ _ He1) as (e & He & H2).
  exists e. split; [done |]. destruct H1 as [H1 | H1]; [by left |].
  rewrite H1. exact H2.
Qed.

Lemma frames_shrink_descriptor (f : PageDescriptor -> PageDescriptor) :
  frames_shrink (set_descriptor f).
Proof. intros pg i e' He'. exists e'. split; [done | by right]. Qed.

Lemma frames_shrink_metadata (i : Z) (g : PTEMetadata -> PTEMetadata) :
  frames_shrink (update_metadata i g).
Proof. intros pg j e' He'. exists e'. split; [done | by right]. Qed.

Lemma frames_shrink_pte (i : Z) (f : PTE -> PTE) :
  (forall e, pfn (f e) = None \/ pfn (f e) = pfn e) ->
  frames_shrink (update_pte i f).
Proof.
  intros Hf pg j e' He'. unfold update_pte in He'. cbn [ptes set_ptes] in He'.
  rewrite list_lookup_alter in He'. case_decide as Hij.
  - subst j. destruct (ptes pg !! Z.to_nat i) as [e |]; [| done].
    injection He' as <-. exists e. split; [done | apply Hf].
  - exists e'. split; [done | by right].
Qed.

Lemma frames_shrink_below (G : PageTablePage -> PageTablePage) (b : Z)
    (pg : PageTablePage) :
  frames_shrink G -> frames_below b pg -> frames_below b (G pg).
Proof.
  intros HG Hb. unfold frames_below in *. apply Forall_lookup. intros i e' He' F HF.
  destruct (HG _ _ _ He') as (e & He & [Hnone | Hsame]); [congruence |].
  rewrite Forall_lookup in Hb. apply (Hb i e He). congruence.
Qed.

Lemma frames_distinct_alter (G : PageTablePage -> PageTablePage) (p : nat) (st : State) :
  frames_shrink G -> frames_distinct st -> frames_distinct (with_store (alter G p) st).
Proof.
  intros HG Hd q1 q2 pg1 pg2 i j e1 e2 F Hq1 Hq2 He1 He2 HF1 HF2.
  cbn [store with_store] in Hq1, Hq2.
  assert (forall q pg' k e', alter G p (store st) !! q = Some pg' ->
            ptes pg' !! k = Some e' -> pfn e' = Some F ->
            exists pg e, store st !! q = Some pg /\ ptes pg !! k = Some e /\ pfn e = Some F)
    as Hback.
  { intros q pg' k e' Hq He' HF. rewrite list_lookup_alter in Hq. case_decide as Hpq.
    - subst q. destruct (store st !! p) as [pg |]; [| done]. injection Hq as <-.
      destruct (HG _ _ _ He') as (e & He & [Hnone | Hsame]); [congruence |].
      exists pg, e. split_all; [done | done | congruence].
    - by exists pg', e'. }
  destruct (Hback _ _ _ _ Hq1 He1 HF1) as (pg1' & e1' & H1 & H2 & H3).
  destruct (Hback _ _ _ _ Hq2 He2 HF2) as (pg2' & e2' & H4 & H5 & H6).
  exact (Hd _ _ _ _ _ _ _ _ _ H1 H4 H2 H5 H3 H6).
Qed.

Lemma frames_distinct_ext (st st' : State) :
  store st' = store st -> frames_distinct st -> frames_distinct st'.
Proof. unfold frames_distinct. by intros ->. Qed.

(** Mapping a frame that no PTE holds. *)
Lemma frames_distinct_map (i n : Z) (w : bool) (p : nat) (st : State) :
  (forall q pg k e F, store st !! q = Some pg -> ptes pg !! k = Some e ->
     pfn e = Some F -> F < n) ->
  frames_distinct st ->
  frames_distinct (with_store (alter (mapped_page i n w) p) st).
Proof.
  intros Hbelow Hd q1 q2 pg1 pg2 k1 k2 e1 e2 F Hq1 Hq2 He1 He2 HF1 HF2.
  cbn [store with_store] in Hq1, Hq2.
  assert (forall q pg' k e', alter (mapped_page i n w) p (store st) !! q = Some pg' ->
            ptes pg' !! k = Some e' -> pfn e' = Some F ->
            (q = p /\ k = Z.to_nat i /\ F = n) \/
            (exists pg e, store st !! q = Some pg /\ ptes pg !! k = Some e /\
                          pfn e = Some F)) as Hback.
  { intros q pg' k e' Hq He' HF. rewrite list_lookup_alter in Hq. case_decide as Hpq.
    - subst q. destruct (store st !! p) as [pg |] eqn:Hp; [| done]. injection Hq as <-.
      unfold mapped_page, update_pte in He'.
      cbn [ptes set_descriptor update_metadata set_ptes] in He'.
      rewrite list_lookup_alter in He'. case_decide as Hik.
      + subst k. destruct (ptes pg !! Z.to_nat i) as [e |]; [| done].
        injection He' as <-. cbn [pfn map_pte] in HF. injection HF as <-. by left.
      + right. by exists pg, e'.
    - right. by exists pg', e'. }
  destruct (Hback _ _ _ _ Hq1 He1 HF1) as [(-> & -> & ->) | (pg1' & e1' & H1 & H2 & H3)];
    destruct (Hback _ _ _ _ Hq2 He2 HF2) as [(-> & -> & Hn) | (pg2' & e2' & H4 & H5 & H6)].
  - done.
  - pose proof (Hbelow _ _ _ _ _ H4 H5 H6). lia.
  - subst F. pose proof (Hbelow _ _ _ _ _ H1 H2 H3). lia.
  - exact (Hd _ _ _ _ _ _ _ _ _ H1 H4 H2 H5 H3 H6).
Qed.

Lemma frames_issued_lookup (st : State) :
  frames_issued st ->
  forall q pg k e F, store st !! q = Some pg -> ptes pg !! k = Some e ->
    pfn e = Some F -> F < next_pfn st.
Proof.
  intros H q pg k e F Hq He HF. unfold frames_issued in H.
  rewrite Forall_lookup in H. specialize (H q pg Hq).
  unfold frames_below in H. rewrite Forall_lookup in H. exact (H k e He F HF).
Qed.

Section FrameCalls.
Context (held : option nat) (c : RCursor).

Lemma fr_update_page (p : nat) (G : PageTablePage -> PageTablePage) :
  page_step G -> frames_shrink G ->
  preserves (frame_inv held) (update_page p G).
Proof.
  intros HG Hs st [Hsys Hd]. split.
  - apply (sys_update_page held p G HG); [| done].
    intros b pg. by apply frames_shrink_below.
  - by apply frames_distinct_alter.
Qed.

Lemma fr_update_three (p : nat) (f g h : PageTablePage -> PageTablePage) :
  page_step (fun pg => h (g (f pg))) ->
  frames_shrink (fun pg => h (g (f pg))) ->
  preserves (frame_inv held)
    (let* _ := update_page p f in
     let* _ := update_page p g in
     update_page p h).
Proof.
  intros HG Hs st [Hsys Hd].
  pose proof (sys_update_three held p f g h HG
                (fun b pg => frames_shrink_below _ b pg Hs) st Hsys) as Hsys'.
  unfold bind, update_page, modify in *.
  rewrite !with_store_alter_alter in *. split; [done |].
  by apply frames_distinct_alter.
Qed.

Lemma fr_set_cow_refcounts (f : State -> gmap Z Z) :
  preserves (frame_inv held) (modify (fun st => with_cow_refcounts (f st) st)).
Proof.
  intros st [Hsys Hd]. split; [by apply (sys_set_cow_refcounts held f st) |].
  by apply (frames_distinct_ext st).
Qed.

Lemma fr_query (vaddr : Z) : preserves (frame_inv held) (RCursor_query c vaddr).
Proof.
  apply preserves_bind; [apply preserves_assert | intros _; apply preserves_gets].
Qed.

Lemma fr_get_pte_and_metadata (vaddr : Z) :
  preserves (frame_inv held) (RCursor_get_pte_and_metadata c vaddr).
Proof.
  apply preserves_bind; [apply preserves_assert | intros _; apply preserves_gets].
Qed.

Lemma fr_allocate_map {A} (vaddr : Z) (k : Z -> M A) :
  (forall x, preserves (frame_inv held) (k x)) ->
  preserves (frame_inv held)
    (let* pfn' := allocate_pfn in
     let* _ := RCursor_map c vaddr pfn' true in
     k pfn').
Proof.
  intros Hk st [[Hinv H] Hd].
  unfold bind at 1. rewrite allocate_pfn_free by apply Hinv.
  set (st_a := with_next_pfn (next_pfn st + 1) st).
  assert (sys_inv held st_a) as [Hinv_a Ha].
  { split; [by apply (inv_ext held st) |].
    unfold frames_issued in *. cbn [store next_pfn with_next_pfn st_a].
    eapply Forall_impl; [exact H |]. intros pg. apply frames_below_mono. lia. }
  assert (next_pfn st < next_pfn st_a) as Hlt by (simpl; lia).
  assert (match RCursor_map c vaddr (next_pfn st) true st_a with
          | Ok _ s' => frame_inv held s'
          | Raise _ s' => frame_inv held s'
          | Blocked => False
          end) as Hmap.
  { unfold RCursor_map. unfold bind at 1.
    destruct (in_cursor_range c vaddr); simpl; [| by split].
    unfold bind at 1. unfold gets at 1.
    destruct (first_leaf (store st_a) (locked_pages c)) as [leaf |]; [| by split].
    unfold bind, update_page, modify. rewrite !with_store_alter_alter.
    split; [split |].
    - apply inv_alter; [| done].
      apply (page_step_mapped_page (leaf_index vaddr) (next_pfn st) true).
    - apply frames_issued_alter; [| done]. intros pg.
      by apply (frames_mapped_page _ (leaf_index vaddr) (next_pfn st) true).
    - apply (frames_distinct_map (leaf_index vaddr) (next_pfn st) true leaf st_a).
      + intros q pg k0 e F. apply (frames_issued_lookup st H).
      + by apply (frames_distinct_ext st). }
  unfold bind at 1.
  destruct (RCursor_map c vaddr (next_pfn st) true st_a) as [[] s' | e s' |];
    [by apply Hk | done | done].
Qed.

Lemma fr_mark (s : Status) (perm : Z) :
  live_status s -> preserves (frame_inv held) (RCursor_mark c s perm).
Proof.
  intros Hs. apply preserves_for_pages. intros vaddr.
  induction (locked_pages c) as [| p pages IH]; simpl; [apply preserves_ret |].
  apply preserves_bind; [apply preserves_gets | intros leaf].
  apply preserves_bind; [| intros _; apply IH].
  destruct leaf; [| apply preserves_ret].
  apply preserves_bind; [| intros _].
  - apply fr_update_page; [by apply page_step_mark | apply frames_shrink_metadata].
  - apply fr_update_page; [apply page_step_increment_version | apply frames_shrink_descriptor].
Qed.

Lemma frames_shrink_unmapped_page (i : Z) : frames_shrink (unmapped_page i).
Proof.
  unfold unmapped_page.
  apply (frames_shrink_compose (set_descriptor increment_version)
           (fun pg => update_metadata i unmap_metadata (update_pte i PTE_clear pg)));
    [apply frames_shrink_descriptor |].
  apply (frames_shrink_compose (update_metadata i unmap_metadata) (update_pte i PTE_clear));
    [apply frames_shrink_metadata |].
  apply frames_shrink_pte. intros e. by left.
Qed.

Lemma fr_unmap_range : preserves (frame_inv held) (RCursor_unmap_range c).
Proof.
  apply preserves_for_pages. intros vaddr.
  apply preserves_bind; [apply preserves_gets | intros [leaf |]].
  - apply preserves_bind; [apply preserves_gets | intros s].
    destruct (bool_decide (s <> Invalid)); [| apply preserves_ret].
    apply fr_update_three.
    + apply (page_step_unmapped_page (leaf_index vaddr)).
    + apply (frames_shrink_unmapped_page (leaf_index vaddr)).
  - apply preserves_ret.
Qed.

Lemma frames_shrink_set_rw (i : Z) (b : bool) : frames_shrink (update_pte i (PTE_set_rw b)).
Proof. apply frames_shrink_pte. intros e. by right. Qed.

Lemma fr_handle_cow_write (vaddr : Z) :
  preserves (frame_inv held) (_handle_cow_write c vaddr).
Proof.
  apply preserves_bind; [apply fr_get_pte_and_metadata | intros [[pt_page idx] |]];
    [| apply preserves_ret].
  apply preserves_bind; [apply preserves_gets | intros pte].
  destruct (negb (PTE_is_valid pte)); [apply preserves_ret |].
  destruct (pfn pte) as [old_pfn |]; [| apply preserves_ret].
  apply preserves_bind; [apply preserves_gets | intros refcnt].
  destruct (refcnt >? 1).
  - apply fr_allocate_map. intros new_pfn.
    apply preserves_bind; [apply fr_set_cow_refcounts | intros _].
    apply preserves_bind; [apply fr_set_cow_refcounts | intros _].
    apply preserves_bind; [| intros _; apply preserves_ret].
    apply fr_update_page; [apply page_step_cow_metadata | apply frames_shrink_metadata].
  - apply preserves_bind; [| intros _].
    { apply fr_update_page; [apply page_step_set_rw | apply frames_shrink_set_rw]. }
    apply preserves_bind; [| intros _; apply preserves_ret].
    apply fr_update_page; [apply page_step_cow_metadata | apply frames_shrink_metadata].
Qed.

End FrameCalls.

Lemma create_path_distinct (indices : list Z) :
  forall (i : Z) (current : nat) (st : State) (lf : nat) (st' : State),
    create_path i current indices st = Ok lf st' ->
    frames_distinct st -> frames_distinct st'.
Proof.
  induction indices as [| index rest IH]; intros i current st lf st'.
  - by intros [= <- <-].
  - cbn [create_path]. unfold bind at 1. unfold gets at 1.
    destruct (get_child (deref st current) index) as [c |]; [apply IH |].
    unfold bind at 1. unfold gets at 1. unfold bind at 1. unfold gets at 1.
    unfold bind at 1. unfold modify at 1. unfold bind at 1.
    unfold update_page at 1. unfold modify at 1.
    intros Hrun Hd. apply (IH _ _ _ _ _ Hrun).
    apply frames_distinct_alter.
    { intros pg j e' He'. exists e'. split; [done | by right]. }
    intros q1 q2 pg1 pg2 k1 k2 e1 e2 F Hq1 Hq2 He1 He2 HF1 HF2.
    cbn [store with_store] in Hq1, Hq2.
    assert (forall q pg k e, (store st ++ [PageTablePage_new (Z.of_nat (levels st) - 2 - i)])
                               !! q = Some pg ->
              ptes pg !! k = Some e -> pfn e = Some F -> store st !! q = Some pg) as Hold.
    { intros q pg k e Hq He HF. apply lookup_app_Some in Hq as [Hq | [_ Hq]]; [done |].
      apply list_lookup_singleton_Some in Hq as [_ <-].
      unfold PageTablePage_new in He. cbn [ptes] in He.
      apply lookup_replicate_1 in He as [-> _]. done. }
    exact (Hd _ _ _ _ _ _ _ _ _ (Hold _ _ _ _ Hq1 He1 HF1) (Hold _ _ _ _ Hq2 He2 HF2)
             He1 He2 HF1 HF2).
Qed.

Lemma create_leaf_page_distinct (vaddr : Z) (st st0 : State) (lf : nat) :
  _create_leaf_page vaddr st = Ok lf st0 ->
  frames_distinct st -> frames_distinct st0.
Proof.
  unfold _create_leaf_page, with_mutex.
  destruct (structure_lock st); [done |].
  unfold finally, bind at 1. unfold gets at 1. unfold bind at 1. unfold gets at 1.
  cbn [levels root with_structure_lock].
  destruct (create_path 0 (root st) (removelast (parse_vaddr vaddr (levels st)))
              (with_structure_lock true st)) as [lf' st' | e st' |] eqn:Hrun; [| done | done].
  unfold modify. intros [= <- <-] H.
  apply (frames_distinct_ext st'); [done |].
  apply (create_path_distinct _ _ _ _ _ _ Hrun). by apply (frames_distinct_ext st).
Qed.

Lemma fr_AddrSpace_lock {A} (vstart vend : Z) (deep : bool) (body : RCursor -> M A) :
  (forall c lf, preserves (frame_inv (Some lf)) (body c)) ->
  preserves (frame_inv None) (AddrSpace_lock vstart vend deep body).
Proof.
  intros Hbody st [[Hinv Hfr] Hd]. unfold AddrSpace_lock.
  destruct (lock_attempts_inv 9 (Z.land vstart (Z.lnot 0xFFF))
              (Z.land (vend + 0xFFF) (Z.lnot 0xFFF)) deep st Hinv)
    as (lf & st0 & pg & Hrun & Hinv0 & Hleaf & Hpg & Hlevel & Hst0).
  assert (frames_issued st0 /\ frames_distinct st0) as [Hfr0 Hd0].
  { destruct Hst0 as [-> | Hcreate]; [done |].
    split; [by apply (create_leaf_page_frames _ _ _ _ Hcreate) |
            by apply (create_leaf_page_distinct _ _ _ _ Hcreate)]. }
  unfold bind at 1. rewrite Hrun.
  assert (frame_inv (Some lf) (locked_state lf st0)) as Hlocked.
  { split; [split |].
    - destruct Hinv0 as [Ht Hm]. split; [by apply (tree_inv_lock _ _ pg) | done].
    - by apply frames_issued_alter.
    - apply frames_distinct_alter; [apply frames_shrink_descriptor | done]. }
  unfold finally.
  set (c := mkCursor _ _ [lf] false).
  specialize (Hbody c lf _ Hlocked).
  assert (forall st2, frame_inv (Some lf) st2 ->
            (let* _ := RCursor_release c in try_reclaim) st2 = Ok tt (exit_state lf st2) /\
            frame_inv None (exit_state lf st2)) as Hexit.
  { intros st2 [[Hinv2 Hfr2] Hd2].
    destruct (scope_exit_inv st2 c lf eq_refl eq_refl Hinv2) as [Hrun2 Hinv2'].
    split; [done |]. split; [split; [done |] |].
    - apply (frames_issued_ext (with_store (alter (set_descriptor (set_lock false)) lf) st2));
        [done | done |].
      by apply frames_issued_alter.
    - apply (frames_distinct_ext (with_store (alter (set_descriptor (set_lock false)) lf) st2));
        [done |].
      apply frames_distinct_alter; [apply frames_shrink_descriptor | done]. }
  destruct (body c (locked_state lf st0)) as [a st2 | e st2 |]; [| | done].
  - destruct (Hexit st2 Hbody) as [-> Hdone]. done.
  - destruct (Hexit st2 Hbody) as [-> Hdone]. done.
Qed.

Lemma fr_run_operation (o : operation) :
  system_call o -> preserves (frame_inv None) (run_operation o).
Proof.
  destruct o as [vaddr length prot | vaddr length | vaddr is_write | vaddr length | |];
    simpl; try done; intros _.
  - apply preserves_bind; [| intros _; apply preserves_ret].
    apply preserves_catch.
    apply preserves_bind; [| intros _; apply preserves_ret].
    apply fr_AddrSpace_lock. intros c lf. apply fr_mark. right; right; reflexivity.
  - apply preserves_bind; [| intros _; apply preserves_ret].
    apply preserves_catch.
    apply preserves_bind; [| intros _; apply preserves_ret].
    apply fr_AddrSpace_lock. intros c lf. apply fr_unmap_range.
  - apply preserves_bind; [| intros _; apply preserves_ret].
    apply preserves_catch. apply fr_AddrSpace_lock. intros c lf.
    apply preserves_bind; [apply fr_query | intros s].
    destruct s; try apply preserves_ret.
    + apply preserves_bind; [apply fr_get_pte_and_metadata | intros [[pt_page idx] |]];
        [| apply preserves_ret].
      apply preserves_bind; [apply preserves_gets | intros pte].
      apply preserves_bind; [apply preserves_gets | intros metadata].
      destruct (is_write && negb (rw pte)); [| apply preserves_ret].
      destruct (negb (Z.land (soft_perm metadata) 2 =? 0)); apply preserves_ret.
    + apply fr_allocate_map. intros _. apply preserves_ret.
    + destruct (negb is_write); [| apply fr_handle_cow_write].
      apply preserves_bind; [apply fr_get_pte_and_metadata | intros [[pt_page idx] |]];
        [| apply preserves_ret].
      apply preserves_bind; [apply preserves_gets | intros pte].
      destruct (negb (PTE_is_valid pte)); apply preserves_ret.
  - apply preserves_bind; [| intros _; apply preserves_ret].
    apply preserves_catch.
    apply preserves_bind; [| intros _; apply preserves_ret].
    apply fr_AddrSpace_lock. intros c lf.
    apply preserves_for_pages. intros current_vaddr.
    apply preserves_bind; [apply fr_get_pte_and_metadata | intros [[pt_page idx] |]];
      [| apply preserves_ret].
    apply preserves_bind; [apply preserves_gets | intros pte].
    apply preserves_bind; [apply preserves_gets | intros metadata].
    destruct (PTE_is_valid pte && bool_decide (status metadata = Mapped));
      [| apply preserves_ret].
    destruct (pfn pte) as [frame |]; [| apply preserves_ret].
    apply preserves_bind; [| intros _].
    { apply fr_update_page; [apply page_step_set_status_COW | apply frames_shrink_metadata]. }
    apply preserves_bind; [| intros _].
    { apply fr_update_page; [apply page_step_set_rw | apply frames_shrink_set_rw]. }
    apply preserves_bind; [apply fr_set_cow_refcounts | intros _].
    apply preserves_bind; [apply preserves_gets | intros cnt].
    apply fr_update_page; [apply page_step_set_refcount | apply frames_shrink_metadata].
  - intros st0 [[Hi Hf] Hd].
    split; [split; [by apply (inv_ext None st0) | by apply (frames_issued_ext st0)] |].
    by apply (frames_distinct_ext st0).
Qed.

Lemma frame_inv_fresh : frame_inv None CortenMMSystem_new.
Proof.
  split; [apply sys_inv_fresh |].
  intros p q pg pg' i j e e' F Hp Hq He He' HF HF'.
  destruct p as [| p]; [| done]. injection Hp as <-.
  unfold PageTablePage_new in He. cbn [ptes] in He.
  apply lookup_replicate_1 in He as [-> _]. done.
Qed.

(** X30: after any sequence of [mmap], [munmap], page faults and
    [do_fork_cow] on a fresh system, every frame held by a PTE was handed
    out by the allocator and no frame is held by two PTEs: two entries
    with the same frame number are the same entry of the same page.
    Sharing by [do_fork_cow] marks an entry, it never gives its frame to
    a second one. *)
Theorem no_frame_mapped_twice (os : list operation) :
  Forall system_call os ->
  exists st,
    run_operations os CortenMMSystem_new = Some st /\
    forall p q pg pg' i j F,
      store st !! p = Some pg -> store st !! q = Some pg' ->
      0 <= i < 512 -> 0 <= j < 512 ->
      pfn (get_pte pg i) = Some F -> pfn (get_pte pg' j) = Some F ->
      F < next_pfn st /\ p = q /\ i = j.
Proof.
  intros Hos.
  assert (forall st, frame_inv None st ->
            exists st', run_operations os st = Some st' /\ frame_inv None st') as Hrun.
  { induction Hos as [| o os Ho _ IH]; intros st Hinv; simpl; [eauto |].
    pose proof (fr_run_operation o Ho st Hinv) as Hstep.
    destruct (run_operation o st) as [[] st' | e st' |]; [by apply IH | by apply IH | done]. }
  destruct (Hrun _ frame_inv_fresh) as (st & Hst & [[Hinv Hfr] Hd]).
  exists st. split; [done |]. intros p q pg pg' i j F Hp Hq Hi Hj HF HF'.
  assert (forall r rpg k, store st !! r = Some rpg -> 0 <= k < 512 ->
            ptes rpg !! Z.to_nat k = Some (get_pte rpg k)) as Hget.
  { intros r rpg k Hr Hk.
    pose proof (pi_ptes _ _ (ti_pages _ _ (proj1 Hinv) _ _ Hr)) as Hlen.
    unfold get_pte. apply list_lookup_lookup_total_lt. lia. }
  pose proof (Hget p pg i Hp Hi) as He. pose proof (Hget q pg' j Hq Hj) as He'.
  destruct (Hd _ _ _ _ _ _ _ _ _ Hp Hq He He' HF HF') as [-> Hij].
  split_all; [by apply (frames_issued_lookup st Hfr _ _ _ _ _ Hp He) | done | lia].
Qed.

Lemma no_frame_mapped_twice_witness :
  exists st,
    run_operations
      [Mmap 0x10000 0x3000 3; PageFault 0x10000 true; PageFault 0x11000 false;
       ForkCow 0x10000 0x2000; PageFault 0x10000 true; Munmap 0x11000 0x1000;
       PageFault 0x12000 true]
      CortenMMSystem_new = Some st /\
    forall p q pg pg' i j F,
      store st !! p = Some pg -> store st !! q = Some pg' ->
      0 <= i < 512 -> 0 <= j < 512 ->
      pfn (get_pte pg i) = Some F -> pfn (get_pte pg' j) = Some F ->
      F < next_pfn st /\ p = q /\ i = j.
Proof.
  apply no_frame_mapped_twice.
  repeat match goal with |- Forall _ _ => constructor end; exact I.
Defined.
